(** * sql-tutor: the evaluation and hinting engine of [src/tutor.py]

    A shallow embedding of class [SQLTutor]: the query executor
    ([execute_query]), the result comparator ([compare_results]), the
    similarity scorer ([calculate_query_similarity]), the hint policy
    ([get_progressive_hint], [get_ai_feedback]) and the attempt loop of
    [practice_session], followed by the properties of these functions.

    Python computations that can raise are values of [py]; methods that
    touch the database, the embedder, the advisor or the terminal thread
    a [machine] through the monad [M].  The choice of the exercise
    ([get_query_by_level], [generate_new_exercise]) runs on a [selector],
    the tutor with the counter of generated exercises.  [Dict] has the
    methods of the attempt loop on an exercise that may lack keys.  The
    screens of [main] are not embedded. *)

From Stdlib Require Import ZArith NArith QArith Bool Lia SpecFloat Ascii String.
From stdpp Require Import base option list strings pretty gmap.

Local Open Scope string_scope.

(** ** Python results *)

(** An exception derived from [Exception]: its class name and [str(e)].
    Interrupts ([KeyboardInterrupt], [SystemExit]) are outside the model. *)
Record exn := Exn { exn_class : string; exn_str : string }.

Inductive py (A : Type) : Type :=
| Return (a : A)
| Raise (e : exn).
Arguments Return {A} a.
Arguments Raise {A} e.

Definition is_return {A} (r : py A) : bool :=
  match r with Return _ => true | Raise _ => false end.

Definition py_bind {A B} (r : py A) (k : A -> py B) : py B :=
  match r with Return a => k a | Raise e => Raise e end.

Definition TypeError (msg : string) : exn := Exn "TypeError" msg.
Definition KeyError (key : string) : exn := Exn "KeyError" ("'" ++ key ++ "'").
Definition IndexError (msg : string) : exn := Exn "IndexError" msg.

(** ** Values of a result row *)

(** A REAL column as [sqlite3] hands it over: a binary fraction
    [(-1)^neg * m * 2^e] or an infinity.  SQLite reads NaN back as NULL,
    so no NaN reaches a row. *)
Inductive real :=
| RInf (neg : bool)
| RFin (neg : bool) (m : N) (e : Z).

(** The five Python types [sqlite3] produces: [None], [int], [float],
    [str] and [bytes].  A text is held as its UTF-8 bytes, whose order is
    the order of its code points. *)
Inductive value :=
| VNone
| VInt (z : Z)
| VReal (r : real)
| VText (s : string)
| VBlob (b : string).

Definition row := list value.

(** The number a numeric value denotes, on the extended rational line. *)
Inductive xnum := NegInf | Fin (q : Q) | PosInf.

Definition real_num (r : real) : xnum :=
  match r with
  | RInf true => NegInf
  | RInf false => PosInf
  | RFin neg m e =>
      Fin ((if neg then - inject_Z (Z.of_N m) else inject_Z (Z.of_N m))
           * Qpower 2 e)%Q
  end.

Definition xcompare (x y : xnum) : comparison :=
  match x, y with
  | NegInf, NegInf => Eq
  | NegInf, _ => Lt
  | _, NegInf => Gt
  | PosInf, PosInf => Eq
  | PosInf, _ => Gt
  | _, PosInf => Lt
  | Fin p, Fin q => (p ?= q)%Q
  end.

Definition type_name (v : value) : string :=
  match v with
  | VNone => "NoneType"
  | VInt _ => "int"
  | VReal _ => "float"
  | VText _ => "str"
  | VBlob _ => "bytes"
  end.

Definition unorderable (a b : value) : exn :=
  TypeError ("'<' not supported between instances of '" ++ type_name a
             ++ "' and '" ++ type_name b ++ "'").

Definition is_lt (c : comparison) : bool :=
  match c with Lt => true | _ => false end.
Definition is_eq (c : comparison) : bool :=
  match c with Eq => true | _ => false end.

(** [a == b] on values: numbers compare by the number they denote, across
    [int] and [float]; text and bytes compare by content; values of
    different kinds are unequal.  [==] never raises. *)
Definition value_eq (a b : value) : bool :=
  match a, b with
  | VNone, VNone => true
  | VInt x, VInt y => is_eq (xcompare (Fin (inject_Z x)) (Fin (inject_Z y)))
  | VInt x, VReal r => is_eq (xcompare (Fin (inject_Z x)) (real_num r))
  | VReal r, VInt y => is_eq (xcompare (real_num r) (Fin (inject_Z y)))
  | VReal r, VReal s => is_eq (xcompare (real_num r) (real_num s))
  | VText s, VText t => is_eq (String.compare s t)
  | VBlob s, VBlob t => is_eq (String.compare s t)
  | _, _ => false
  end.

(** [a < b] on values: defined between two numbers, two texts or two
    byte strings, [TypeError] otherwise ([None] orders with nothing, not
    even with [None]). *)
Definition value_lt (a b : value) : py bool :=
  match a, b with
  | VInt x, VInt y =>
      Return (is_lt (xcompare (Fin (inject_Z x)) (Fin (inject_Z y))))
  | VInt x, VReal r => Return (is_lt (xcompare (Fin (inject_Z x)) (real_num r)))
  | VReal r, VInt y => Return (is_lt (xcompare (real_num r) (Fin (inject_Z y))))
  | VReal r, VReal s => Return (is_lt (xcompare (real_num r) (real_num s)))
  | VText s, VText t => Return (is_lt (String.compare s t))
  | VBlob s, VBlob t => Return (is_lt (String.compare s t))
  | _, _ => Raise (unorderable a b)
  end.

(** Tuples: [==] compares lengths and items; [<] finds the first index
    at which the items differ under [==] and orders the tuples by [<] on
    those two items, or by length when one tuple is a prefix of the
    other. *)
Fixpoint tuple_eq (a b : row) : bool :=
  match a, b with
  | [], [] => true
  | x :: a', y :: b' => value_eq x y && tuple_eq a' b'
  | _, _ => false
  end.

Fixpoint tuple_lt (a b : row) : py bool :=
  match a, b with
  | [], [] => Return false
  | [], _ :: _ => Return true
  | _ :: _, [] => Return false
  | x :: a', y :: b' => if value_eq x y then tuple_lt a' b' else value_lt x y
  end.

(** [l1 == l2] on lists of tuples. *)
Fixpoint list_eq (l1 l2 : list row) : bool :=
  match l1, l2 with
  | [], [] => true
  | a :: l1', b :: l2' => tuple_eq a b && list_eq l1' l2'
  | _, _ => false
  end.

(** [sorted(rows)].  [list.sort] uses [<] only and is stable; it is
    modelled by stable insertion, each row placed before the first row
    that is not smaller than it.  Whenever every two rows of the list are
    orderable, [<] is a total preorder on them and every stable sort
    returns this list.  A comparison that raises ends the sort with that
    exception; a two-row list is compared once, [rows[1] < rows[0]], here
    as in [list.sort].  On three or more rows of which several pairs are
    unorderable [list.sort] may meet another pair first: that the sort
    raises a [TypeError] of two of the values is as in [list.sort],
    which two it names is not. *)
Fixpoint insert_sorted (x : row) (l : list row) : py (list row) :=
  match l with
  | [] => Return [x]
  | y :: l' =>
      py_bind (tuple_lt y x) (fun smaller =>
        if smaller
        then py_bind (insert_sorted x l') (fun r => Return (y :: r))
        else Return (x :: y :: l'))
  end.

Fixpoint sorted (l : list row) : py (list row) :=
  match l with
  | [] => Return []
  | x :: l' => py_bind (sorted l') (insert_sorted x)
  end.

(** Every two rows of [l] are orderable: [<] returns on them. *)
Definition orderable (l : list row) : bool :=
  forallb (fun a => forallb (fun b => is_return (tuple_lt a b)) l) l.

(** The number of rows of [l] equal to [r] under [==]. *)
Definition count_row (r : row) (l : list row) : nat :=
  length (List.filter (tuple_eq r) l).

(** [l1] and [l2] hold the same rows the same number of times, rows
    being told apart by [==]. *)
Definition same_rows (l1 l2 : list row) : Prop :=
  forall r, count_row r l1 = count_row r l2.

(** ** Floating-point numbers *)

(** A Python [float] is an IEEE 754 binary64 number, a numpy [float32] a
    binary32 number; both are [spec_float]s, and the operations below are
    the Standard Library's at the precision of each. *)
Definition float := spec_float.
Definition float32 := spec_float.

Definition float_lt : float -> float -> bool := SFltb.
Definition float_le : float -> float -> bool := SFleb.

Definition f32_mul : float32 -> float32 -> float32 := SFmul 24 128.
Definition f32_div : float32 -> float32 -> float32 := SFdiv 24 128.

(** [float(x)] on a numpy [float32]: every binary32 number is a binary64
    number, so the conversion is exact; the mantissa is realigned. *)
Definition float_of_float32 (x : float32) : float :=
  match x with
  | S754_finite s m e => binary_round 53 1024 s m e
  | _ => x
  end.

(** The literals [0.8], [0.6] and [0.4]: the binary64 numbers nearest to
    them. *)
Definition f0_8 : float := S754_finite false 7205759403792794 (-53).
Definition f0_6 : float := S754_finite false 5404319552844595 (-53).
Definition f0_4 : float := S754_finite false 7205759403792794 (-54).

Definition is_zero (x : spec_float) : bool :=
  match x with S754_zero _ => true | _ => false end.

Definition f1_0 : float := S754_finite false 4503599627370496 (-52).

Definition vector := list float32.

(** ** The exercise record and the tutor *)

(** An entry of [queries.json]: the keys [id], [question], [solution] and
    [concepts], and the optional key [hint].  The record has every key;
    a dict that lacks some, as a generated exercise can, is an [entry]
    (see [Dict]). *)
Record exercise := Exercise {
  ex_id : string;
  question : string;
  solution : string;
  concepts : list string;
  hint : option string
}.

(** What [print] writes, one event per message, carrying the values the
    source interpolates into the text. *)
Inductive event :=
| EvPrompt (attempt : nat)
| EvSyntaxError (error : string)
| EvSimilarity (similarity : float)
| EvHint (text : string)
| EvMenu
| EvSolution (query : string)
| EvTutor (feedback : string)
| EvCorrect
| EvSolvedIn (attempt : nat)
| EvProgress (completed total : nat)
| EvYourResults
| EvNoRows
| EvHeader (columns : list string)
| EvRow (r : row)
| EvMoreRows (n : nat)
| EvNotQuite
| EvExpected
| EvGenerating (attempt max_attempts : nat)
| EvAIHint (text : string)
| EvUnderstanding
| EvDetailed
| EvExhausted (max_attempts : nat)
| EvComprehensive.

(** The collaborators of a tutor, as operations on the state of the
    outside world [World]: the SQLite cursor, the sentence embedder with
    numpy's [dot] and [linalg.norm] (whose order of summation numpy leaves
    open), the Anthropic client, [input], and the formatting of a float
    with a fixed number of decimals ([format(x, '.2f')]). *)
Class Env (World : Type) := {
  cursor_execute : string -> World -> py unit * World;
  cursor_fetchall : World -> py (list row) * World;
  cursor_description : World -> option (list string);
  embedder_encode : list string -> World -> py (list vector) * World;
  np_dot : vector -> vector -> float32;
  np_linalg_norm : vector -> float32;
  messages_create : string -> N -> string -> World -> py (list string) * World;
  input : World -> py string * World;
  format_fixed : nat -> float -> string
}.

(** The fields of [SQLTutor] the engine reads and writes, with the world
    its collaborators live in and the text printed so far. *)
Record machine (World : Type) := Machine {
  world : World;
  client : bool;
  queries : gmap string (list exercise);
  completed_exercises : gmap string (gset string);
  stdout : list event
}.
Arguments Machine {World}.
Arguments world {World}.
Arguments client {World}.
Arguments queries {World}.
Arguments completed_exercises {World}.
Arguments stdout {World}.

(** ** Strings *)

(** [str.lower] and [str.strip] on the ASCII range: the letters [A]-[Z]
    are lowered, and the white space removed at both ends is what
    [str.isspace] accepts below 128 (codes 9-13, 28-31 and 32).  Text
    beyond that range is left as it is, where Python also lowers the
    cased letters and removes the white space of the other scripts: what
    is proved of the normalisation itself is stated on ASCII text. *)
Definition lower_char (c : ascii) : ascii :=
  let n := N_of_ascii c in
  if ((65 <=? n) && (n <=? 90))%N then ascii_of_N (n + 32) else c.

Fixpoint lower (s : string) : string :=
  match s with
  | EmptyString => EmptyString
  | String c s' => String (lower_char c) (lower s')
  end.

Definition is_space (c : ascii) : bool :=
  let n := N_of_ascii c in
  (((9 <=? n) && (n <=? 13)) || ((28 <=? n) && (n <=? 32)))%N.

Fixpoint lstrip (s : string) : string :=
  match s with
  | EmptyString => EmptyString
  | String c s' => if is_space c then lstrip s' else s
  end.

Fixpoint rstrip (s : string) : string :=
  match s with
  | EmptyString => EmptyString
  | String c s' =>
      match rstrip s' with
      | EmptyString => if is_space c then EmptyString else String c EmptyString
      | r => String c r
      end
  end.

Definition strip (s : string) : string := rstrip (lstrip s).

(** [sep.join(l)] *)
Definition join (sep : string) (l : list string) : string := String.concat sep l.

(** [l[i]] on a list *)
Definition index {A} (l : list A) (i : nat) : py A :=
  match l !! i with
  | Some a => Return a
  | None => Raise (IndexError "list index out of range")
  end.

(** [d[k]] on a dictionary *)
Definition getitem {A} (d : gmap string A) (k : string) : py A :=
  match d !! k with
  | Some a => Return a
  | None => Raise (KeyError k)
  end.

(** ** The monad of methods *)

Section Tutor.
Context {World : Type} `{Env World}.

Definition M (A : Type) : Type := machine World -> py A * machine World.

Definition ret {A} (a : A) : M A := fun s => (Return a, s).
Definition raise {A} (e : exn) : M A := fun s => (Raise e, s).
Definition bind {A B} (m : M A) (k : A -> M B) : M B :=
  fun s => match m s with
           | (Return a, s') => k a s'
           | (Raise e, s') => (Raise e, s')
           end.

(** [try: m except Exception as e: h e] *)
Definition try_except {A} (m : M A) (h : exn -> M A) : M A :=
  fun s => match m s with
           | (Return a, s') => (Return a, s')
           | (Raise e, s') => h e s'
           end.

Notation "'do' x <- m ; k" := (bind m (fun x => k))
  (at level 10, x name, m at level 100, k at level 200).

Definition lift {A} (f : World -> py A * World) : M A :=
  fun s => let (r, w) := f (world s) in
           (r, Machine w (client s) (queries s) (completed_exercises s) (stdout s)).

Definition get {A} (f : machine World -> A) : M A := fun s => (Return (f s), s).

Definition print (e : event) : M unit :=
  fun s => (Return tt,
            Machine (world s) (client s) (queries s) (completed_exercises s)
                    (stdout s ++ [e])).

Definition of_py {A} (r : py A) : M A := fun s => (r, s).

(** ** Query executor *)

(** The tuple [(success, results, columns, error_message)]. *)
Definition execution : Type :=
  bool * option (list row) * option (list string) * option string.

Definition success (r : execution) : bool := r.1.1.1.
Definition results (r : execution) : option (list row) := r.1.1.2.
Definition columns (r : execution) : option (list string) := r.1.2.
Definition error_message (r : execution) : option string := r.2.

Definition execute_query (query : string) : M execution :=
  try_except
    (do _ <- lift (cursor_execute query) ;
     do results <- lift cursor_fetchall ;
     do description <- get (fun s => cursor_description (world s)) ;
     let columns := match description with Some d => d | None => [] end in
     ret (true, Some results, Some columns, None))
    (fun e => ret (false, None, None, Some (exn_str e))).

(** ** Result comparator *)

(** [sorted(results) if results else []] *)
Definition sorted_results (results : option (list row)) : py (list row) :=
  match results with
  | Some (r :: l) => sorted (r :: l)
  | _ => Return []
  end.

(** [cols1 == cols2]: [None == None], and two lists of the same strings. *)
Definition columns_eq (cols1 cols2 : option (list string)) : bool :=
  bool_decide (cols1 = cols2).

(** Lines 164-171 of [compare_results], on the two executions. *)
Definition results_equal (r1 r2 : execution) : py bool :=
  if negb (success r1) || negb (success r2) then Return false
  else
    py_bind (sorted_results (results r1)) (fun sorted_results1 =>
    py_bind (sorted_results (results r2)) (fun sorted_results2 =>
    Return (list_eq sorted_results1 sorted_results2
            && columns_eq (columns r1) (columns r2)))).

Definition compare_results (user_query solution_query : string) : M bool :=
  do r1 <- execute_query user_query ;
  do r2 <- execute_query solution_query ;
  of_py (results_equal r1 r2).

(** ** Similarity scorer *)

Definition calculate_query_similarity (query1 query2 : string) : M float :=
  let q1 := strip (lower query1) in
  let q2 := strip (lower query2) in
  do embeddings <- lift (embedder_encode [q1; q2]) ;
  do e0 <- of_py (index embeddings 0) ;
  do e1 <- of_py (index embeddings 1) ;
  let similarity :=
    f32_div (np_dot e0 e1) (f32_mul (np_linalg_norm e0) (np_linalg_norm e1)) in
  ret (float_of_float32 similarity).

(** ** Hint policy *)

Definition model : string := "claude-sonnet-4-5-20250929".

Definition near_miss_hint : string :=
  "You're very close! Check your column names or table joins.".
Definition on_track_hint : string :=
  "You're on the right track. Review the required columns and conditions.".
Definition partial_hint : string :=
  "You have some correct elements. Check the SQL clauses you're using.".
Definition off_track_hint (query_data : exercise) : string :=
  "Try a different approach. Remember the concepts: "
  ++ join ", " (concepts query_data).

(** The branch of [get_progressive_hint] taken without a client. *)
Definition basic_hint (query_data : exercise) (similarity_score : float) : string :=
  if float_lt f0_8 similarity_score then near_miss_hint
  else if float_lt f0_6 similarity_score then on_track_hint
  else if float_lt f0_4 similarity_score then partial_hint
  else off_track_hint query_data.

Definition hint_prompt (query_data : exercise) (user_query : string)
    (similarity_score : float) (attempt : nat) : string :=
  "You are an SQL tutor helping a student who is struggling with a problem.

Question: " ++ question query_data ++ "
Required concepts: " ++ join ", " (concepts query_data) ++ "
Expected solution: " ++ solution query_data ++ "
Student's query: " ++ user_query ++ "
Similarity score: " ++ format_fixed 2 similarity_score
  ++ " (0=completely different, 1=identical)
Attempt number: " ++ pretty attempt ++ "

Based on the similarity score:
- If > 0.8: The student is VERY CLOSE. Point out the specific small difference (column name, condition, etc.)
- If 0.6-0.8: The student has the right structure. Guide them on what's missing or incorrect.
- If 0.4-0.6: The student has some correct elements. Give a hint about which SQL clause needs work.
- If < 0.4: The student needs more guidance. Suggest which SQL concepts to focus on without giving the answer.

Provide a concise, encouraging hint (2-3 sentences max) that helps them get closer without revealing the full solution.".

(** [self.client.messages.create(...)] followed by
    [message.content[0].text]. *)
Definition ask (max_tokens : N) (prompt : string) : M string :=
  do content <- lift (messages_create model max_tokens prompt) ;
  of_py (index content 0).

Definition get_progressive_hint (query_data : exercise) (user_query : string)
    (similarity_score : float) (attempt : nat) : M string :=
  do configured <- get client ;
  if negb configured then ret (basic_hint query_data similarity_score)
  else
    let prompt := hint_prompt query_data user_query similarity_score attempt in
    try_except (ask 300 prompt)
      (fun e => ret ("Error generating hint: " ++ exn_str e)).

Definition feedback_prompt (query_data : exercise) (user_query : string)
    (is_correct : bool) : string :=
  "You are an SQL tutor. A student attempted this problem:

Question: " ++ question query_data ++ "
Expected solution: " ++ solution query_data ++ "
Student's query: " ++ user_query ++ "
Result: " ++ (if is_correct then "Correct" else "Incorrect") ++ "

Provide encouraging, educational feedback:
1. If correct: Praise the solution and explain what concepts they used well
2. If incorrect: Gently explain what went wrong and provide hints without giving away the full answer
3. Suggest optimizations or alternative approaches if relevant
4. Keep it concise (2-3 paragraphs max)

Focus on teaching, not just correcting.".

Definition get_ai_feedback (query_data : exercise) (user_query : string)
    (is_correct : bool) : M string :=
  do configured <- get client ;
  if negb configured
  then ret "AI feedback is not available. Please set ANTHROPIC_API_KEY environment variable."
  else
    try_except (ask 500 (feedback_prompt query_data user_query is_correct))
      (fun e => ret ("Error getting AI feedback: " ++ exn_str e)).

(** ** Display *)

Fixpoint print_rows (rows : list row) : M unit :=
  match rows with
  | [] => ret tt
  | r :: rows' => do _ <- print (EvRow r) ; print_rows rows'
  end.

Definition display_results (results : option (list row))
    (columns : option (list string)) : M unit :=
  match results with
  | None | Some [] => print EvNoRows
  | Some rows =>
      match columns with
      | None => raise (TypeError "'NoneType' object is not iterable")
      | Some cols =>
          do _ <- print (EvHeader cols) ;
          do _ <- print_rows (take 10 rows) ;
          if (10 <? length rows)%nat then print (EvMoreRows (length rows - 10))
          else ret tt
      end
  end.

(** ** The attempt loop of [practice_session] *)

Definition max_attempts : nat := 3.

Inductive control := Continue | Break.

(** [self.completed_exercises[level].add(exercise_id)], line 348 *)
Definition mark_completed (level exercise_id : string) : M unit :=
  fun s =>
    match completed_exercises s !! level with
    | None => (Raise (KeyError level), s)
    | Some done =>
        (Return tt,
         Machine (world s) (client s) (queries s)
                 (<[level := {[exercise_id]} ∪ done]> (completed_exercises s))
                 (stdout s))
    end.

(** [if 'hint' in query_data and query_data['hint']: print(...)] *)
Definition print_hint (query_data : exercise) : M unit :=
  match hint query_data with
  | Some h => if String.eqb h "" then ret tt else print (EvHint h)
  | None => ret tt
  end.

(** The branch of an attempt whose query does not execute, lines 303-337. *)
Definition failed_attempt (query_data : exercise) (user_query : string)
    (error : option string) : M control :=
  do _ <- print (EvSyntaxError (default "None" error)) ;
  do _ <- try_except
            (do similarity <- calculate_query_similarity user_query
                                (solution query_data) ;
             print (EvSimilarity similarity))
            (fun _ => ret tt) ;
  do _ <- print_hint query_data ;
  do _ <- print EvMenu ;
  do choice <- lift input ;
  if String.eqb choice "2" then
    do _ <- print (EvSolution (solution query_data)) ;
    ret Break
  else if String.eqb choice "3" then
    do feedback <- get_ai_feedback query_data user_query false ;
    do _ <- print (EvTutor feedback) ;
    do retry <- lift input ;
    if String.eqb (lower retry) "y" then ret Continue else ret Break
  else ret Continue.

(** The branch of a correct attempt, lines 342-357. *)
Definition correct_attempt (level : string) (query_data : exercise)
    (attempt : nat) (r : execution) : M control :=
  do _ <- print EvCorrect ;
  do _ <- (if (1 <? attempt)%nat then print (EvSolvedIn attempt) else ret tt) ;
  do _ <- mark_completed level (ex_id query_data) ;
  do exercises <- (do q <- get queries ; of_py (getitem q level)) ;
  do done <- (do c <- get completed_exercises ; of_py (getitem c level)) ;
  do _ <- print (EvProgress (size done) (length exercises)) ;
  do _ <- print EvYourResults ;
  do _ <- display_results (results r) (columns r) ;
  ret Break.

(** The branch of an attempt that runs and differs, lines 358-423. *)
Definition incorrect_attempt (query_data : exercise) (user_query : string)
    (attempt : nat) (r : execution) : M control :=
  do similarity <- calculate_query_similarity user_query (solution query_data) ;
  do _ <- print EvNotQuite ;
  do _ <- print (EvSimilarity similarity) ;
  do _ <- print EvYourResults ;
  do _ <- display_results (results r) (columns r) ;
  do _ <- print EvExpected ;
  do sol <- execute_query (solution query_data) ;
  do _ <- display_results (results sol) (columns sol) ;
  do _ <- print_hint query_data ;
  if (attempt <? max_attempts)%nat then
    do _ <- print (EvGenerating attempt max_attempts) ;
    do ai_hint <- get_progressive_hint query_data user_query similarity attempt ;
    do _ <- print (EvAIHint ai_hint) ;
    do _ <- print EvMenu ;
    do choice <- lift input ;
    if String.eqb choice "2" then
      do _ <- print (EvSolution (solution query_data)) ;
      do _ <- print EvUnderstanding ;
      do feedback <- get_ai_feedback query_data user_query false ;
      do _ <- print (EvTutor feedback) ;
      ret Break
    else if String.eqb choice "3" then
      do _ <- print EvDetailed ;
      do feedback <- get_ai_feedback query_data user_query false ;
      do _ <- print (EvTutor feedback) ;
      do retry <- lift input ;
      if String.eqb (lower retry) "y" then ret Continue else ret Break
    else ret Continue
  else
    do _ <- print (EvExhausted max_attempts) ;
    do _ <- print_hint query_data ;
    do _ <- print (EvSolution (solution query_data)) ;
    do _ <- print EvComprehensive ;
    do feedback <- get_ai_feedback query_data user_query false ;
    do _ <- print (EvTutor feedback) ;
    ret Break.

(** The body of the loop, lines 297-423, entered with [attempt] already
    incremented. *)
Definition attempt_body (level : string) (query_data : exercise)
    (attempt : nat) : M control :=
  do _ <- print (EvPrompt attempt) ;
  do line <- lift input ;
  let user_query := strip line in
  do r <- execute_query user_query ;
  if negb (success r) then failed_attempt query_data user_query (error_message r)
  else
    do is_correct <- compare_results user_query (solution query_data) ;
    if is_correct then correct_attempt level query_data attempt r
    else incorrect_attempt query_data user_query attempt r.

(** [while attempt < max_attempts: attempt += 1; ...], lines 293-423.
    The result is the value of [attempt] when the loop is left, or [None]
    when [fuel] iterations were not enough to leave it. *)
Fixpoint attempt_loop (fuel : nat) (level : string) (query_data : exercise)
    (attempt : nat) : M (option nat) :=
  match fuel with
  | 0 => ret None
  | S fuel' =>
      if (attempt <? max_attempts)%nat then
        let attempt := S attempt in
        do c <- attempt_body level query_data attempt ;
        match c with
        | Continue => attempt_loop fuel' level query_data attempt
        | Break => ret (Some attempt)
        end
      else ret (Some attempt)
  end.

(** The loop as [practice_session] enters it, with [attempt = 0]; three
    iterations and the last test of the guard fit in the fuel. *)
Definition practice_attempts (level : string) (query_data : exercise)
    : M (option nat) :=
  attempt_loop (S max_attempts) level query_data 0.

(** Whether the attempt read in state [s] is judged correct: the line
    typed executes and [compare_results] returns [True] on it. *)
Definition judged_correct (query_data : exercise) (attempt : nat)
    (s : machine World) : bool :=
  match lift input (print (EvPrompt attempt) s).2 with
  | (Return line, s1) =>
      match execute_query (strip line) s1 with
      | (Return r, s2) =>
          success r &&
          match compare_results (strip line) (solution query_data) s2 with
          | (Return true, _) => true
          | _ => false
          end
      | _ => false
      end
  | _ => false
  end.

(** Whether the attempt read in state [s] is incorrect but executable:
    the line typed executes and [compare_results] returns [False] on
    it. *)
Definition incorrect_but_executable (query_data : exercise) (attempt : nat)
    (s : machine World) : bool :=
  match lift input (print (EvPrompt attempt) s).2 with
  | (Return line, s1) =>
      match execute_query (strip line) s1 with
      | (Return r, s2) =>
          success r &&
          match compare_results (strip line) (solution query_data) s2 with
          | (Return false, _) => true
          | _ => false
          end
      | _ => false
      end
  | _ => false
  end.

(** Whether the similarity of that attempt is scored: the call of the
    scorer at line 360, which is under no [try], returns. *)
Definition scored (query_data : exercise) (attempt : nat)
    (s : machine World) : bool :=
  match lift input (print (EvPrompt attempt) s).2 with
  | (Return line, s1) =>
      match execute_query (strip line) s1 with
      | (Return r, s2) =>
          match compare_results (strip line) (solution query_data) s2 with
          | (_, s3) =>
              is_return
                (calculate_query_similarity (strip line)
                   (solution query_data) s3).1
          end
      | _ => false
      end
  | _ => false
  end.

End Tutor.

(** ** A scripted world

    A world in which the engine runs on concrete sessions: a table of
    what the database answers to each query, the lines typed at the
    terminal, the embedding of each text and the advisor's answer. *)
Module Script.

Record script := Script {
  answers : string -> py (list row * option (list string));
  fetched : list row * option (list string);
  keyboard : list string;
  embedding : string -> vector;
  advisor : py (list string)
}.

Definition run (query : string) (w : script) : py unit * script :=
  match answers w query with
  | Return a =>
      (Return tt, Script (answers w) a (keyboard w) (embedding w) (advisor w))
  | Raise e => (Raise e, w)
  end.

Definition readline (w : script) : py string * script :=
  match keyboard w with
  | [] => (Raise (Exn "EOFError" "EOF when reading a line"), w)
  | line :: rest =>
      (Return line,
       Script (answers w) (fetched w) rest (embedding w) (advisor w))
  end.

(** Sum of products from left to right, and its square root, in binary32. *)
Fixpoint dot_from (sum : float32) (u v : vector) : float32 :=
  match u, v with
  | x :: u', y :: v' => dot_from (SFadd 24 128 sum (SFmul 24 128 x y)) u' v'
  | _, _ => sum
  end.

Definition dot (u v : vector) : float32 := dot_from (S754_zero false) u v.

Definition norm (u : vector) : float32 := SFsqrt 24 128 (dot u u).

#[global] Instance script_env : Env script := {
  cursor_execute := run;
  cursor_fetchall := fun w => (Return (fetched w).1, w);
  cursor_description := fun w => (fetched w).2;
  embedder_encode := fun texts w => (Return (map (embedding w) texts), w);
  np_dot := dot;
  np_linalg_norm := norm;
  messages_create := fun _ _ _ w => (advisor w, w);
  input := readline;
  format_fixed := fun _ _ => "0.00"
}.

Definition sqlite_error (msg : string) : exn := Exn "OperationalError" msg.

(** A database with a three-row table [users]. *)
Definition users (query : string) : py (list row * option (list string)) :=
  if String.eqb query "SELECT id FROM users;" then
    Return ([[VInt 1]; [VInt 2]; [VInt 3]], Some ["id"])
  else if String.eqb query "SELECT id FROM users ORDER BY id DESC;" then
    Return ([[VInt 3]; [VInt 2]; [VInt 1]], Some ["id"])
  else if String.eqb query "SELECT id FROM users WHERE id > 1;" then
    Return ([[VInt 2]; [VInt 3]], Some ["id"])
  else if String.eqb query "SELECT 1 AS n;" then
    Return ([[VInt 1]], Some ["n"])
  else if String.eqb query "SELECT 1.0 AS n;" then
    Return ([[VReal (RFin false 1 0)]], Some ["n"])
  else if String.eqb query "SELECT NULL AS n UNION ALL SELECT 1;" then
    Return ([[VNone]; [VInt 1]], Some ["n"])
  else if String.eqb query "SELECT 1 AS n UNION ALL SELECT NULL;" then
    Return ([[VInt 1]; [VNone]], Some ["n"])
  else Raise (sqlite_error "near SELCT: syntax error").

Definition unit_x : vector := [S754_finite false 8388608 (-23); S754_zero false].
Definition zero_vector : vector := [S754_zero false; S754_zero false].

Definition world0 (typed : list string) : script :=
  Script users ([], None) typed (fun _ => unit_x) (Return ["Look at the WHERE clause."]).

(** The same world with an advisor that cannot be reached. *)
Definition offline (typed : list string) : script :=
  Script users ([], None) typed (fun _ => unit_x)
         (Raise (Exn "APIConnectionError" "Connection error.")).

(** The same world with an embedder that maps every text to the zero
    vector. *)
Definition degenerate (typed : list string) : script :=
  Script users ([], None) typed (fun _ => zero_vector)
         (Return ["Look at the WHERE clause."]).

Definition beginner : exercise :=
  Exercise "b1" "List the ids of all users." "SELECT id FROM users;"
           ["SELECT"; "FROM"] None.

Definition tutor0 (configured : bool) (w : script) : machine script :=
  Machine w configured
          {[ "beginner" := [beginner] ]}
          {[ "beginner" := ∅; "intermediate" := ∅; "advanced" := ∅ ]}
          [].

End Script.

(** * The choice of the exercise *)

(** [get_query_by_level] and [generate_new_exercise] read and write two
    things the engine does not: the counter of generated exercises and
    lines of their own on the terminal.  They call none of the methods
    that print an [event], so their lines are kept in a list of their
    own, one notice per message. *)
Inductive notice :=
| Congratulations (total_exercises : nat) (level : string)
| GeneratingChallenge
| CannotGenerate
| NewExercise (question : string)
| GenerationError (error : string).

(** What [json.loads] returns, as far as the generator looks at it: a
    list, a value of another type that is not a [dict], a [dict] without
    the key [question], or a [dict] with the keys of an exercise.  A
    [dict] that has a [question] and lacks [solution] or [concepts], which
    the generator would hand over as it is, is outside the model, as an
    entry of [queries.json] without them is. *)
Inductive decoded :=
| Array
| Scalar (class_name : string)
| Incomplete
| Object (question solution : string) (concepts : list string)
         (hint : option string).

(** What the choice asks of Python's library: [random._randbelow] with
    its range, [json.loads], and the [repr] of the list of the keys of
    [self.queries]. *)
Class Library (World : Type) := {
  randbelow : nat -> World -> nat * World;
  randbelow_lt : forall n w, (0 < n)%nat -> ((randbelow n w).1 < n)%nat;
  json_loads : string -> py decoded;
  repr_keys : gmap string (list exercise) -> string
}.

(** A tutor with the fields the engine leaves alone. *)
Record selector (World : Type) := Selector {
  tutor : machine World;
  generated_exercise_counter : nat;
  notices : list notice
}.
Arguments Selector {World}.
Arguments tutor {World}.
Arguments generated_exercise_counter {World}.
Arguments notices {World}.

Definition ValueError (msg : string) : exn := Exn "ValueError" msg.
Definition AttributeError (msg : string) : exn := Exn "AttributeError" msg.

Definition quote : string := String "034"%char EmptyString.
Definition quoted (s : string) : string := quote ++ s ++ quote.
Definition newline : string := String "010"%char EmptyString.

(** [s[0]] on a string *)
Definition first_char (s : string) : py ascii :=
  match s with
  | String c _ => Return c
  | EmptyString => Raise (IndexError "string index out of range")
  end.

(** [row[0]] on a tuple *)
Definition tuple_index (r : row) (i : nat) : py value :=
  match r !! i with
  | Some v => Return v
  | None => Raise (IndexError "tuple index out of range")
  end.

(** [[row[0] for row in rows if not row[0].startswith('sqlite_')]]: a
    value that is no text has no [startswith] that takes a [str]. *)
Fixpoint table_names (rows : list row) : py (list string) :=
  match rows with
  | [] => Return []
  | r :: rows' =>
      py_bind (tuple_index r 0) (fun name =>
        match name with
        | VText s =>
            py_bind (table_names rows') (fun names =>
              Return (if String.prefix "sqlite_" s then names else s :: names))
        | VBlob _ =>
            Raise (TypeError
              "startswith first arg must be bytes or a tuple of bytes, not str")
        | _ =>
            Raise (AttributeError ("'" ++ type_name name
                                   ++ "' object has no attribute 'startswith'"))
        end)
  end.

(** [re.search(r'\{.*\}', s, re.DOTALL)]: the leftmost match starts at
    the first opening brace and, the star being greedy, ends at the last
    closing brace after it. *)
Fixpoint from_brace (s : string) : option string :=
  match s with
  | EmptyString => None
  | String c s' => if Ascii.eqb c "{" then Some s else from_brace s'
  end.

Fixpoint upto_brace (s : string) : option string :=
  match s with
  | EmptyString => None
  | String c s' =>
      match upto_brace s' with
      | Some p => Some (String c p)
      | None => if Ascii.eqb c "}" then Some (String c EmptyString) else None
      end
  end.

Definition json_match (s : string) : option string :=
  match from_brace s with
  | Some t => upto_brace t
  | None => None
  end.

Definition tables_query : string :=
  "SELECT name FROM sqlite_master WHERE type='table' ORDER BY name;".

Definition example_text (ex : exercise) : string :=
  "- Question: " ++ question ex ++ "
  Solution: " ++ solution ex ++ "
  Concepts: " ++ join ", " (concepts ex).

Definition generation_prompt (level : string) (tables : list string)
    (examples_text : string) : string :=
  "You are creating a new SQL practice exercise for a student at the "
  ++ level ++ " level.

Database tables available: " ++ join ", " tables ++ "

Here are examples of " ++ level ++ " level exercises:
" ++ examples_text ++ "

Create a NEW, UNIQUE SQL exercise at the " ++ level ++ " level that:
1. Uses the available tables in our e-commerce database
2. Is similar in difficulty to the examples
3. Tests different aspects than the examples (avoid exact duplicates)
4. Has a clear, specific question
5. Includes the correct SQL solution
6. Lists 2-4 SQL concepts it covers

Return your response in this EXACT JSON format:
{
  " ++ quoted "question" ++ ": " ++ quoted "The question text here" ++ ",
  " ++ quoted "solution" ++ ": " ++ quoted "SELECT ... FROM ... WHERE ..." ++ ",
  " ++ quoted "concepts" ++ ": [" ++ quoted "concept1" ++ ", "
  ++ quoted "concept2" ++ ", " ++ quoted "concept3" ++ "],
  " ++ quoted "hint" ++ ": " ++ quoted "Optional hint for the student" ++ "
}

Only return the JSON object, nothing else.".

(** [exercise_data['id'] = new_id] on what was decoded: item assignment
    is defined on a [dict] only. *)
Definition set_id (exercise_data : decoded) (new_id : string)
    : py (option exercise) :=
  match exercise_data with
  | Array => Raise (TypeError "list indices must be integers or slices, not str")
  | Scalar t =>
      Raise (TypeError ("'" ++ t ++ "' object does not support item assignment"))
  | Incomplete => Return None
  | Object q s c h => Return (Some (Exercise new_id q s c h))
  end.

(** [exercise_data['question']] after the assignment of the id *)
Definition with_question (exercise_data : option exercise) : py exercise :=
  match exercise_data with
  | Some e => Return e
  | None => Raise (KeyError "question")
  end.

Section Shelf.
Context {World : Type} `{Env World} `{Library World}.

Notation "'do' x <- m ; k" := (bind m (fun x => k))
  (at level 10, x name, m at level 100, k at level 200).

(** [self.queries[level]] *)
Definition exercises_of (level : string) : @M World (list exercise) :=
  do q <- get queries ; of_py (getitem q level).

(** [self.completed_exercises[level]] *)
Definition completed_of (level : string) : @M World (gset string) :=
  do c <- get completed_exercises ; of_py (getitem c level).

(** [self.queries[level].append(new_exercise)] *)
Definition append_exercise (level : string) (new_exercise : exercise)
    : @M World unit :=
  fun s =>
    match queries s !! level with
    | None => (Raise (KeyError level), s)
    | Some entries =>
        (Return tt,
         Machine (world s) (client s)
                 (<[level := (entries ++ [new_exercise])%list]> (queries s))
                 (completed_exercises s) (stdout s))
    end.

(** [random.choice(seq)] *)
Definition choice {A} (seq : list A) : @M World A :=
  match seq with
  | [] => raise (IndexError "Cannot choose from an empty sequence")
  | _ =>
      do i <- lift (fun w => let (i, w') := randbelow (length seq) w in
                             (Return i, w')) ;
      of_py (index seq i)
  end.

(** Lines 88-89: the tables of the database that are not SQLite's own. *)
Definition list_tables : @M World (list string) :=
  do _ <- lift (cursor_execute tables_query) ;
  do rows <- lift cursor_fetchall ;
  of_py (table_names rows).

(** Lines 66-72: an exercise not yet completed if there is one, any
    exercise of the level otherwise.  The comprehension looks the
    completion set up once per exercise, so not at all on an empty
    level. *)
Definition pick (level : string) : @M World exercise :=
  do entries <- exercises_of level ;
  do uncompleted <-
    match entries with
    | [] => ret []
    | _ =>
        do completed <- completed_of level ;
        ret (filter (fun q => ex_id q ∉ completed) entries)
    end ;
  match uncompleted with
  | [] => do entries <- exercises_of level ; choice entries
  | _ => choice uncompleted
  end.

End Shelf.

Module Selection.
Section Selection.
Context {World : Type} `{Env World} `{Library World}.

Definition Sel (A : Type) : Type := selector World -> py A * selector World.

(** A method of the engine, run on the tutor. *)
Definition engine {A} (m : @M World A) : Sel A :=
  fun s => let (r, t) := m (tutor s) in
           (r, Selector t (generated_exercise_counter s) (notices s)).

Definition ret {A} (a : A) : Sel A := fun s => (Return a, s).
Definition raise {A} (e : exn) : Sel A := fun s => (Raise e, s).
Definition bind {A B} (m : Sel A) (k : A -> Sel B) : Sel B :=
  fun s => match m s with
           | (Return a, s') => k a s'
           | (Raise e, s') => (Raise e, s')
           end.

(** [try: m except Exception as e: h e] *)
Definition try_except {A} (m : Sel A) (h : exn -> Sel A) : Sel A :=
  fun s => match m s with
           | (Return a, s') => (Return a, s')
           | (Raise e, s') => h e s'
           end.

Notation "'do' x <- m ; k" := (bind m (fun x => k))
  (at level 10, x name, m at level 100, k at level 200).

Definition get {A} (f : selector World -> A) : Sel A :=
  fun s => (Return (f s), s).

Definition of_py {A} (r : py A) : Sel A := fun s => (r, s).

Definition print (n : notice) : Sel unit :=
  fun s => (Return tt,
            Selector (tutor s) (generated_exercise_counter s)
                     (notices s ++ [n])).

(** [self.generated_exercise_counter += 1] *)
Definition count : Sel unit :=
  fun s => (Return tt,
            Selector (tutor s) (Datatypes.S (generated_exercise_counter s))
                     (notices s)).

(** The body of the [try] of [generate_new_exercise], lines 117-138. *)
Definition generate (level prompt : string) : Sel (option exercise) :=
  do text <- engine (ask 500 prompt) ;
  let response_text := strip text in
  let response_text :=
    match json_match response_text with
    | Some json => json
    | None => response_text
    end in
  do exercise_data <- of_py (json_loads response_text) ;
  do _ <- count ;
  do initial <- of_py (first_char level) ;
  do counter <- get generated_exercise_counter ;
  do exercise_data <-
    of_py (set_id exercise_data (String initial ("gen" ++ pretty counter))) ;
  do new_exercise <- of_py (with_question exercise_data) ;
  do _ <- print (NewExercise (question new_exercise)) ;
  ret (Some new_exercise).

Definition generate_new_exercise (level : string) : Sel (option exercise) :=
  do configured <- get (fun s => client (tutor s)) ;
  if negb configured then
    do _ <- print CannotGenerate ;
    ret None
  else
    do entries <- engine (exercises_of level) ;
    let examples := take 3 entries in
    let examples_text := join newline (map example_text examples) in
    do tables <- engine list_tables ;
    let prompt := generation_prompt level tables examples_text in
    try_except (generate level prompt)
      (fun e => do _ <- print (GenerationError (exn_str e)) ; ret None).

Definition get_query_by_level (level : string) : Sel exercise :=
  do known <- get (fun s => queries (tutor s)) ;
  match known !! level with
  | None =>
      raise (ValueError ("Invalid level: " ++ level ++ ". Choose from: "
                         ++ repr_keys known))
  | Some entries =>
      let total_exercises := length entries in
      do completed <- engine (completed_of level) ;
      let completed_count := size completed in
      do configured <- get (fun s => client (tutor s)) ;
      if (total_exercises <=? completed_count)%nat && configured then
        do _ <- print (Congratulations total_exercises level) ;
        do _ <- print GeneratingChallenge ;
        do new_exercise <- generate_new_exercise level ;
        match new_exercise with
        | Some e =>
            do _ <- engine (append_exercise level e) ;
            ret e
        | None => engine (pick level)
        end
      else engine (pick level)
  end.

End Selection.
End Selection.

(** A scripted library: the draw is always the first item, and the
    decoder knows one answer. *)
Module Desk.

Definition answer : string :=
  "{" ++ quoted "question" ++ ": " ++ quoted "Count the orders." ++ ", "
  ++ quoted "solution" ++ ": " ++ quoted "SELECT COUNT(*) FROM orders;" ++ ", "
  ++ quoted "concepts" ++ ": [" ++ quoted "COUNT" ++ "]}".

Definition decode (text : string) : py decoded :=
  if String.eqb text answer then
    Return (Object "Count the orders." "SELECT COUNT(*) FROM orders;"
                   ["COUNT"] None)
  else if String.eqb text "{}" then Return Incomplete
  else if String.eqb text "[]" then Return Array
  else Raise (Exn "JSONDecodeError" "Expecting value: line 1 column 1 (char 0)").

Lemma first_lt (n : nat) (w : Script.script) :
  (0 < n)%nat -> (((0%nat, w).1) < n)%nat.
Proof. intros Hn. exact Hn. Qed.

#[global] Instance script_library : Library Script.script := {
  randbelow := fun _ w => (0%nat, w);
  randbelow_lt := first_lt;
  json_loads := decode;
  repr_keys := fun _ => "['beginner', 'intermediate', 'advanced']"
}.

(** A database that also lists its tables. *)
Definition shop (query : string) : py (list row * option (list string)) :=
  if String.eqb query tables_query then
    Return ([[VText "orders"]; [VText "sqlite_sequence"]; [VText "users"]],
            Some ["name"])
  else Script.users query.

(** An advisor that answers with the exercise, wrapped in a sentence. *)
Definition helpful (typed : list string) : Script.script :=
  Script.Script shop ([], None) typed (fun _ => Script.unit_x)
                (Return ["Here is the exercise: " ++ answer ++ " Good luck!"]).

(** The same database with an advisor that cannot be reached. *)
Definition unreachable (typed : list string) : Script.script :=
  Script.Script shop ([], None) typed (fun _ => Script.unit_x)
                (Raise (Exn "APIConnectionError" "Connection error.")).

(** A tutor with a client whose only beginner exercise is completed. *)
Definition tutor1 (w : Script.script) : machine Script.script :=
  Machine w true
          {[ "beginner" := [Script.beginner] ]}
          {[ "beginner" := {[ "b1" ]}; "intermediate" := ∅; "advanced" := ∅ ]}
          [].

Definition selector0 (t : machine Script.script) : selector Script.script :=
  Selector t 0 [].

End Desk.

(** A scripted world whose embedder is out of order: every call of
    [encode] raises.  The database, the advisor and the terminal are
    those of [Script]. *)
Module Outage.

Record booth := Booth { desk : Script.script }.

Definition on_desk {A} (f : Script.script -> py A * Script.script)
    (b : booth) : py A * booth :=
  let (r, w) := f (desk b) in (r, Booth w).

Definition out_of_memory : exn := Exn "RuntimeError" "CUDA out of memory".

#[global] Instance booth_env : Env booth | 100 := {
  cursor_execute := fun query => on_desk (Script.run query);
  cursor_fetchall := on_desk (fun w => (Return (Script.fetched w).1, w));
  cursor_description := fun b => (Script.fetched (desk b)).2;
  embedder_encode := fun _ b => (Raise out_of_memory, b);
  np_dot := Script.dot;
  np_linalg_norm := Script.norm;
  messages_create := fun _ _ _ => on_desk (fun w => (Script.advisor w, w));
  input := on_desk Script.readline;
  format_fixed := fun _ _ => "0.00"
}.

Definition tutor0 (typed : list string) : machine booth :=
  Machine (Booth (Script.world0 typed)) false
          {[ "beginner" := [Script.beginner] ]}
          {[ "beginner" := ∅; "intermediate" := ∅; "advanced" := ∅ ]}
          [].

End Outage.

(** * Exercises with missing keys *)

(** The engine receives an exercise as a [dict] and reads its keys where
    it needs them.  An entry of [queries.json] has [id], [question],
    [solution] and [concepts]; an exercise that [generate_new_exercise]
    hands over has [id] and [question] and whatever else the advisor
    wrote.  [entry] is such a dict, each key of an exercise with its
    value or missing, and the methods of [Dict] are the methods of the
    engine on it, with the [KeyError] of every read where the source has
    it.  On an entry that has the four keys they are the methods on
    [exercise]. *)
Record entry := Entry {
  id_item : option string;
  question_item : option string;
  solution_item : option string;
  concepts_item : option (list string);
  hint_item : option string
}.

(** [query_data[key]] *)
Definition item {A} (key : string) (value : option A) : py A :=
  match value with
  | Some a => Return a
  | None => Raise (KeyError key)
  end.

Definition of_exercise (e : exercise) : entry :=
  Entry (Some (ex_id e)) (Some (question e)) (Some (solution e))
        (Some (concepts e)) (hint e).

(** The values read from a dict, for the builders of the prompts, which
    read the question, the solution and the concepts only. *)
Definition read (question solution : string) (concepts : list string)
    : exercise :=
  Exercise EmptyString question solution concepts None.

Module Dict.
Section Dict.
Context {World : Type} `{Env World}.

Notation "'do' x <- m ; k" := (bind m (fun x => k))
  (at level 10, x name, m at level 100, k at level 200).

(** Lines 207-244.  Without a client only the last tier reads
    [concepts]; with one, the prompt is built before the [try] and reads
    [question], [concepts] and [solution] in that order. *)
Definition get_progressive_hint (query_data : entry) (user_query : string)
    (similarity_score : float) (attempt : nat) : @M World string :=
  do configured <- get client ;
  if negb configured then
    if float_lt f0_8 similarity_score then ret near_miss_hint
    else if float_lt f0_6 similarity_score then ret on_track_hint
    else if float_lt f0_4 similarity_score then ret partial_hint
    else
      do concepts <- of_py (item "concepts" (concepts_item query_data)) ;
      ret (off_track_hint (read EmptyString EmptyString concepts))
  else
    do question <- of_py (item "question" (question_item query_data)) ;
    do concepts <- of_py (item "concepts" (concepts_item query_data)) ;
    do solution <- of_py (item "solution" (solution_item query_data)) ;
    let prompt := hint_prompt (read question solution concepts) user_query
                    similarity_score attempt in
    try_except (ask 300 prompt)
      (fun e => ret ("Error generating hint: " ++ exn_str e)).

(** Lines 248-274: the prompt is built before the [try] and reads
    [question] and [solution]. *)
Definition get_ai_feedback (query_data : entry) (user_query : string)
    (is_correct : bool) : @M World string :=
  do configured <- get client ;
  if negb configured
  then ret "AI feedback is not available. Please set ANTHROPIC_API_KEY environment variable."
  else
    do question <- of_py (item "question" (question_item query_data)) ;
    do solution <- of_py (item "solution" (solution_item query_data)) ;
    try_except
      (ask 500 (feedback_prompt (read question solution []) user_query
                  is_correct))
      (fun e => ret ("Error getting AI feedback: " ++ exn_str e)).

(** [if 'hint' in query_data and query_data['hint']: print(...)] *)
Definition print_hint (query_data : entry) : @M World unit :=
  match hint_item query_data with
  | Some h => if String.eqb h EmptyString then ret tt else print (EvHint h)
  | None => ret tt
  end.

(** [print(f"... Solution: {query_data['solution']}")] *)
Definition print_solution (query_data : entry) : @M World unit :=
  do solution <- of_py (item "solution" (solution_item query_data)) ;
  print (EvSolution solution).

(** Lines 303-337.  The read of [solution] at line 308 is under the
    [try], the one at line 324 is not. *)
Definition failed_attempt (query_data : entry) (user_query : string)
    (error : option string) : @M World control :=
  do _ <- print (EvSyntaxError (default "None" error)) ;
  do _ <- try_except
            (do solution <- of_py (item "solution" (solution_item query_data)) ;
             do similarity <- calculate_query_similarity user_query solution ;
             print (EvSimilarity similarity))
            (fun _ => ret tt) ;
  do _ <- print_hint query_data ;
  do _ <- print EvMenu ;
  do choice <- lift input ;
  if String.eqb choice "2" then
    do _ <- print_solution query_data ;
    ret Break
  else if String.eqb choice "3" then
    do feedback <- get_ai_feedback query_data user_query false ;
    do _ <- print (EvTutor feedback) ;
    do retry <- lift input ;
    if String.eqb (lower retry) "y" then ret Continue else ret Break
  else ret Continue.

(** [self.completed_exercises[level].add(query_data['id'])]: the set is
    looked up before the argument is evaluated. *)
Definition mark_completed (level : string) (query_data : entry)
    : @M World unit :=
  fun s =>
    match completed_exercises s !! level with
    | None => (Raise (KeyError level), s)
    | Some marked =>
        match id_item query_data with
        | None => (Raise (KeyError "id"), s)
        | Some exercise_id =>
            (Return tt,
             Machine (world s) (client s) (queries s)
                     (<[level := {[exercise_id]} ∪ marked]>
                        (completed_exercises s))
                     (stdout s))
        end
    end.

(** Lines 342-357. *)
Definition correct_attempt (level : string) (query_data : entry)
    (attempt : nat) (r : execution) : @M World control :=
  do _ <- print EvCorrect ;
  do _ <- (if (1 <? attempt)%nat then print (EvSolvedIn attempt) else ret tt) ;
  do _ <- mark_completed level query_data ;
  do exercises <- (do q <- get queries ; of_py (getitem q level)) ;
  do marked <- (do c <- get completed_exercises ; of_py (getitem c level)) ;
  do _ <- print (EvProgress (size marked) (length exercises)) ;
  do _ <- print EvYourResults ;
  do _ <- display_results (results r) (columns r) ;
  ret Break.

(** Lines 358-423. *)
Definition incorrect_attempt (query_data : entry) (user_query : string)
    (attempt : nat) (r : execution) : @M World control :=
  do solution <- of_py (item "solution" (solution_item query_data)) ;
  do similarity <- calculate_query_similarity user_query solution ;
  do _ <- print EvNotQuite ;
  do _ <- print (EvSimilarity similarity) ;
  do _ <- print EvYourResults ;
  do _ <- display_results (results r) (columns r) ;
  do _ <- print EvExpected ;
  do solution <- of_py (item "solution" (solution_item query_data)) ;
  do sol <- execute_query solution ;
  do _ <- display_results (results sol) (columns sol) ;
  do _ <- print_hint query_data ;
  if (attempt <? max_attempts)%nat then
    do _ <- print (EvGenerating attempt max_attempts) ;
    do ai_hint <- get_progressive_hint query_data user_query similarity attempt ;
    do _ <- print (EvAIHint ai_hint) ;
    do _ <- print EvMenu ;
    do choice <- lift input ;
    if String.eqb choice "2" then
      do _ <- print_solution query_data ;
      do _ <- print EvUnderstanding ;
      do feedback <- get_ai_feedback query_data user_query false ;
      do _ <- print (EvTutor feedback) ;
      ret Break
    else if String.eqb choice "3" then
      do _ <- print EvDetailed ;
      do feedback <- get_ai_feedback query_data user_query false ;
      do _ <- print (EvTutor feedback) ;
      do retry <- lift input ;
      if String.eqb (lower retry) "y" then ret Continue else ret Break
    else ret Continue
  else
    do _ <- print (EvExhausted max_attempts) ;
    do _ <- print_hint query_data ;
    do _ <- print_solution query_data ;
    do _ <- print EvComprehensive ;
    do feedback <- get_ai_feedback query_data user_query false ;
    do _ <- print (EvTutor feedback) ;
    ret Break.

(** The body of the loop, lines 297-423. *)
Definition attempt_body (level : string) (query_data : entry)
    (attempt : nat) : @M World control :=
  do _ <- print (EvPrompt attempt) ;
  do line <- lift input ;
  let user_query := strip line in
  do r <- execute_query user_query ;
  if negb (success r) then failed_attempt query_data user_query (error_message r)
  else
    do solution <- of_py (item "solution" (solution_item query_data)) ;
    do is_correct <- compare_results user_query solution ;
    if is_correct then correct_attempt level query_data attempt r
    else incorrect_attempt query_data user_query attempt r.

End Dict.
End Dict.

(** * Properties *)

Local Open Scope list_scope.

(** ** The executor returns failures as values *)

Section Executor.
Context {World : Type} `{Env World}.

(** What [execute_query] returns, read off the three cursor calls. *)
Definition executed (query : string) (s : machine World)
    : execution * machine World :=
  let with_world w :=
    Machine w (client s) (queries s) (completed_exercises s) (stdout s) in
  match cursor_execute query (world s) with
  | (Raise e, w1) => ((false, None, None, Some (exn_str e)), with_world w1)
  | (Return _, w1) =>
      match cursor_fetchall w1 with
      | (Raise e, w2) => ((false, None, None, Some (exn_str e)), with_world w2)
      | (Return rows, w2) =>
          ((true, Some rows, Some (default [] (cursor_description w2)), None),
           with_world w2)
      end
  end.

Lemma execute_query_executed (query : string) (s : machine World) :
  execute_query query s = (Return (executed query s).1, (executed query s).2).
Proof.
  unfold execute_query, executed, try_except, bind, lift, get, ret.
  destruct s as [w c q d o]; simpl.
  destruct (cursor_execute query w) as [[[]|e] w1]; simpl; [|done].
  destruct (cursor_fetchall w1) as [[rows|e] w2]; simpl; [|done].
  by destruct (cursor_description w2).
Qed.

Lemma executed_frame (query : string) (s : machine World) :
  client (executed query s).2 = client s
  /\ queries (executed query s).2 = queries s
  /\ completed_exercises (executed query s).2 = completed_exercises s
  /\ stdout (executed query s).2 = stdout s.
Proof.
  unfold executed.
  destruct (cursor_execute query (world s)) as [[[]|e] w1]; simpl; [|done].
  by destruct (cursor_fetchall w1) as [[rows|e] w2].
Qed.

(** The shape of an execution: rows and columns and no error, or an
    error message and nothing else. *)
Definition well_formed (r : execution) : Prop :=
  (exists rows cols, r = (true, Some rows, Some cols, None))
  \/ (exists msg, r = (false, None, None, Some msg)).

Lemma executed_well_formed (query : string) (s : machine World) :
  well_formed (executed query s).1.
Proof.
  unfold executed, well_formed.
  destruct (cursor_execute query (world s)) as [[[]|e] w1]; simpl; [|eauto].
  destruct (cursor_fetchall w1) as [[rows|e] w2]; simpl; eauto.
Qed.

(** C8. [execute_query] never raises: on every query and in every state
    it returns a 4-tuple, which is [(True, rows, columns, None)] when the
    cursor ran the query and fetched its rows, and
    [(False, None, None, message)] with the text of the exception
    otherwise. *)
Theorem execute_query_never_raises (query : string) (s : machine World) :
  exists r s', execute_query query s = (Return r, s') /\ well_formed r
    /\ (success r = true <->
        exists w1 rows w2, cursor_execute query (world s) = (Return tt, w1)
                           /\ cursor_fetchall w1 = (Return rows, w2)
                           /\ results r = Some rows
                           /\ columns r = Some (default [] (cursor_description w2))
                           /\ error_message r = None)
    /\ (success r = false <->
        exists e, ((cursor_execute query (world s)).1 = Raise e
                   \/ exists w1, cursor_execute query (world s) = (Return tt, w1)
                                 /\ (cursor_fetchall w1).1 = Raise e)
                  /\ r = (false, None, None, Some (exn_str e))).
Proof.
  exists (executed query s).1, (executed query s).2.
  split; [apply execute_query_executed|].
  unfold executed, well_formed.
  destruct (cursor_execute query (world s)) as [[[]|e] w1] eqn:E1; simpl.
  - destruct (cursor_fetchall w1) as [[rows|e] w2] eqn:E2; simpl.
    + split; [left; eauto|]. split; split; try done.
      * intros _. exists w1, rows, w2. by rewrite E2.
      * intros (e & _ & [=]).
    + split; [right; eauto|]. split; split; try done.
      * intros (w1' & rows & w2' & [= <-] & E & _). by rewrite E2 in E.
      * intros _. exists e. split; [|done]. right. exists w1. by rewrite E2.
  - split; [right; eauto|]. split; split; try done.
    + intros (w1' & rows & w2' & [=] & _).
    + intros _. exists e. by split; [left|].
Qed.

(** ** The comparator on failed executions *)

Lemma compare_results_unfold (user_query solution_query : string)
    (s : machine World) :
  compare_results user_query solution_query s =
    let (r1, s1) := executed user_query s in
    let (r2, s2) := executed solution_query s1 in
    (results_equal r1 r2, s2).
Proof.
  unfold compare_results, bind, of_py.
  rewrite execute_query_executed.
  destruct (executed user_query s) as [r1 s1]; simpl.
  rewrite execute_query_executed.
  by destruct (executed solution_query s1) as [r2 s2].
Qed.

(** C5. If either execution fails, [compare_results] returns [False],
    whatever the other execution produced. *)
Theorem compare_results_false_on_failure (user_query solution_query : string)
    (s s1 s2 : machine World) (r1 r2 : execution) :
  execute_query user_query s = (Return r1, s1) ->
  execute_query solution_query s1 = (Return r2, s2) ->
  success r1 = false \/ success r2 = false ->
  compare_results user_query solution_query s = (Return false, s2).
Proof.
  intros E1 E2 Hfail.
  unfold compare_results, bind, of_py. rewrite E1, E2.
  unfold results_equal.
  by destruct Hfail as [-> | ->]; simpl; rewrite ?orb_true_r.
Qed.

End Executor.

(** C5 on the scripted database: a mistyped query against the reference
    solution, and the mistyped query against itself. *)
Lemma compare_results_false_on_failure_witness :
  compare_results "SELCT id FROM users;" "SELECT id FROM users;"
    (Script.tutor0 false (Script.world0 [])) =
  (Return false,
   (executed "SELECT id FROM users;" (Script.tutor0 false (Script.world0 []))).2)
  /\ (compare_results "SELCT id FROM users;" "SELCT id FROM users;"
        (Script.tutor0 false (Script.world0 []))).1 = Return false.
Proof.
  split.
  - eapply (compare_results_false_on_failure "SELCT id FROM users;"
             "SELECT id FROM users;" _ _ _
             (false, None, None, Some "near SELCT: syntax error")
             (true, Some [[VInt 1]; [VInt 2]; [VInt 3]], Some ["id"], None)).
    + reflexivity.
    + reflexivity.
    + by left.
  - reflexivity.
Defined.

(** ** What a method leaves alone *)

Section Frames.
Context {World : Type} `{Env World}.

Definition set_world (s : machine World) (w : World) : machine World :=
  Machine w (client s) (queries s) (completed_exercises s) (stdout s).

Definition emit (s : machine World) (new : list event) : machine World :=
  Machine (world s) (client s) (queries s) (completed_exercises s)
          (stdout s ++ new).

(** A frame: a relation between the machine before and after a method
    that holds across every change of the outside world and across the
    printing of the events in [P]. *)
Class Frame (R : relation (machine World)) (P : event -> Prop) := {
  frame_refl : forall s, R s s;
  frame_trans : forall s1 s2 s3, R s1 s2 -> R s2 s3 -> R s1 s3;
  frame_world : forall s w, R s (set_world s w);
  frame_print : forall s e, P e -> R s (emit s [e])
}.

Definition respects {A} (R : relation (machine World)) (m : @M World A) : Prop :=
  forall s, R s (m s).2.

(** The completion sets stay as they are, whatever is printed. *)
Definition same_completed : relation (machine World) :=
  fun s s' => completed_exercises s' = completed_exercises s.

(** Nothing is printed. *)
Definition same_stdout : relation (machine World) :=
  fun s s' => stdout s' = stdout s.

(** What is printed is appended, and consists of events in [P]. *)
Definition appended (P : event -> Prop) : relation (machine World) :=
  fun s s' => exists new, stdout s' = (stdout s ++ new)%list /\ Forall P new.

#[global] Instance same_completed_frame : Frame same_completed (fun _ => True).
Proof. split; unfold same_completed; simpl; congruence. Qed.

#[global] Instance same_stdout_frame : Frame same_stdout (fun _ => False).
Proof. split; unfold same_stdout; simpl; try congruence. tauto. Qed.

#[global] Instance appended_frame (P : event -> Prop) : Frame (appended P) P.
Proof.
  split; unfold appended; simpl.
  - intros s. exists []. by rewrite app_nil_r.
  - intros s1 s2 s3 (n1 & E1 & F1) (n2 & E2 & F2). exists (n1 ++ n2).
    rewrite E2, E1, app_assoc. split; [done|]. by apply Forall_app.
  - intros s w. exists []. by rewrite app_nil_r.
  - intros s e He. exists [e]. auto.
Qed.

Lemma appended_weaken (P Q : event -> Prop) (s s' : machine World) :
  (forall e, P e -> Q e) -> appended P s s' -> appended Q s s'.
Proof.
  intros HPQ (new & E & F). exists new. split; [done|].
  eapply Forall_impl; eauto.
Qed.

Section Respects.
Context (R : relation (machine World)) (P : event -> Prop) `{!Frame R P}.

Lemma respects_ret {A} (a : A) : respects R (ret a).
Proof. intros s. apply frame_refl. Qed.

Lemma respects_raise {A} (e : exn) : respects R (@raise World A e).
Proof. intros s. apply frame_refl. Qed.

Lemma respects_of_py {A} (r : py A) : respects R (@of_py World A r).
Proof. intros s. apply frame_refl. Qed.

Lemma respects_get {A} (f : machine World -> A) : respects R (get f).
Proof. intros s. apply frame_refl. Qed.

Lemma respects_lift {A} (f : World -> py A * World) : respects R (lift f).
Proof.
  intros s. unfold lift. destruct (f (world s)) as [r w]. apply (frame_world s w).
Qed.

Lemma respects_print (e : event) : P e -> respects R (print e).
Proof. intros He s. by apply (frame_print s e). Qed.

Lemma respects_bind {A B} (m : @M World A) (k : A -> @M World B) :
  respects R m -> (forall a, respects R (k a)) -> respects R (bind m k).
Proof.
  intros Hm Hk s. unfold bind. specialize (Hm s).
  destruct (m s) as [[a|e] s1]; simpl in *; [|done].
  eapply frame_trans; [exact Hm|apply Hk].
Qed.

Lemma respects_try_except {A} (m : @M World A) (h : exn -> @M World A) :
  respects R m -> (forall e, respects R (h e)) -> respects R (try_except m h).
Proof.
  intros Hm Hh s. unfold try_except. specialize (Hm s).
  destruct (m s) as [[a|e] s1]; simpl in *; [done|].
  eapply frame_trans; [exact Hm|apply Hh].
Qed.

Lemma respects_if {A} (b : bool) (m1 m2 : @M World A) :
  respects R m1 -> respects R m2 -> respects R (if b then m1 else m2).
Proof. by destruct b. Qed.

Ltac respects_step :=
  first [ apply respects_bind; [|intros ?] | apply respects_try_except; [|intros ?]
        | apply respects_if | apply respects_ret | apply respects_raise
        | apply respects_of_py | apply respects_get | apply respects_lift
        | assumption ].

Lemma respects_execute_query (query : string) :
  respects R (execute_query query).
Proof. unfold execute_query. repeat respects_step. Qed.

Lemma respects_compare_results (q1 q2 : string) :
  respects R (compare_results q1 q2).
Proof.
  unfold compare_results.
  repeat first [apply respects_execute_query | respects_step].
Qed.

Lemma respects_calculate_query_similarity (q1 q2 : string) :
  respects R (calculate_query_similarity q1 q2).
Proof. unfold calculate_query_similarity. repeat respects_step. Qed.

Lemma respects_ask (n : N) (prompt : string) : respects R (ask n prompt).
Proof. unfold ask. repeat respects_step. Qed.

Lemma respects_get_progressive_hint qd q (score : float) (attempt : nat) :
  respects R (get_progressive_hint qd q score attempt).
Proof.
  unfold get_progressive_hint. repeat first [apply respects_ask | respects_step].
Qed.

Lemma respects_get_ai_feedback qd q (b : bool) :
  respects R (get_ai_feedback qd q b).
Proof.
  unfold get_ai_feedback. repeat first [apply respects_ask | respects_step].
Qed.

(** The branches of an attempt print no prompt: they respect [R] when
    every other event is in [P]. *)
Hypothesis non_prompts : forall e, (forall a, e <> EvPrompt a) -> P e.

Lemma respects_notice (e : event) :
  (forall a, e <> EvPrompt a) -> respects R (print e).
Proof. intros He. by apply respects_print, non_prompts. Qed.

Lemma respects_print_rows (rows : list row) : respects R (print_rows rows).
Proof.
  induction rows; simpl; [apply respects_ret|].
  apply respects_bind; [by apply respects_notice|done].
Qed.

Lemma respects_display_results rs cs : respects R (display_results rs cs).
Proof.
  unfold display_results.
  destruct rs as [[|r l]|]; try by apply respects_notice.
  destruct cs; [|apply respects_raise].
  apply respects_bind; [by apply respects_notice|intros _].
  apply respects_bind; [apply respects_print_rows|intros _].
  apply respects_if; [by apply respects_notice|apply respects_ret].
Qed.

Lemma respects_print_hint qd : respects R (print_hint qd).
Proof.
  unfold print_hint. destruct (hint qd); [|apply respects_ret].
  apply respects_if; [apply respects_ret|by apply respects_notice].
Qed.

Ltac respects_all :=
  repeat first
    [ apply respects_notice; discriminate
    | apply respects_calculate_query_similarity | apply respects_print_hint
    | apply respects_get_ai_feedback | apply respects_get_progressive_hint
    | apply respects_display_results | apply respects_execute_query
    | respects_step ].

Lemma respects_failed_attempt qd q err : respects R (failed_attempt qd q err).
Proof. unfold failed_attempt. respects_all. Qed.

Lemma respects_incorrect_attempt qd q attempt r :
  respects R (incorrect_attempt qd q attempt r).
Proof. unfold incorrect_attempt. respects_all. Qed.

End Respects.
End Frames.

(** ** Completion *)

Section Completion.
Context {World : Type} `{Env World}.

(** C9. Marking an exercise completed is idempotent: marking the same id
    a second time leaves the machine as the first marking left it, and
    one or two markings raise the completion count of the level by at
    most one. *)
Theorem mark_completed_idempotent (level exercise_id : string)
    (s : machine World) :
  let s1 := (mark_completed level exercise_id s).2 in
  let s2 := (mark_completed level exercise_id s1).2 in
  s2 = s1
  /\ size (completed_exercises s1 !!! level)
     <= size (completed_exercises s !!! level) + 1
  /\ size (completed_exercises s2 !!! level)
     <= size (completed_exercises s !!! level) + 1.
Proof.
  unfold mark_completed. destruct s as [w c q d o]; simpl.
  assert (Hsize : forall done : gset string,
             size ({[exercise_id]} ∪ done) <= size done + 1).
  { intros done. destruct (decide (exercise_id ∈ done)).
    - rewrite subseteq_union_1_L by (by apply singleton_subseteq_l). lia.
    - rewrite size_union by (by apply disjoint_singleton_l).
      rewrite size_singleton. lia. }
  destruct (d !! level) as [done|] eqn:E; simpl.
  - rewrite lookup_insert_eq; simpl. rewrite insert_insert_eq.
    rewrite (assoc_L (∪)), (idemp_L (∪)).
    rewrite !lookup_total_insert_eq.
    rewrite (lookup_total_correct _ _ _ E). auto.
  - rewrite E; simpl. split; [done|lia].
Qed.

(** C10. An attempt that is not judged correct, because its query does
    not execute or because [compare_results] does not return [True] on
    it, leaves the completion set of every level unchanged. *)
Theorem completed_only_when_correct (level : string) (query_data : exercise)
    (attempt : nat) (s : machine World) :
  judged_correct query_data attempt s = false ->
  completed_exercises (attempt_body level query_data attempt s).2
  = completed_exercises s.
Proof.
  unfold judged_correct, attempt_body. intros Hnot.
  unfold bind at 1.
  destruct (print (EvPrompt attempt) s) as [[[]|e] s0] eqn:E0;
    [|by inversion E0].
  assert (K0 : completed_exercises s0 = completed_exercises s)
    by (inversion E0; done).
  simpl in Hnot. unfold bind at 1.
  pose proof (respects_lift same_completed (fun _ => True) input s0) as K1.
  destruct (lift input s0) as [[line|e] s1]; simpl in *; [|congruence].
  unfold bind at 1.
  pose proof (respects_execute_query same_completed (fun _ => True)
                (strip line) s1) as K2.
  destruct (execute_query (strip line) s1) as [[r|e] s2]; simpl in *;
    [|congruence].
  destruct (success r); simpl in *.
  - unfold bind at 1.
    pose proof (respects_compare_results same_completed (fun _ => True)
                  (strip line) (solution query_data) s2) as K3.
    destruct (compare_results (strip line) (solution query_data) s2)
      as [[[]|e] s3]; simpl in *; try congruence.
    pose proof (respects_incorrect_attempt same_completed (fun _ => True)
                  (fun _ _ => I) query_data (strip line) attempt r s3) as K4.
    unfold same_completed in *. congruence.
  - pose proof (respects_failed_attempt same_completed (fun _ => True)
                  (fun _ _ => I) query_data (strip line) (error_message r) s2)
      as K4.
    unfold same_completed in *. congruence.
Qed.

End Completion.

(** C10 on the scripted session: a first attempt that runs and returns
    two of the three rows. *)
Lemma completed_only_when_correct_witness :
  let s := Script.tutor0 false
             (Script.world0 ["SELECT id FROM users WHERE id > 1;"; "1"]) in
  judged_correct Script.beginner 1 s = false
  /\ completed_exercises (attempt_body "beginner" Script.beginner 1 s).2
     = completed_exercises s.
Proof.
  split; [reflexivity|].
  apply (completed_only_when_correct "beginner" Script.beginner 1).
  reflexivity.
Defined.

(** ** Methods that return *)

Section Runs.
Context {World : Type} `{Env World}.

(** [runs V L m]: from every state [m] returns a value in [V], having
    appended to the output a list of events in [L]. *)
Definition runs {A} (V : A -> Prop) (L : list event -> Prop)
    (m : @M World A) : Prop :=
  forall s, exists a s' new,
    m s = (Return a, s') /\ V a /\ stdout s' = stdout s ++ new /\ L new.

Lemma runs_ret {A} (V : A -> Prop) (L : list event -> Prop) (a : A) :
  V a -> L [] -> runs V L (ret a).
Proof.
  intros Ha HL s. exists a, s, []. by rewrite app_nil_r.
Qed.

Lemma runs_print (L : list event -> Prop) (e : event) :
  L [e] -> runs (fun _ => True) L (print e).
Proof. intros HL s. by exists tt, (emit s [e]), [e]. Qed.

Lemma runs_bind {A B} (V1 : A -> Prop) (V : B -> Prop)
    (L1 L2 L : list event -> Prop) (m : @M World A) (k : A -> @M World B) :
  (forall l1 l2, L1 l1 -> L2 l2 -> L (l1 ++ l2)) ->
  runs V1 L1 m -> (forall a, V1 a -> runs V L2 (k a)) -> runs V L (bind m k).
Proof.
  intros HL Hm Hk s.
  destruct (Hm s) as (a & s1 & n1 & E1 & Ha & O1 & HL1).
  destruct (Hk a Ha s1) as (b & s2 & n2 & E2 & Hb & O2 & HL2).
  exists b, s2, (n1 ++ n2). unfold bind. rewrite E1, E2, O2, O1, app_assoc.
  auto.
Qed.

Lemma runs_weaken {A} (V V' : A -> Prop) (L L' : list event -> Prop)
    (m : @M World A) :
  (forall a, V a -> V' a) -> (forall l, L l -> L' l) ->
  runs V L m -> runs V' L' m.
Proof.
  intros HV HL Hm s. destruct (Hm s) as (a & s' & new & ? & ? & ? & ?).
  exists a, s', new. auto.
Qed.

Lemma runs_execute_query (query : string) :
  runs well_formed (fun l => l = []) (execute_query query).
Proof.
  intros s.
  exists (executed query s).1, (executed query s).2, [].
  split; [apply execute_query_executed|].
  split; [apply executed_well_formed|]. split; [|done].
  rewrite app_nil_r. by destruct (executed_frame query s) as (_ & _ & _ & ->).
Qed.

Lemma runs_get_ai_feedback qd q (b : bool) :
  runs (fun _ => True) (fun l => l = []) (get_ai_feedback qd q b).
Proof.
  intros s.
  pose proof (respects_get_ai_feedback same_stdout (fun _ => False) qd q b s)
    as Q.
  assert (exists text, (get_ai_feedback qd q b s).1 = Return text) as [text E].
  { cbv [get_ai_feedback bind get try_except ask lift of_py ret].
    destruct (client s); simpl; eauto.
    destruct (messages_create model 500 (feedback_prompt qd q b) (world s))
      as [[content|e] w]; simpl; eauto.
    unfold index. destruct (content !! 0); simpl; eauto. }
  destruct (get_ai_feedback qd q b s) as [r s'] eqn:E'. simpl in *.
  subst r. exists text, s', []. by rewrite app_nil_r.
Qed.

(** Events that neither prompt for an attempt nor offer the menu. *)
Definition closing (e : event) : Prop :=
  e <> EvMenu /\ forall a, e <> EvPrompt a.

Lemma runs_notice (e : event) :
  closing e -> runs (fun _ => True) (Forall closing) (print e).
Proof. intros He. apply runs_print. auto. Qed.

Lemma runs_then {A B} (V1 : A -> Prop) (V : B -> Prop)
    (m : @M World A) (k : A -> @M World B) :
  runs V1 (Forall closing) m ->
  (forall a, V1 a -> runs V (Forall closing) (k a)) ->
  runs V (Forall closing) (bind m k).
Proof. apply runs_bind. intros l1 l2 H1 H2. by apply Forall_app. Qed.

Lemma runs_print_rows (rows : list row) :
  runs (fun _ => True) (Forall closing) (print_rows rows).
Proof.
  induction rows as [|r rows IH]; simpl; [by apply runs_ret|].
  eapply runs_then; [by apply runs_notice|done].
Qed.

Lemma runs_display_results (r : execution) :
  well_formed r ->
  runs (fun _ => True) (Forall closing)
       (display_results (results r) (columns r)).
Proof.
  intros [(rows & cols & ->) | (msg & ->)]; unfold display_results; simpl;
    [|by apply runs_notice].
  destruct rows as [|r rows]; [by apply runs_notice|].
  eapply runs_then; [by apply runs_notice|intros _ _].
  eapply runs_then; [apply runs_print_rows|intros _ _].
  destruct (10 <? _)%nat; [by apply runs_notice|by apply runs_ret].
Qed.

Lemma runs_print_hint qd :
  runs (fun _ => True) (Forall closing) (print_hint qd).
Proof.
  unfold print_hint. destruct (hint qd) as [h|]; [|by apply runs_ret].
  destruct (String.eqb h ""); [by apply runs_ret|by apply runs_notice].
Qed.

End Runs.

(** ** The attempt counter *)

Section Session.
Context {World : Type} `{Env World}.

(** A prompt for an attempt carries a counter between 1 and
    [max_attempts]. *)
Definition prompt_within (e : event) : Prop :=
  forall a, e = EvPrompt a -> 1 <= a <= max_attempts.

Lemma prompt_within_others (e : event) :
  (forall a, e <> EvPrompt a) -> prompt_within e.
Proof. intros He a ->. by destruct (He a). Qed.

Let logged {A} (m : @M World A) : Prop := respects (appended prompt_within) m.

Lemma logged_mark_completed (level exercise_id : string) :
  logged (mark_completed level exercise_id).
Proof.
  intros s. unfold mark_completed.
  destruct (completed_exercises s !! level); exists []; simpl;
    by rewrite app_nil_r.
Qed.

Lemma logged_correct_attempt level qd (attempt : nat) (r : execution) :
  logged (correct_attempt level qd attempt r).
Proof.
  unfold correct_attempt, logged.
  repeat first
    [ apply logged_mark_completed
    | apply (respects_display_results _ _ prompt_within_others)
    | apply (respects_print _ prompt_within), prompt_within_others; discriminate
    | apply (respects_bind _ prompt_within); [|intros ?]
    | apply respects_if
    | apply (respects_ret _ prompt_within)
    | apply (respects_get _ prompt_within)
    | apply (respects_of_py _ prompt_within) ].
Qed.

Lemma logged_attempt_body level qd (attempt : nat) :
  1 <= attempt <= max_attempts -> logged (attempt_body level qd attempt).
Proof.
  intros Hle. unfold attempt_body, logged.
  apply (respects_bind _ prompt_within); [|intros _].
  { apply (respects_print _ prompt_within). by intros a [= <-]. }
  apply (respects_bind _ prompt_within);
    [apply (respects_lift _ prompt_within)|intros line].
  apply (respects_bind _ prompt_within);
    [apply (respects_execute_query _ prompt_within)|intros r].
  apply respects_if.
  { apply (respects_failed_attempt _ _ prompt_within_others). }
  apply (respects_bind _ prompt_within);
    [apply (respects_compare_results _ prompt_within)|intros is_correct].
  apply respects_if; [apply logged_correct_attempt|].
  apply (respects_incorrect_attempt _ _ prompt_within_others).
Qed.

Lemma logged_attempt_loop (fuel : nat) level qd (attempt : nat) :
  logged (attempt_loop fuel level qd attempt).
Proof.
  revert attempt. induction fuel as [|fuel IH]; intros attempt; simpl.
  { apply (respects_ret _ prompt_within). }
  destruct (Nat.ltb_spec attempt max_attempts);
    [|apply (respects_ret _ prompt_within)].
  apply (respects_bind _ prompt_within); [apply logged_attempt_body; lia|].
  intros [|]; [apply IH|apply (respects_ret _ prompt_within)].
Qed.

Lemma attempt_loop_counter (fuel : nat) level qd (attempt n : nat)
    (s : machine World) :
  attempt <= max_attempts ->
  (attempt_loop fuel level qd attempt s).1 = Return (Some n) ->
  attempt <= n <= max_attempts.
Proof.
  revert attempt s. induction fuel as [|fuel IH]; intros attempt s Hle; simpl.
  { discriminate. }
  destruct (Nat.ltb_spec attempt max_attempts) as [Hlt|Hge]; simpl.
  - unfold bind.
    destruct (attempt_body level qd (S attempt) s) as [[[|]|e] s1]; simpl.
    + intros E. apply IH in E; lia.
    + intros [= <-]. lia.
    + discriminate.
  - intros [= <-]. lia.
Qed.

Lemma attempt_loop_leaves (fuel : nat) level qd (attempt : nat)
    (s : machine World) :
  attempt <= max_attempts -> max_attempts < fuel + attempt ->
  (attempt_loop fuel level qd attempt s).1 <> Return None.
Proof.
  revert attempt s.
  induction fuel as [|fuel IH]; intros attempt s Hle Hfuel; simpl.
  - lia.
  - destruct (Nat.ltb_spec attempt max_attempts) as [Hlt|Hge]; simpl;
      [|discriminate].
    unfold bind.
    destruct (attempt_body level qd (S attempt) s) as [[[|]|e] s1]; simpl;
      try discriminate.
    apply IH; lia.
Qed.

(** What a forced reveal prints: closing events, and the solution among
    them. *)
Definition reveals (sol : string) (l : list event) : Prop :=
  Forall closing l /\ EvSolution sol ∈ l.

Lemma runs_before {A B} (V1 : A -> Prop) (V : B -> Prop) (sol : string)
    (m : @M World A) (k : A -> @M World B) :
  runs V1 (Forall closing) m ->
  (forall a, V1 a -> runs V (reveals sol) (k a)) ->
  runs V (reveals sol) (bind m k).
Proof.
  apply runs_bind. intros l1 l2 H1 [H2 Hin]. split.
  - by apply Forall_app.
  - apply elem_of_app. by right.
Qed.

Lemma runs_reveal {B} (V : B -> Prop) (sol : string) (k : unit -> @M World B) :
  runs V (Forall closing) (k tt) ->
  runs V (reveals sol) (bind (print (EvSolution sol)) k).
Proof.
  intros Hk.
  apply (runs_bind (fun _ => True) V (fun l => l = [EvSolution sol])
           (Forall closing)).
  - intros l1 l2 -> H2. split.
    + apply Forall_app. split; [|done]. by repeat constructor.
    + apply elem_of_app. left. apply list_elem_of_singleton. done.
  - by apply runs_print.
  - by intros [] _.
Qed.

Lemma runs_silently {A} (V : A -> Prop) (m : @M World A) :
  runs V (fun l => l = []) m -> runs V (Forall closing) m.
Proof. apply runs_weaken; [done|]. by intros l ->. Qed.

Lemma bind_eq {A B} (m : @M World A) (k : A -> @M World B)
    (s s1 : machine World) (a : A) :
  m s = (Return a, s1) -> bind m k s = k a s1.
Proof. intros E. unfold bind. by rewrite E. Qed.

(** The last attempt, once scored: lines 362-376 and 410-423. *)
Lemma incorrect_attempt_exhausted qd q (r : execution) (sim : float)
    (s s' : machine World) :
  well_formed r ->
  calculate_query_similarity q (solution qd) s = (Return sim, s') ->
  exists s'' new,
    incorrect_attempt qd q max_attempts r s = (Return Break, s'')
    /\ stdout s'' = stdout s' ++ new /\ reveals (solution qd) new.
Proof.
  intros Hwf Hsim. unfold incorrect_attempt.
  rewrite (bind_eq _ _ _ _ _ Hsim).
  rewrite Nat.ltb_irrefl.
  match goal with
  | |- context [?m s' = _] =>
      assert (Hr : runs (fun c => c = Break) (reveals (solution qd)) m)
  end.
  { apply runs_before with (V1 := fun _ => True);
      [by apply runs_notice|intros _ _].
    apply runs_before with (V1 := fun _ => True);
      [by apply runs_notice|intros _ _].
    apply runs_before with (V1 := fun _ => True);
      [by apply runs_notice|intros _ _].
    apply runs_before with (V1 := fun _ => True);
      [by apply runs_display_results|intros _ _].
    apply runs_before with (V1 := fun _ => True);
      [by apply runs_notice|intros _ _].
    apply runs_before with (V1 := well_formed);
      [apply runs_silently, runs_execute_query|intros sol Hsol].
    apply runs_before with (V1 := fun _ => True);
      [by apply runs_display_results|intros _ _].
    apply runs_before with (V1 := fun _ => True);
      [by apply runs_print_hint|intros _ _].
    apply runs_before with (V1 := fun _ => True);
      [by apply runs_notice|intros _ _].
    apply runs_before with (V1 := fun _ => True);
      [by apply runs_print_hint|intros _ _].
    apply runs_reveal.
    apply runs_then with (V1 := fun _ => True);
      [by apply runs_notice|intros _ _].
    apply runs_then with (V1 := fun _ => True);
      [apply runs_silently, runs_get_ai_feedback|intros feedback _].
    apply runs_then with (V1 := fun _ => True);
      [by apply runs_notice|intros _ _].
    by apply runs_ret. }
  destruct (Hr s') as (c & s'' & new & E & -> & Hout & Hnew).
  by exists s'', new.
Qed.

(** The attempt counter never exceeds [max_attempts], which is 3: every
    prompt of a session carries a counter between 1 and 3, the loop is
    left within its three iterations, and the counter it is left with is
    at most 3.  On a third attempt that is incorrect but executable and
    whose similarity is scored, the loop prints the reference solution
    and is left with the counter at 3, no menu and no further prompt
    being printed. *)
Theorem attempts_bounded (level : string) (query_data : exercise)
    (s : machine World) :
  max_attempts = 3
  /\ (exists new,
        stdout (practice_attempts level query_data s).2 = stdout s ++ new
        /\ Forall prompt_within new)
  /\ (practice_attempts level query_data s).1 <> Return None
  /\ (forall n, (practice_attempts level query_data s).1 = Return (Some n) ->
                n <= max_attempts)
  /\ (forall fuel,
        incorrect_but_executable query_data max_attempts s = true ->
        scored query_data max_attempts s = true ->
        exists s' new,
          attempt_loop (S fuel) level query_data 2 s = (Return (Some 3), s')
          /\ stdout s' = stdout s ++ EvPrompt 3 :: new
          /\ reveals (solution query_data) new).
Proof.
  split; [done|]. split; [apply logged_attempt_loop|].
  split; [apply attempt_loop_leaves; unfold max_attempts; lia|].
  split.
  { intros n E. apply attempt_loop_counter in E; [lia|unfold max_attempts; lia]. }
  intros fuel. unfold incorrect_but_executable, scored.
  change (print (EvPrompt max_attempts) s).2 with (emit s [EvPrompt 3]).
  set (s0 := emit s [EvPrompt 3]).
  destruct (lift input s0) as [[line|e] s1] eqn:E1; [|discriminate].
  destruct (execute_query (strip line) s1) as [[r|e] sA] eqn:E2; [|discriminate].
  destruct (success r) eqn:Hs; [simpl|discriminate].
  destruct (compare_results (strip line) (solution query_data) sA)
    as [[[|]|e] sB] eqn:E3; try discriminate.
  intros _.
  destruct (calculate_query_similarity (strip line) (solution query_data) sB)
    as [[sim|e] sC] eqn:E4; [intros _|discriminate].
  assert (Hwf : well_formed r).
  { pose proof (executed_well_formed (strip line) s1) as Hwf.
    rewrite execute_query_executed in E2. by inversion E2; subst. }
  destruct (incorrect_attempt_exhausted query_data (strip line) r sim sB sC Hwf E4)
    as (s' & new & E5 & Hout & Hnew).
  exists s', new. split; [|split; [|done]].
  - assert (Hbody : attempt_body level query_data 3 s = (Return Break, s')).
    { unfold attempt_body.
      rewrite (bind_eq (print (EvPrompt 3)) _ s s0 tt eq_refl).
      rewrite (bind_eq _ _ _ _ _ E1). cbv zeta.
      rewrite (bind_eq _ _ _ _ _ E2). rewrite Hs. cbn [negb].
      rewrite (bind_eq _ _ _ _ _ E3). exact E5. }
    cbn [attempt_loop]. change (2 <? max_attempts)%nat with true.
    cbv iota zeta. by rewrite (bind_eq _ _ _ _ _ Hbody).
  - rewrite Hout.
    pose proof (respects_lift same_stdout (fun _ => False) input s0) as Q1.
    pose proof (respects_execute_query same_stdout (fun _ => False)
                  (strip line) s1) as Q2.
    pose proof (respects_compare_results same_stdout (fun _ => False)
                  (strip line) (solution query_data) sA) as Q3.
    pose proof (respects_calculate_query_similarity same_stdout
                  (fun _ => False) (strip line) (solution query_data) sB) as Q4.
    rewrite E1 in Q1. rewrite E2 in Q2. rewrite E3 in Q3. rewrite E4 in Q4.
    unfold same_stdout in *. simpl in *.
    rewrite Q4, Q3, Q2, Q1. by rewrite <- app_assoc.
Qed.


End Session.

(** The bound on the scripted session: three attempts that run and
    return two of the three rows, the first two followed by the choice
    to try again. *)
Lemma attempts_bounded_witness :
  let s := Script.tutor0 false
             (Script.world0 ["SELECT id FROM users WHERE id > 1;"]) in
  incorrect_but_executable Script.beginner max_attempts s = true
  /\ scored Script.beginner max_attempts s = true
  /\ exists s' new,
       attempt_loop 1 "beginner" Script.beginner 2 s = (Return (Some 3), s')
       /\ stdout s' = stdout s ++ EvPrompt 3 :: new
       /\ reveals (solution Script.beginner) new.
Proof.
  split; [reflexivity|]. split; [reflexivity|].
  apply (attempts_bounded "beginner" Script.beginner); reflexivity.
Defined.


(** C7 at a failing input: the third attempt of a session runs and
    returns two of the three rows, so it is incorrect but executable,
    and the embedder raises when its similarity is scored.  The call of
    the scorer at line 360 is under no [try], unlike the one of the
    branch of a query that does not execute (lines 307-311): the
    exception leaves the loop after the prompt, and the reference
    solution is not revealed. *)
Theorem third_attempt_unscored :
  let s := Outage.tutor0 ["SELECT id FROM users WHERE id > 1;"] in
  let out := attempt_loop 1 "beginner" Script.beginner 2 s in
  incorrect_but_executable Script.beginner max_attempts s = true
  /\ out.1 = Raise Outage.out_of_memory
  /\ stdout out.2 = [EvPrompt 3]
  /\ (EvSolution (solution Script.beginner) ∉ stdout out.2)
  /\ (failed_attempt Script.beginner "SELCT" (Some "syntax error")
        (Outage.tutor0 ["1"])).1 = Return Continue.
Proof.
  cbv zeta. split; [reflexivity|]. split; [reflexivity|].
  split; [reflexivity|]. split; [|reflexivity].
  change (stdout _) with [EvPrompt 3]. intros Hin.
  apply list_elem_of_singleton in Hin. discriminate.
Qed.

Example three_incorrect_attempts :
  let typed := ["SELECT id FROM users WHERE id > 1;"; "1";
                "SELECT id FROM users WHERE id > 1;"; "1";
                "SELECT id FROM users WHERE id > 1;"; "1"] in
  let out := practice_attempts "beginner" Script.beginner
               (Script.tutor0 false (Script.world0 typed)) in
  out.1 = Return (Some 3)
  /\ List.filter (fun e => match e with EvMenu => true | _ => false end)
                 (stdout out.2) = [EvMenu; EvMenu]
  /\ last (stdout out.2)
     = Some (EvTutor "AI feedback is not available. Please set ANTHROPIC_API_KEY environment variable.")
  /\ Script.keyboard (world out.2) = ["1"].
Proof. vm_compute. done. Qed.

(** ** Similarity scorer *)

Section Scorer.
Context {World : Type} `{Env World}.

Lemma f32_div_by_zero_norm (d n0 n1 : float32) :
  is_zero n0 = true \/ is_zero n1 = true ->
  let q := f32_div d (f32_mul n0 n1) in
  q = S754_nan \/ exists sgn, q = S754_infinity sgn.
Proof.
  intros Hz. unfold f32_div, f32_mul.
  destruct n0 as [s0|s0| |s0 m0 x0], n1 as [s1|s1| |s1 m1 x1];
    simpl in Hz; try (by destruct Hz);
    destruct d as [sd|sd| |sd md xd]; simpl; eauto.
Qed.

(** C1, as the code has it.  The division of [calculate_query_similarity]
    is not guarded: when the norm of either embedding is zero the scorer
    returns, without raising, the IEEE quotient by a zero or NaN
    denominator, which is NaN or an infinity and never [0.0]. *)
Theorem similarity_of_zero_norm (query1 query2 : string) (s : machine World)
    (embeddings : list vector) (w : World) (e0 e1 : vector) :
  embedder_encode [strip (lower query1); strip (lower query2)] (world s)
    = (Return embeddings, w) ->
  embeddings !! 0 = Some e0 -> embeddings !! 1 = Some e1 ->
  is_zero (np_linalg_norm e0) = true \/ is_zero (np_linalg_norm e1) = true ->
  exists r,
    calculate_query_similarity query1 query2 s = (Return r, set_world s w)
    /\ (r = S754_nan \/ exists sgn, r = S754_infinity sgn)
    /\ is_zero r = false.
Proof.
  intros Henc H0 H1 Hz.
  unfold calculate_query_similarity, bind, lift, of_py, index, ret.
  rewrite Henc, H0, H1. eexists. split; [reflexivity|].
  destruct (f32_div_by_zero_norm (np_dot e0 e1) _ _ Hz) as [-> | [sgn ->]];
    simpl; eauto.
Qed.

End Scorer.

(** C1 on the scripted world whose embedder returns the zero vector. *)
Lemma similarity_of_zero_norm_witness :
  let s := Script.tutor0 false (Script.degenerate []) in
  is_zero (np_linalg_norm Script.zero_vector) = true
  /\ exists r,
       calculate_query_similarity "" "SELECT id FROM users;" s
       = (Return r, set_world s (Script.degenerate []))
       /\ (r = S754_nan \/ exists sgn, r = S754_infinity sgn)
       /\ is_zero r = false.
Proof.
  split; [reflexivity|].
  apply (similarity_of_zero_norm "" "SELECT id FROM users;" _
           [Script.zero_vector; Script.zero_vector] _
           Script.zero_vector Script.zero_vector);
    try reflexivity.
  by left.
Defined.

(** C1 as stated fails: the norm of the zero vector is zero, and the
    scorer returns NaN on it, not [0.0]. *)
Lemma similarity_zero_norm_counterexample :
  np_linalg_norm Script.zero_vector = S754_zero false
  /\ (calculate_query_similarity "" "SELECT id FROM users;"
        (Script.tutor0 false (Script.degenerate []))).1 = Return S754_nan
  /\ (calculate_query_similarity "" "SELECT id FROM users;"
        (Script.tutor0 false (Script.degenerate []))).1
     <> Return (S754_zero false).
Proof. by vm_compute. Qed.

(** ** Hint policy *)

(** The place of a float on the line, as [SFcompare] reads it: the sign
    class first, then the exponent and the mantissa. *)
Definition float_key (x : spec_float) : Z * Z * Z :=
  match x with
  | S754_nan => (0, 0, 0)
  | S754_infinity true => (-2, 0, 0)
  | S754_infinity false => (2, 0, 0)
  | S754_zero _ => (0, 0, 0)
  | S754_finite true m e => (-1, - e, Zneg m)
  | S754_finite false m e => (1, e, Zpos m)
  end%Z.

Definition lex3 (k k' : Z * Z * Z) : comparison :=
  match (k.1.1 ?= k'.1.1)%Z with
  | Eq => match (k.1.2 ?= k'.1.2)%Z with
          | Eq => (k.2 ?= k'.2)%Z
          | c => c
          end
  | c => c
  end.

Lemma SFcompare_key (x y : spec_float) (c : comparison) :
  SFcompare x y = Some c -> c = lex3 (float_key x) (float_key y).
Proof.
  destruct x as [sx|sx| |sx mx ex], y as [sy|sy| |sy my ey]; simpl;
    repeat match goal with b : bool |- _ => destruct b end; simpl;
    try congruence; unfold lex3; simpl; intros [= <-]; try done.
  all: rewrite ?Z.compare_opp, ?Pos.compare_cont_spec; simpl.
  all: try (rewrite (Z.compare_antisym ex ey)).
  all: destruct (ex ?= ey)%Z; simpl; try done.
  by destruct (mx ?= my)%positive.
Qed.

Lemma lex3_lt (k k' : Z * Z * Z) :
  lex3 k k' = Lt <->
  (k.1.1 < k'.1.1
   \/ (k.1.1 = k'.1.1
       /\ (k.1.2 < k'.1.2 \/ (k.1.2 = k'.1.2 /\ k.2 < k'.2))))%Z.
Proof.
  unfold lex3.
  destruct (Z.compare_spec k.1.1 k'.1.1), (Z.compare_spec k.1.2 k'.1.2),
    (Z.compare_spec k.2 k'.2); split; try done; lia.
Qed.




Section Hints.
Context {World : Type} `{Env World}.


(** [get_progressive_hint] never raises. *)
Lemma get_progressive_hint_returns (query_data : exercise)
    (user_query : string) (score : float) (attempt : nat) (s : machine World) :
  exists text s',
    get_progressive_hint query_data user_query score attempt s
    = (Return text, s').
Proof.
  cbv [get_progressive_hint bind get try_except ask lift of_py ret].
  destruct (client s); simpl; [|eauto].
  destruct (messages_create model 300 _ (world s)) as [[content|e] w];
    simpl; [|eauto].
  unfold index. destruct (content !! 0); simpl; eauto.
Qed.

(** An answer with no content block fails as an exception does. *)
Lemma hint_text_without_content (query_data : exercise) (user_query : string)
    (score : float) (attempt : nat) (s : machine World) (w : World) :
  client s = true ->
  messages_create model 300
    (hint_prompt query_data user_query score attempt) (world s)
    = (Return [], w) ->
  get_progressive_hint query_data user_query score attempt s
  = (Return "Error generating hint: list index out of range", set_world s w).
Proof.
  intros Hclient Hcall.
  cbv [get_progressive_hint bind get try_except ask lift of_py ret].
  rewrite Hclient. simpl. by rewrite Hcall.
Qed.

(** C3, as the code has it.  With a client configured and the advisor
    call raising, [get_progressive_hint] does not raise: it returns the
    text [Error generating hint: ] followed by the text of the
    exception, in which the score plays no part. *)
Theorem hint_error_text (query_data : exercise) (user_query : string)
    (score : float) (attempt : nat) (s : machine World) (e : exn) (w : World) :
  client s = true ->
  messages_create model 300
    (hint_prompt query_data user_query score attempt) (world s)
    = (Raise e, w) ->
  get_progressive_hint query_data user_query score attempt s
  = (Return ("Error generating hint: " +:+ exn_str e), set_world s w).
Proof.
  intros Hclient Hcall.
  cbv [get_progressive_hint bind get try_except ask lift of_py ret].
  rewrite Hclient. simpl. by rewrite Hcall.
Qed.

End Hints.


(** C3 on the scripted session whose advisor cannot be reached. *)
Lemma hint_error_text_witness :
  let s := Script.tutor0 true (Script.offline []) in
  client s = true
  /\ get_progressive_hint Script.beginner "SELECT 1 AS n;" f1_0 1 s
     = (Return "Error generating hint: Connection error.", s).
Proof.
  split; [reflexivity|].
  apply (hint_error_text Script.beginner "SELECT 1 AS n;" f1_0 1
           (Script.tutor0 true (Script.offline []))
           (Exn "APIConnectionError" "Connection error."));
    reflexivity.
Defined.

(** C3 as stated fails: at the score 1.0, with the advisor out of reach,
    the text returned is the error text and not the near-miss hint the
    score selects. *)
Lemma hint_fallback_counterexample :
  (get_progressive_hint Script.beginner "SELECT 1 AS n;" f1_0 1
     (Script.tutor0 true (Script.offline []))).1
  = Return "Error generating hint: Connection error."
  /\ basic_hint Script.beginner f1_0 = near_miss_hint
  /\ (get_progressive_hint Script.beginner "SELECT 1 AS n;" f1_0 1
        (Script.tutor0 true (Script.offline []))).1
     <> Return (basic_hint Script.beginner f1_0).
Proof. by vm_compute. Qed.

(** ** The order of values *)

(** The laws of a three-way comparison that orders a kind of value. *)
Class Ordering {A : Type} (cmp : A -> A -> comparison) := {
  cmp_refl : forall x, cmp x x = Eq;
  cmp_antisym : forall x y, cmp y x = CompOpp (cmp x y);
  cmp_eq_l : forall x y z, cmp x y = Eq -> cmp x z = cmp y z;
  cmp_lt_trans : forall x y z, cmp x y = Lt -> cmp y z = Lt -> cmp x z = Lt
}.

Lemma cmp_eq_r {A} (cmp : A -> A -> comparison) `{!Ordering cmp} (x y z : A) :
  cmp x y = Eq -> cmp z x = cmp z y.
Proof.
  intros E. rewrite (cmp_antisym x z), (cmp_antisym y z).
  by rewrite (cmp_eq_l x y z E).
Qed.

#[global] Instance xcompare_ordering : Ordering xcompare.
Proof.
  split.
  - intros [|q|]; simpl; try done. by apply Qeq_alt.
  - intros [|p|] [|q|]; simpl; try done. symmetry. apply Qcompare_antisym.
  - intros [|p|] [|q|] [|r|]; simpl; try done.
    intros E. apply Qeq_alt in E. by rewrite E.
  - intros [|p|] [|q|] [|r|]; simpl; try done.
    rewrite <- !Qlt_alt. apply Qlt_trans.
Qed.

Lemma ascii_compare_refl (c : ascii) : Ascii.compare c c = Eq.
Proof. apply N.compare_refl. Qed.

Lemma string_compare_refl (s : string) : String.compare s s = Eq.
Proof. induction s as [|c s IH]; simpl; [done|]. by rewrite ascii_compare_refl. Qed.

Lemma string_compare_lt_trans (s1 s2 s3 : string) :
  String.compare s1 s2 = Lt -> String.compare s2 s3 = Lt ->
  String.compare s1 s3 = Lt.
Proof.
  revert s2 s3. induction s1 as [|c1 s1 IH]; intros [|c2 s2] [|c3 s3]; simpl;
    try done.
  unfold Ascii.compare.
  destruct (N.compare_spec (N_of_ascii c1) (N_of_ascii c2)) as [E12|L12|G12];
    try done;
    destruct (N.compare_spec (N_of_ascii c2) (N_of_ascii c3)) as [E23|L23|G23];
    try done; intros H12 H23.
  - rewrite E12, E23, N.compare_refl. eauto.
  - rewrite E12. by apply N.compare_lt_iff in L23 as ->.
  - rewrite <- E23. by apply N.compare_lt_iff in L12 as ->.
  - assert (N_of_ascii c1 < N_of_ascii c3)%N as L13 by lia.
    by apply N.compare_lt_iff in L13 as ->.
Qed.

#[global] Instance string_compare_ordering : Ordering String.compare.
Proof.
  split.
  - apply string_compare_refl.
  - intros x y. apply String.compare_antisym.
  - intros x y z E. by apply String.compare_eq_iff in E as ->.
  - apply string_compare_lt_trans.
Qed.

(** The kind of a value and what orders it within its kind. *)
Inductive vkey := KNone | KNum (x : xnum) | KText (s : string) | KBlob (s : string).

Definition vkey_of (v : value) : vkey :=
  match v with
  | VNone => KNone
  | VInt z => KNum (Fin (inject_Z z))
  | VReal r => KNum (real_num r)
  | VText s => KText s
  | VBlob b => KBlob b
  end.

Definition key_cmp (k k' : vkey) : option comparison :=
  match k, k' with
  | KNum x, KNum y => Some (xcompare x y)
  | KText s, KText t => Some (String.compare s t)
  | KBlob s, KBlob t => Some (String.compare s t)
  | _, _ => None
  end.

Definition value_cmp (a b : value) : option comparison :=
  key_cmp (vkey_of a) (vkey_of b).

Lemma value_eq_cmp (a b : value) :
  value_eq a b = match value_cmp a b with
                 | Some c => is_eq c
                 | None => match a, b with VNone, VNone => true | _, _ => false end
                 end.
Proof. by destruct a, b. Qed.

Lemma value_lt_cmp (a b : value) :
  value_lt a b = match value_cmp a b with
                 | Some c => Return (is_lt c)
                 | None => Raise (unorderable a b)
                 end.
Proof. by destruct a, b. Qed.

Lemma key_cmp_antisym (k k' : vkey) :
  key_cmp k' k = option_map CompOpp (key_cmp k k').
Proof.
  destruct k, k'; simpl; try done; f_equal; apply cmp_antisym.
Qed.

Lemma key_cmp_eq_l (k1 k2 k : vkey) :
  key_cmp k1 k2 = Some Eq -> key_cmp k1 k = key_cmp k2 k.
Proof.
  destruct k1, k2; simpl; try done; intros [= E]; destruct k; simpl; try done;
    f_equal; by apply cmp_eq_l.
Qed.

Lemma key_cmp_eq_r (k1 k2 k : vkey) :
  key_cmp k1 k2 = Some Eq -> key_cmp k k1 = key_cmp k k2.
Proof.
  intros E. rewrite (key_cmp_antisym k1 k), (key_cmp_antisym k2 k).
  by rewrite (key_cmp_eq_l k1 k2 k E).
Qed.

Lemma key_cmp_lt_trans (k1 k2 k3 : vkey) :
  key_cmp k1 k2 = Some Lt -> key_cmp k2 k3 = Some Lt -> key_cmp k1 k3 = Some Lt.
Proof.
  destruct k1, k2; simpl; try done; intros [= E12]; destruct k3; simpl;
    try done; intros [= E23]; f_equal; eapply cmp_lt_trans; eauto.
Qed.

Lemma key_cmp_refl (k : vkey) : k <> KNone -> key_cmp k k = Some Eq.
Proof. destruct k; simpl; try done; intros _; f_equal; apply cmp_refl. Qed.

Lemma value_cmp_none_l (b : value) : value_cmp VNone b = None.
Proof. done. Qed.

Lemma value_eq_true (a b : value) :
  value_eq a b = true <->
  (a = VNone /\ b = VNone) \/ value_cmp a b = Some Eq.
Proof.
  rewrite value_eq_cmp. destruct (value_cmp a b) as [c|] eqn:E.
  - split; [destruct c; try done; auto|].
    intros [[-> ->]|[= ->]]; [by rewrite value_cmp_none_l in E|done].
  - split; [|by intros [[-> ->]|?]].
    destruct a, b; try done. auto.
Qed.

Lemma value_lt_return (a b : value) (t : bool) :
  value_lt a b = Return t <-> exists c, value_cmp a b = Some c /\ t = is_lt c.
Proof.
  rewrite value_lt_cmp. destruct (value_cmp a b) as [c|].
  - split; [intros [= <-]; eauto|]. by intros (c' & [= <-] & ->).
  - split; [done|]. by intros (c' & ? & _).
Qed.

Lemma value_eq_refl (a : value) : value_eq a a = true.
Proof.
  apply value_eq_true. destruct a; [by left|right..];
    by apply key_cmp_refl.
Qed.

Lemma value_eq_compat (a a' b : value) :
  value_eq a a' = true -> value_eq a b = value_eq a' b.
Proof.
  intros [[-> ->]|E]%value_eq_true; [done|].
  rewrite !value_eq_cmp. unfold value_cmp in *.
  rewrite (key_cmp_eq_l _ _ (vkey_of b) E).
  destruct (key_cmp (vkey_of a') (vkey_of b)); [done|].
  destruct a, a'; try done.
Qed.

Lemma value_eq_sym (a b : value) : value_eq a b = value_eq b a.
Proof.
  rewrite !value_eq_cmp. unfold value_cmp.
  rewrite (key_cmp_antisym (vkey_of a) (vkey_of b)).
  destruct (key_cmp (vkey_of a) (vkey_of b)) as [[| |]|]; simpl; try done.
  by destruct a, b.
Qed.

Lemma value_lt_eq_l (a a' b : value) (t : bool) :
  value_eq a a' = true -> value_lt a b = Return t -> value_lt a' b = Return t.
Proof.
  intros [[-> ->]|E]%value_eq_true; [done|].
  rewrite !value_lt_return. unfold value_cmp in *.
  by rewrite (key_cmp_eq_l _ _ (vkey_of b) E).
Qed.

Lemma value_lt_eq_r (a b b' : value) (t : bool) :
  value_eq b b' = true -> value_lt a b = Return t -> value_lt a b' = Return t.
Proof.
  intros [[-> ->]|E]%value_eq_true; [done|].
  rewrite !value_lt_return. unfold value_cmp in *.
  by rewrite (key_cmp_eq_r _ _ (vkey_of a) E).
Qed.

Lemma value_lt_total (a b : value) :
  value_lt a b = Return false -> value_lt b a = Return false ->
  value_eq a b = true.
Proof.
  rewrite !value_lt_return, value_eq_true. unfold value_cmp.
  rewrite (key_cmp_antisym (vkey_of a) (vkey_of b)).
  intros (c & -> & Hc) (c' & [= <-] & Hc'). right. by destruct c.
Qed.

Lemma value_lt_asym (a b : value) :
  value_lt a b = Return true ->
  value_lt b a = Return false /\ value_eq a b = false.
Proof.
  rewrite !value_lt_return, value_eq_cmp. unfold value_cmp.
  rewrite (key_cmp_antisym (vkey_of a) (vkey_of b)).
  intros (c & -> & Hc). destruct c; try done. simpl. eauto.
Qed.

Lemma value_lt_trans (a b c : value) :
  value_lt a b = Return true -> value_lt b c = Return true ->
  value_lt a c = Return true.
Proof.
  rewrite !value_lt_return. unfold value_cmp.
  intros (c1 & E1 & H1) (c2 & E2 & H2).
  destruct c1, c2; try done. exists Lt. split; [|done].
  eapply key_cmp_lt_trans; eauto.
Qed.

(** *** Tuples *)

Lemma tuple_eq_refl (a : row) : tuple_eq a a = true.
Proof. induction a as [|x a IH]; simpl; [done|]. by rewrite value_eq_refl. Qed.

Lemma tuple_eq_sym (a b : row) : tuple_eq a b = tuple_eq b a.
Proof.
  revert b. induction a as [|x a IH]; intros [|y b]; simpl; try done.
  by rewrite value_eq_sym, IH.
Qed.

Lemma tuple_eq_compat (a a' b : row) :
  tuple_eq a a' = true -> tuple_eq a b = tuple_eq a' b.
Proof.
  revert a' b. induction a as [|x a IH]; intros [|x' a'] [|y b]; simpl;
    try done.
  intros [Hx Ha]%andb_true_iff.
  by rewrite (value_eq_compat x x' y Hx), (IH a' b Ha).
Qed.

Lemma tuple_eq_trans (a b c : row) :
  tuple_eq a b = true -> tuple_eq b c = true -> tuple_eq a c = true.
Proof. intros Hab Hbc. by rewrite (tuple_eq_compat a b c Hab). Qed.

Lemma tuple_lt_eq_l (a a' b : row) (t : bool) :
  tuple_eq a a' = true -> tuple_lt a b = Return t -> tuple_lt a' b = Return t.
Proof.
  revert a' b. induction a as [|x a IH]; intros [|x' a'] [|y b]; simpl;
    try done.
  intros [Hx Ha]%andb_true_iff.
  rewrite <- (value_eq_compat x x' y Hx).
  destruct (value_eq x y); [by apply IH|by apply value_lt_eq_l].
Qed.

Lemma tuple_lt_eq_r (a b b' : row) (t : bool) :
  tuple_eq b b' = true -> tuple_lt a b = Return t -> tuple_lt a b' = Return t.
Proof.
  revert b b'. induction a as [|x a IH]; intros [|y b] [|y' b']; simpl;
    try done.
  intros [Hy Hb]%andb_true_iff.
  rewrite (value_eq_sym x y), (value_eq_compat y y' x Hy), (value_eq_sym y' x).
  destruct (value_eq x y'); [by apply IH|by apply value_lt_eq_r].
Qed.

Lemma tuple_lt_total (a b : row) :
  tuple_lt a b = Return false -> tuple_lt b a = Return false ->
  tuple_eq a b = true.
Proof.
  revert b. induction a as [|x a IH]; intros [|y b]; simpl; try done.
  rewrite (value_eq_sym y x).
  destruct (value_eq x y) eqn:E; [by apply IH|].
  intros H1 H2. by rewrite (value_lt_total x y H1 H2) in E.
Qed.

Lemma tuple_lt_asym (a b : row) :
  tuple_lt a b = Return true ->
  tuple_lt b a = Return false /\ tuple_eq a b = false.
Proof.
  revert b. induction a as [|x a IH]; intros [|y b]; simpl; try done.
  rewrite (value_eq_sym y x).
  destruct (value_eq x y) eqn:E; [by apply IH|].
  intros [H1 _]%value_lt_asym. done.
Qed.

Lemma tuple_lt_trans (a b c : row) :
  tuple_lt a b = Return true -> tuple_lt b c = Return true ->
  tuple_lt a c = Return true.
Proof.
  revert b c. induction a as [|x a IH]; intros [|y b] [|z c]; simpl; try done.
  destruct (value_eq x y) eqn:Exy.
  - rewrite (value_eq_compat x y z Exy).
    destruct (value_eq y z); [by apply IH|].
    intros _ H2. apply (value_lt_eq_l y x z); [by rewrite value_eq_sym|done].
  - destruct (value_eq y z) eqn:Eyz.
    + rewrite (value_eq_sym x z), <- (value_eq_compat y z x Eyz),
        (value_eq_sym y x), Exy.
      intros H1 _. by apply (value_lt_eq_r x y z).
    + intros H1 H2. pose proof (value_lt_trans x y z H1 H2) as H3.
      destruct (value_lt_asym x z H3) as [_ ->]. done.
Qed.

(** ** Sorting *)

Lemma orderable_spec (l : list row) :
  orderable l = true <->
  forall a b, a ∈ l -> b ∈ l -> exists t, tuple_lt a b = Return t.
Proof.
  unfold orderable. rewrite forallb_forall. split.
  - intros Hl a b Ha Hb. apply list_elem_of_In in Ha, Hb.
    specialize (Hl a Ha). rewrite forallb_forall in Hl. specialize (Hl b Hb).
    destruct (tuple_lt a b); [eauto|done].
  - intros Hl a Ha. apply forallb_forall. intros b Hb.
    apply list_elem_of_In in Ha, Hb.
    by destruct (Hl a b Ha Hb) as [t ->].
Qed.

(** No row of [l] is smaller than a row before it. *)
Fixpoint ascending (l : list row) : Prop :=
  match l with
  | [] => True
  | a :: l' => Forall (fun b => tuple_lt b a = Return false) l' /\ ascending l'
  end.

Lemma count_row_cons (r a : row) (l : list row) :
  count_row r (a :: l) = (if tuple_eq r a then 1 else 0) + count_row r l.
Proof. unfold count_row. simpl. by destruct (tuple_eq r a). Qed.

Lemma count_row_pos (r : row) (l : list row) :
  0 < count_row r l -> exists a, a ∈ l /\ tuple_eq r a = true.
Proof.
  induction l as [|a l IH]; [by intros ?%Nat.lt_irrefl|].
  rewrite count_row_cons.
  destruct (tuple_eq r a) eqn:E.
  - intros _. exists a. split; [left|done].
  - intros Hpos. destruct IH as (b & Hb & Eb); [lia|].
    exists b. split; [by right|done].
Qed.

Lemma tuple_lt_between (x y z : row) (t t' : bool) :
  tuple_lt z x = Return t -> tuple_lt y z = Return t' ->
  tuple_lt z y = Return false -> tuple_lt y x = Return false ->
  t = false.
Proof.
  intros Hzx Hyz Hzy Hyx. destruct t; [|done]. destruct t'.
  - by rewrite (tuple_lt_trans y z x Hyz Hzx) in Hyx.
  - pose proof (tuple_lt_total z y Hzy Hyz) as E.
    by rewrite (tuple_lt_eq_l z y x true E Hzx) in Hyx.
Qed.

Lemma insert_sorted_returns (x : row) (l : list row) :
  orderable (x :: l) = true ->
  exists r, insert_sorted x l = Return r
    /\ (forall z, z ∈ r <-> z = x \/ z ∈ l)
    /\ (forall z, count_row z r = count_row z (x :: l))
    /\ (ascending l -> ascending r).
Proof.
  rewrite orderable_spec. induction l as [|y l IH]; intros Hord; simpl.
  { exists [x]. split; [done|]. split; [|by split].
    intros z. rewrite list_elem_of_singleton.
    split; [auto|]. intros [?|?%elem_of_nil]; done. }
  destruct (Hord y x) as [t Hyx]; [by right; left|by left|].
  rewrite Hyx. simpl. destruct t.
  - destruct IH as (r & -> & Hin & Hcount & Hasc).
    { intros a b Ha Hb. apply Hord.
      - apply elem_of_cons in Ha as [->|Ha]; [by left|by right; right].
      - apply elem_of_cons in Hb as [->|Hb]; [by left|by right; right]. }
    simpl. exists (y :: r). split; [done|]. split; [|split].
    + intros z. rewrite !elem_of_cons, Hin. tauto.
    + intros z. rewrite !count_row_cons, Hcount, count_row_cons. lia.
    + simpl. intros [Hy Hl]. split; [|by apply Hasc].
      apply Forall_forall. intros z [->|Hz]%Hin.
      * by destruct (tuple_lt_asym y x Hyx).
      * by apply (proj1 (Forall_forall _ _) Hy).
  - exists (x :: y :: l). split; [done|]. split; [|split].
    + intros z. rewrite !elem_of_cons. tauto.
    + done.
    + simpl. intros [Hy Hl]. split; [|done].
      constructor; [done|]. apply Forall_forall. intros z Hz.
      pose proof (proj1 (Forall_forall _ _) Hy z Hz) as Hzy.
      destruct (Hord z x) as [t Hzx]; [by right; right|by left|].
      destruct (Hord y z) as [t' Hyz]; [by right; left|by right; right|].
      by rewrite Hzx, (tuple_lt_between x y z t t' Hzx Hyz Hzy Hyx).
Qed.

Lemma sorted_returns (l : list row) :
  orderable l = true ->
  exists r, sorted l = Return r
    /\ (forall z, z ∈ r <-> z ∈ l)
    /\ same_rows r l
    /\ ascending r.
Proof.
  induction l as [|x l IH]; intros Hord; simpl.
  { by exists []. }
  pose proof (proj1 (orderable_spec _) Hord) as Hall.
  destruct IH as (r & -> & Hin & Hcount & Hasc).
  { apply orderable_spec. intros a b Ha Hb. apply Hall; by right. }
  simpl. destruct (insert_sorted_returns x r) as (r' & -> & Hin' & Hcount' & Hasc').
  { apply orderable_spec. intros a b Ha Hb. apply Hall.
    - apply elem_of_cons in Ha as [->|Ha%Hin]; [by left|by right].
    - apply elem_of_cons in Hb as [->|Hb%Hin]; [by left|by right]. }
  exists r'. split; [done|]. split; [|split].
  - intros z. rewrite Hin', elem_of_cons, Hin. tauto.
  - intros z. rewrite Hcount', !count_row_cons, Hcount. done.
  - by apply Hasc'.
Qed.

Lemma list_eq_same_rows (l1 l2 : list row) :
  list_eq l1 l2 = true -> same_rows l1 l2.
Proof.
  revert l2. induction l1 as [|a l1 IH]; intros [|b l2]; simpl; try done.
  intros [Hab Hl]%andb_true_iff z. rewrite !count_row_cons, (IH l2 Hl z).
  by rewrite (tuple_eq_sym z a), (tuple_eq_compat a b z Hab), (tuple_eq_sym b z).
Qed.

Lemma ascending_same_rows (l1 l2 : list row) :
  ascending l1 -> ascending l2 -> same_rows l1 l2 -> list_eq l1 l2 = true.
Proof.
  revert l2. induction l1 as [|a l1 IH]; intros [|b l2]; simpl; try done.
  - intros _ _ Hsame. specialize (Hsame b). rewrite count_row_cons in Hsame.
    rewrite tuple_eq_refl in Hsame. by change (0 = S (count_row b l2)) in Hsame.
  - intros _ _ Hsame. specialize (Hsame a). rewrite count_row_cons in Hsame.
    rewrite tuple_eq_refl in Hsame. by change (S (count_row a l1) = 0) in Hsame.
  - intros [Ha Hl1] [Hb Hl2] Hsame.
    assert (Hab : tuple_eq a b = true).
    { destruct (count_row_pos a (b :: l2)) as (b' & Hb' & Eb').
      { rewrite <- Hsame, count_row_cons, tuple_eq_refl. lia. }
      destruct (count_row_pos b (a :: l1)) as (a' & Ha' & Ea').
      { rewrite Hsame, count_row_cons, tuple_eq_refl. lia. }
      apply elem_of_cons in Hb' as [->|Hb']; [done|].
      apply elem_of_cons in Ha' as [->|Ha']; [by rewrite tuple_eq_sym|].
      pose proof (proj1 (Forall_forall _ _) Hb b' Hb') as Lb.
      pose proof (proj1 (Forall_forall _ _) Ha a' Ha') as La.
      apply tuple_lt_total.
      - apply (tuple_lt_eq_l b' a b); [by rewrite tuple_eq_sym|done].
      - apply (tuple_lt_eq_l a' b a); [by rewrite tuple_eq_sym|done]. }
    rewrite Hab. simpl. apply IH; [done..|].
    intros z. specialize (Hsame z). rewrite !count_row_cons in Hsame.
    rewrite (tuple_eq_sym z a), (tuple_eq_compat a b z Hab),
      (tuple_eq_sym b z) in Hsame. lia.
Qed.

Lemma list_eq_sorted (l1 l2 : list row) :
  orderable l1 = true -> orderable l2 = true ->
  exists s1 s2, sorted l1 = Return s1 /\ sorted l2 = Return s2
    /\ (list_eq s1 s2 = true <-> same_rows l1 l2).
Proof.
  intros (s1 & E1 & _ & C1 & A1)%sorted_returns
         (s2 & E2 & _ & C2 & A2)%sorted_returns.
  exists s1, s2. split; [done|]. split; [done|]. split.
  - intros Heq%list_eq_same_rows z. by rewrite <- C1, <- C2.
  - intros Hsame. apply ascending_same_rows; [done..|].
    intros z. by rewrite C1, C2.
Qed.

Lemma same_rows_permutation (l1 l2 : list row) :
  l1 ≡ₚ l2 -> same_rows l1 l2.
Proof.
  intros Hp z. induction Hp as [|a l1 l2 _ IH|a b l|l1 l2 l3 _ IH1 _ IH2].
  - done.
  - by rewrite !count_row_cons, IH.
  - rewrite !count_row_cons. lia.
  - congruence.
Qed.

Lemma orderable_permutation (l1 l2 : list row) :
  l1 ≡ₚ l2 -> orderable l1 = true -> orderable l2 = true.
Proof.
  intros Hp. rewrite !orderable_spec. intros Hl a b Ha Hb.
  apply Hl; by rewrite Hp.
Qed.

(** ** The comparator on executed results *)

(** The spec's comparator, from its words: each value is stringified,
    the rows of strings are put in lexicographic order, and two results
    are equivalent when the ordered rows and the column names agree.
    [str_value] writes [None], integers and text as [str] does, a byte
    string between [b'] and ['], and a real with all its decimals, which
    is [str] of it when the decimals are few ([1.0], [1.5], [-0.25]). *)
Module Spec.

Fixpoint rstrip_zeros (s : string) : string :=
  match s with
  | EmptyString => EmptyString
  | String c s' =>
      match rstrip_zeros s' with
      | EmptyString => if Ascii.eqb c "0" then EmptyString else String c EmptyString
      | r => String c r
      end
  end.

Fixpoint zeros (n : nat) : string :=
  match n with 0 => "" | S n' => String "0" (zeros n') end.

Definition str_real (r : real) : string :=
  match r with
  | RInf false => "inf"
  | RInf true => "-inf"
  | RFin neg m e =>
      let sign := if neg then "-" else "" in
      match e with
      | Zneg k =>
          let scale := (2 ^ Npos k)%N in
          let digits := pretty (m mod scale * 5 ^ Npos k)%N in
          let padded :=
            zeros (Pos.to_nat k - String.length digits) +:+ digits in
          let decimals :=
            match rstrip_zeros padded with "" => "0" | d => d end in
          sign +:+ pretty (m / scale)%N +:+ "." +:+ decimals
      | _ => sign +:+ pretty (m * 2 ^ Z.to_N e)%N +:+ ".0"
      end
  end.

Definition str_value (v : value) : string :=
  match v with
  | VNone => "None"
  | VInt z => pretty z
  | VReal r => str_real r
  | VText s => s
  | VBlob b => "b'" +:+ b +:+ "'"
  end.

Fixpoint strings_lt (a b : list string) : bool :=
  match a, b with
  | [], [] => false
  | [], _ :: _ => true
  | _ :: _, [] => false
  | x :: a', y :: b' =>
      match String.compare x y with
      | Lt => true
      | Gt => false
      | Eq => strings_lt a' b'
      end
  end.

Fixpoint insert_row (x : list string) (l : list (list string))
    : list (list string) :=
  match l with
  | [] => [x]
  | y :: l' => if strings_lt y x then y :: insert_row x l' else x :: y :: l'
  end.

Definition ordered (l : list (list string)) : list (list string) :=
  foldr insert_row [] l.

Definition equivalent (rows1 : list row) (cols1 : list string)
    (rows2 : list row) (cols2 : list string) : bool :=
  bool_decide (ordered (map (map str_value) rows1)
               = ordered (map (map str_value) rows2))
  && bool_decide (cols1 = cols2).

End Spec.

Section Comparator.
Context {World : Type} `{Env World}.

Lemma sorted_results_some (rows : list row) :
  sorted_results (Some rows) = sorted rows.
Proof. by destruct rows. Qed.

Lemma results_equal_executed (rows1 rows2 : list row)
    (cols1 cols2 : list string) :
  orderable rows1 = true -> orderable rows2 = true ->
  exists b,
    results_equal (true, Some rows1, Some cols1, None)
                  (true, Some rows2, Some cols2, None) = Return b
    /\ (b = true <-> same_rows rows1 rows2 /\ cols1 = cols2).
Proof.
  intros O1 O2.
  destruct (list_eq_sorted rows1 rows2 O1 O2) as (s1 & s2 & E1 & E2 & Hiff).
  unfold results_equal, columns_eq.
  cbn [success results columns fst snd negb orb].
  rewrite !sorted_results_some, E1, E2.
  cbn [py_bind]. eexists. split; [reflexivity|].
  rewrite andb_true_iff, Hiff, bool_decide_eq_true.
  split; intros [? ?]; split; congruence.
Qed.

(** C2, as the code has it.  On two executions that succeed and whose
    rows are orderable among themselves, [compare_results] returns
    [True] exactly when the two results hold the same rows the same
    number of times, rows being told apart by Python's [==] on tuples,
    and the column names are equal position by position.  Under [==] a
    number equals every number of the same value: [1 == 1.0]. *)
Theorem compare_results_same_rows (user_query solution_query : string)
    (s s1 s2 : machine World) (rows1 rows2 : list row)
    (cols1 cols2 : list string) :
  execute_query user_query s
    = (Return (true, Some rows1, Some cols1, None), s1) ->
  execute_query solution_query s1
    = (Return (true, Some rows2, Some cols2, None), s2) ->
  orderable rows1 = true -> orderable rows2 = true ->
  exists b,
    compare_results user_query solution_query s = (Return b, s2)
    /\ (b = true <-> same_rows rows1 rows2 /\ cols1 = cols2).
Proof.
  intros E1 E2 O1 O2.
  destruct (results_equal_executed rows1 rows2 cols1 cols2 O1 O2)
    as (b & Eb & Hb).
  exists b. split; [|done].
  unfold compare_results. rewrite (bind_eq _ _ _ _ _ E1).
  rewrite (bind_eq _ _ _ _ _ E2). unfold of_py. by rewrite Eb.
Qed.

(** A shuffled copy of orderable rows, under the same columns, is
    judged equivalent. *)
Lemma shuffled_rows_equivalent (rows rows' : list row) (cols : list string) :
  rows ≡ₚ rows' -> orderable rows = true ->
  results_equal (true, Some rows, Some cols, None)
                (true, Some rows', Some cols, None) = Return true.
Proof.
  intros Hp O.
  destruct (results_equal_executed rows rows' cols cols O
              (orderable_permutation _ _ Hp O)) as (b & -> & Hb).
  f_equal. apply Hb. split; [by apply same_rows_permutation|done].
Qed.

(** Under column names that differ, orderable rows are judged
    non-equivalent. *)
Lemma other_columns_differ (rows rows' : list row) (cols cols' : list string) :
  cols <> cols' -> orderable rows = true -> orderable rows' = true ->
  results_equal (true, Some rows, Some cols, None)
                (true, Some rows', Some cols', None) = Return false.
Proof.
  intros Hc O O'.
  destruct (results_equal_executed rows rows' cols cols' O O') as (b & -> & Hb).
  f_equal. destruct b; [|done]. by destruct Hb as [[_ ?] _].
Qed.

End Comparator.

Example one_equals_one_point_zero :
  value_eq (VInt 1) (VReal (RFin false 1 0)) = true
  /\ value_eq (VInt 1) (VText "1") = false
  /\ Spec.str_value (VInt 1) = "1"
  /\ Spec.str_value (VReal (RFin false 1 0)) = "1.0"
  /\ Spec.str_value (VReal (RFin true 1 (-2))) = "-0.25".
Proof. by vm_compute. Qed.

(** C2 on the scripted database: the three users in both orders. *)
Lemma compare_results_same_rows_witness :
  let s := Script.tutor0 false (Script.world0 []) in
  exists b,
    compare_results "SELECT id FROM users ORDER BY id DESC;"
                    "SELECT id FROM users;" s
    = (Return b,
       (executed "SELECT id FROM users;"
          (executed "SELECT id FROM users ORDER BY id DESC;" s).2).2)
    /\ (b = true <->
        same_rows [[VInt 3]; [VInt 2]; [VInt 1]] [[VInt 1]; [VInt 2]; [VInt 3]]
        /\ ["id"] = ["id"]).
Proof.
  apply (compare_results_same_rows "SELECT id FROM users ORDER BY id DESC;"
           "SELECT id FROM users;" (Script.tutor0 false (Script.world0 []))
           (executed "SELECT id FROM users ORDER BY id DESC;"
              (Script.tutor0 false (Script.world0 []))).2);
    reflexivity.
Defined.

(** C2 as stated fails: [SELECT 1] and [SELECT 1.0] are judged
    equivalent, while their values stringify to [1] and [1.0] and the
    comparator of the spec tells them apart. *)
Lemma stringified_counterexample :
  (compare_results "SELECT 1 AS n;" "SELECT 1.0 AS n;"
     (Script.tutor0 false (Script.world0 []))).1 = Return true
  /\ Spec.str_value (VInt 1) = "1"
  /\ Spec.str_value (VReal (RFin false 1 0)) = "1.0"
  /\ Spec.equivalent [[VInt 1]] ["n"] [[VReal (RFin false 1 0)]] ["n"] = false.
Proof. by vm_compute. Qed.

(** C6 at a failing input: two rows, [NULL] and [1], and the same rows
    shuffled, under the same column.  [sorted] compares the integer with
    [None], and [compare_results] raises [TypeError] where the claim
    expects [True]. *)
Theorem shuffled_rows_raise :
  let s := Script.tutor0 false (Script.world0 []) in
  (execute_query "SELECT NULL AS n UNION ALL SELECT 1;" s).1
  = Return (true, Some [[VNone]; [VInt 1]], Some ["n"], None)
  /\ (execute_query "SELECT 1 AS n UNION ALL SELECT NULL;" s).1
     = Return (true, Some [[VInt 1]; [VNone]], Some ["n"], None)
  /\ [[VNone]; [VInt 1]] ≡ₚ [[VInt 1]; [VNone]]
  /\ (compare_results "SELECT NULL AS n UNION ALL SELECT 1;"
        "SELECT 1 AS n UNION ALL SELECT NULL;" s).1
     = Raise (TypeError
         "'<' not supported between instances of 'int' and 'NoneType'").
Proof.
  repeat split; try reflexivity. apply Permutation_swap.
Qed.

(** * Further properties *)

(** ** Normalisation of queries *)

Fixpoint all_space (s : string) : bool :=
  match s with
  | EmptyString => true
  | String c s' => is_space c && all_space s'
  end.

Lemma lower_app (a b : string) : lower (a +:+ b) = lower a +:+ lower b.
Proof. induction a as [|c a IH]; simpl; [done|]. by rewrite IH. Qed.

Lemma lower_char_space (c : ascii) : is_space c = true -> lower_char c = c.
Proof.
  unfold is_space, lower_char. intros Hs.
  destruct ((65 <=? N_of_ascii c) && (N_of_ascii c <=? 90))%N eqn:E; [|done].
  exfalso. apply andb_true_iff in E as [E1%N.leb_le E2%N.leb_le].
  apply orb_true_iff in Hs as [Hs|Hs];
    apply andb_true_iff in Hs as [H1%N.leb_le H2%N.leb_le]; lia.
Qed.

Lemma lower_all_space (p : string) : all_space p = true -> lower p = p.
Proof.
  induction p as [|c p IH]; simpl; [done|].
  intros [Hc Hp]%andb_true_iff. by rewrite (lower_char_space c Hc), IH.
Qed.

Lemma lower_char_idemp (c : ascii) : lower_char (lower_char c) = lower_char c.
Proof.
  unfold lower_char at 2.
  destruct ((65 <=? N_of_ascii c) && (N_of_ascii c <=? 90))%N eqn:E.
  - unfold lower_char. rewrite E.
    apply andb_true_iff in E as [E1%N.leb_le E2%N.leb_le].
    rewrite N_ascii_embedding by lia.
    destruct (N.leb_spec (N_of_ascii c + 32) 90); [lia|].
    by rewrite andb_false_r.
  - unfold lower_char. by rewrite E.
Qed.

Lemma lower_idemp (s : string) : lower (lower s) = lower s.
Proof.
  induction s as [|c s IH]; simpl; [done|]. by rewrite lower_char_idemp, IH.
Qed.

Lemma lstrip_app_space (p x : string) :
  all_space p = true -> lstrip (p +:+ x) = lstrip x.
Proof.
  induction p as [|c p IH]; simpl; [done|].
  intros [-> Hp]%andb_true_iff. by apply IH.
Qed.

Lemma lstrip_all_space (p : string) : all_space p = true -> lstrip p = "".
Proof.
  induction p as [|c p IH]; simpl; [done|].
  intros [-> Hp]%andb_true_iff. by apply IH.
Qed.

Lemma rstrip_all_space (p : string) : all_space p = true -> rstrip p = "".
Proof.
  induction p as [|c p IH]; simpl; [done|].
  intros [-> Hp]%andb_true_iff. by rewrite IH.
Qed.

Lemma rstrip_app_space (x p : string) :
  all_space p = true -> rstrip (x +:+ p) = rstrip x.
Proof.
  intros Hp. induction x as [|c x IH]; simpl; [by apply rstrip_all_space|].
  by rewrite IH.
Qed.

Lemma strip_app_space (x p : string) :
  all_space p = true -> strip (x +:+ p) = strip x.
Proof.
  intros Hp. unfold strip. induction x as [|c x IH]; simpl.
  - by rewrite lstrip_all_space.
  - destruct (is_space c); [done|].
    change (String c (x +:+ p)) with (String c x +:+ p).
    by apply rstrip_app_space.
Qed.

Lemma normalise_padded (p1 q p2 : string) :
  all_space p1 = true -> all_space p2 = true ->
  strip (lower (p1 +:+ q +:+ p2)) = strip (lower q).
Proof.
  intros H1 H2. rewrite !lower_app, (lower_all_space p1 H1),
    (lower_all_space p2 H2).
  unfold strip at 1. rewrite (lstrip_app_space p1 _ H1).
  by apply strip_app_space.
Qed.

(** Text in the ASCII range.  On such text [lower] lowers what
    [str.lower] lowers and [strip] removes what [str.strip] removes;
    beyond it Python also lowers the cased letters and removes the white
    space of the other scripts, which [lower] and [strip] leave alone. *)
Fixpoint ascii_text (s : string) : bool :=
  match s with
  | EmptyString => true
  | String c s' => (N_of_ascii c <? 128)%N && ascii_text s'
  end.

Lemma all_space_ascii (p : string) : all_space p = true -> ascii_text p = true.
Proof.
  induction p as [|c p IH]; simpl; [done|].
  intros [Hc Hp]%andb_true_iff. rewrite (IH Hp), andb_true_r.
  unfold is_space in Hc. apply N.ltb_lt.
  apply orb_true_iff in Hc as [[_ Hc]%andb_true_iff|[_ Hc]%andb_true_iff];
    apply N.leb_le in Hc; lia.
Qed.

Lemma ascii_text_app (a b : string) :
  ascii_text (a +:+ b) = ascii_text a && ascii_text b.
Proof.
  induction a as [|c a IH]; simpl; [done|]. by rewrite IH, andb_assoc.
Qed.

Lemma lower_char_ascii (c : ascii) :
  (N_of_ascii c <? 128)%N = true -> (N_of_ascii (lower_char c) <? 128)%N = true.
Proof.
  intros Hc. unfold lower_char.
  destruct ((65 <=? N_of_ascii c) && (N_of_ascii c <=? 90))%N eqn:E; [|done].
  apply andb_true_iff in E as [_ E%N.leb_le].
  rewrite N_ascii_embedding by lia. apply N.ltb_lt. lia.
Qed.

Lemma lower_ascii (s : string) :
  ascii_text s = true -> ascii_text (lower s) = true.
Proof.
  induction s as [|c s IH]; simpl; [done|].
  intros [Hc Hs]%andb_true_iff. by rewrite (lower_char_ascii c Hc), IH.
Qed.

Section Normalisation.
Context {World : Type} `{Env World}.

(** On queries in the ASCII range, white space around either query does
    not reach the embedder: the padded queries, which are ASCII text as
    well, go through [calculate_query_similarity] exactly as the bare
    ones do, in the result and in the state left behind. *)
Theorem similarity_ignores_padding (p1 q1 p2 p3 q2 p4 : string)
    (s : machine World) :
  ascii_text q1 = true -> ascii_text q2 = true ->
  all_space p1 = true -> all_space p2 = true ->
  all_space p3 = true -> all_space p4 = true ->
  ascii_text (p1 +:+ q1 +:+ p2) = true
  /\ ascii_text (p3 +:+ q2 +:+ p4) = true
  /\ calculate_query_similarity (p1 +:+ q1 +:+ p2) (p3 +:+ q2 +:+ p4) s
     = calculate_query_similarity q1 q2 s.
Proof.
  intros A1 A2 H1 H2 H3 H4.
  split; [|split].
  - by rewrite !ascii_text_app, A1, !all_space_ascii.
  - by rewrite !ascii_text_app, A2, !all_space_ascii.
  - unfold calculate_query_similarity.
    by rewrite (normalise_padded p1 q1 p2 H1 H2),
      (normalise_padded p3 q2 p4 H3 H4).
Qed.

(** On queries in the ASCII range, lowering the case of either query
    beforehand, which gives ASCII text again, changes nothing: the
    scorer lowers its arguments itself, and lowering twice is lowering
    once. *)
Theorem similarity_ignores_lowering (q1 q2 : string) (s : machine World) :
  ascii_text q1 = true -> ascii_text q2 = true ->
  ascii_text (lower q1) = true /\ ascii_text (lower q2) = true
  /\ calculate_query_similarity (lower q1) q2 s
     = calculate_query_similarity q1 q2 s
  /\ calculate_query_similarity q1 (lower q2) s
     = calculate_query_similarity q1 q2 s.
Proof.
  intros A1 A2. split; [by apply lower_ascii|]. split; [by apply lower_ascii|].
  unfold calculate_query_similarity. by rewrite !lower_idemp.
Qed.

End Normalisation.

Lemma similarity_ignores_padding_witness :
  let s := Script.tutor0 false (Script.world0 []) in
  ascii_text "SELECT * FROM t" = true
  /\ all_space "  " = true
  /\ calculate_query_similarity ("  " +:+ "SELECT * FROM t" +:+ "  ")
       (EmptyString +:+ "select * from t" +:+ " ") s
     = calculate_query_similarity "SELECT * FROM t" "select * from t" s.
Proof.
  split; [reflexivity|]. split; [reflexivity|].
  apply (similarity_ignores_padding "  " "SELECT * FROM t" "  "
           EmptyString "select * from t" " "); reflexivity.
Defined.

Lemma similarity_ignores_lowering_witness :
  let s := Script.tutor0 false (Script.world0 []) in
  ascii_text "SELECT * FROM T" = true
  /\ lower "SELECT * FROM T" = "select * from t"
  /\ calculate_query_similarity (lower "SELECT * FROM T") "select 1" s
     = calculate_query_similarity "SELECT * FROM T" "select 1" s.
Proof.
  split; [reflexivity|]. split; [reflexivity|].
  apply (similarity_ignores_lowering "SELECT * FROM T" "select 1"
           (Script.tutor0 false (Script.world0 [])) eq_refl eq_refl).
Defined.

(** ** Display *)

Section Display.
Context {World : Type} `{Env World}.

Lemma emit_emit (s : machine World) (l1 l2 : list event) :
  emit (emit s l1) l2 = emit s (l1 ++ l2).
Proof. unfold emit. simpl. by rewrite app_assoc. Qed.

Lemma print_rows_emits (rows : list row) (s : machine World) :
  print_rows rows s = (Return tt, emit s (map EvRow rows)).
Proof.
  revert s. induction rows as [|r rows IH]; intros s; simpl.
  - unfold ret, emit. rewrite app_nil_r. by destruct s.
  - unfold bind. simpl. rewrite IH. f_equal.
    change (emit (emit s [EvRow r]) (map EvRow rows)
            = emit s (EvRow r :: map EvRow rows)).
    by rewrite emit_emit.
Qed.

(** What is shown after the header, for rows that are not all shown. *)
Definition shown (rows : list row) : list event :=
  map EvRow (take 10 rows)
  ++ (if (10 <? length rows)%nat then [EvMoreRows (length rows - 10)] else []).

(** [display_results] on a result with rows never raises and prints the
    header, then the first ten rows in their order and no more, then,
    when rows were left out, how many: the rows shown and the number
    announced add up to the rows there are.  On no rows, or on [None],
    it prints one line and does not look at the columns. *)
Theorem display_results_truncates (rows : list row) (cols : list string)
    (cs : option (list string)) (s : machine World) :
  (rows <> [] ->
   display_results (Some rows) (Some cols) s
   = (Return tt, emit s (EvHeader cols :: shown rows)))
  /\ length (take 10 rows) <= 10
  /\ length (take 10 rows)
     + (if (10 <? length rows)%nat then length rows - 10 else 0)
     = length rows
  /\ display_results (Some []) cs s = (Return tt, emit s [EvNoRows])
  /\ display_results None cs s = (Return tt, emit s [EvNoRows]).
Proof.
  split; [|split; [|split; [|done]]].
  - intros Hrows. destruct rows as [|r rows]; [done|].
    unfold display_results.
    rewrite (bind_eq (print (EvHeader cols)) _ s (emit s [EvHeader cols]) tt
               eq_refl).
    rewrite (bind_eq _ _ _ _ _ (print_rows_emits _ _)).
    rewrite emit_emit. unfold shown.
    destruct (10 <? length (r :: rows))%nat.
    + unfold print, emit. cbn [world client queries completed_exercises stdout].
      by rewrite <- !app_assoc.
    + unfold ret. by rewrite app_nil_r.
  - rewrite length_take. lia.
  - rewrite length_take. destruct (Nat.ltb_spec 10 (length rows)); lia.
Qed.

(** With a client configured and the advisor answering,
    [get_progressive_hint] returns the first content block of the answer
    as it is; the score only reaches the advisor through the prompt. *)
Theorem hint_is_advisor_text (query_data : exercise) (user_query : string)
    (score : float) (attempt : nat) (s : machine World)
    (text : string) (rest : list string) (w : World) :
  client s = true ->
  messages_create model 300
    (hint_prompt query_data user_query score attempt) (world s)
    = (Return (text :: rest), w) ->
  get_progressive_hint query_data user_query score attempt s
  = (Return text, set_world s w).
Proof.
  intros Hclient Hcall.
  cbv [get_progressive_hint bind get try_except ask lift of_py ret].
  rewrite Hclient. simpl. by rewrite Hcall.
Qed.

End Display.

Lemma display_results_truncates_witness :
  let s := Script.tutor0 false (Script.world0 []) in
  let rows := map (fun n => [VInt (Z.of_nat n)]) (seq 1 12) in
  rows <> []
  /\ display_results (Some rows) (Some ["id"]) s
     = (Return tt, emit s (EvHeader ["id"] :: shown rows))
  /\ last (shown rows) = Some (EvMoreRows 2).
Proof.
  cbv zeta.
  assert (Hrows : map (fun n => [VInt (Z.of_nat n)]) (seq 1 12) <> [])
    by (simpl; discriminate).
  split; [exact Hrows|]. split; [|reflexivity].
  exact (proj1 (display_results_truncates
                  (map (fun n => [VInt (Z.of_nat n)]) (seq 1 12)) ["id"] None
                  (Script.tutor0 false (Script.world0 []))) Hrows).
Defined.

Lemma hint_is_advisor_text_witness :
  let s := Script.tutor0 true (Script.world0 []) in
  client s = true
  /\ get_progressive_hint Script.beginner "SELECT 1 AS n;" f0_4 2 s
     = (Return "Look at the WHERE clause.", s).
Proof.
  split; [reflexivity|].
  apply (hint_is_advisor_text Script.beginner "SELECT 1 AS n;" f0_4 2
           (Script.tutor0 true (Script.world0 []))
           "Look at the WHERE clause." []); reflexivity.
Defined.

(** ** The comparator as a relation *)

Lemma insert_sorted_length (x : row) (l r : list row) :
  insert_sorted x l = Return r -> length r = S (length l).
Proof.
  revert r. induction l as [|y l IH]; intros r; simpl.
  { by intros [= <-]. }
  destruct (tuple_lt y x) as [[|]|e]; simpl; try done.
  - destruct (insert_sorted x l) as [r'|e]; simpl; [|done].
    intros [= <-]. simpl. by rewrite (IH r').
  - by intros [= <-].
Qed.

Lemma sorted_length (l r : list row) :
  sorted l = Return r -> length r = length l.
Proof.
  revert r. induction l as [|x l IH]; intros r; simpl.
  { by intros [= <-]. }
  destruct (sorted l) as [r'|e]; simpl; [|done].
  intros E%insert_sorted_length. by rewrite E, (IH r').
Qed.

Lemma list_eq_length (l1 l2 : list row) :
  list_eq l1 l2 = true -> length l1 = length l2.
Proof.
  revert l2. induction l1 as [|a l1 IH]; intros [|b l2]; simpl; try done.
  intros [_ Hl]%andb_true_iff. by rewrite (IH l2).
Qed.

Lemma same_rows_length (l1 l2 : list row) :
  orderable l1 = true -> orderable l2 = true ->
  same_rows l1 l2 -> length l1 = length l2.
Proof.
  intros O1 O2 Hsame.
  destruct (list_eq_sorted l1 l2 O1 O2) as (s1 & s2 & E1 & E2 & Hiff).
  rewrite <- (sorted_length l1 s1 E1), <- (sorted_length l2 s2 E2).
  by apply list_eq_length, Hiff.
Qed.

Lemma same_rows_sym (l1 l2 : list row) : same_rows l1 l2 -> same_rows l2 l1.
Proof. intros Hs z. by rewrite Hs. Qed.

Lemma same_rows_trans (l1 l2 l3 : list row) :
  same_rows l1 l2 -> same_rows l2 l3 -> same_rows l1 l3.
Proof. intros H1 H2 z. by rewrite H1, H2. Qed.

(** The verdict of the comparator does not depend on which of two
    orderable results is the attempt and which the solution. *)
Theorem results_equal_symmetric (rows1 rows2 : list row)
    (cols1 cols2 : list string) :
  orderable rows1 = true -> orderable rows2 = true ->
  results_equal (true, Some rows1, Some cols1, None)
                (true, Some rows2, Some cols2, None)
  = results_equal (true, Some rows2, Some cols2, None)
                  (true, Some rows1, Some cols1, None).
Proof.
  intros O1 O2.
  destruct (results_equal_executed rows1 rows2 cols1 cols2 O1 O2)
    as (b & -> & Hb).
  destruct (results_equal_executed rows2 rows1 cols2 cols1 O2 O1)
    as (b' & -> & Hb').
  f_equal. apply eq_true_iff_eq. rewrite Hb, Hb'.
  split; intros [Hs ->]; split; auto using same_rows_sym.
Qed.

(** Two orderable results each judged equivalent to a third orderable
    result are judged equivalent to each other. *)
Theorem results_equal_transitive (rows1 rows2 rows3 : list row)
    (cols1 cols2 cols3 : list string) :
  orderable rows1 = true -> orderable rows2 = true -> orderable rows3 = true ->
  results_equal (true, Some rows1, Some cols1, None)
                (true, Some rows2, Some cols2, None) = Return true ->
  results_equal (true, Some rows2, Some cols2, None)
                (true, Some rows3, Some cols3, None) = Return true ->
  results_equal (true, Some rows1, Some cols1, None)
                (true, Some rows3, Some cols3, None) = Return true.
Proof.
  intros O1 O2 O3.
  destruct (results_equal_executed rows1 rows2 cols1 cols2 O1 O2)
    as (b12 & -> & H12).
  destruct (results_equal_executed rows2 rows3 cols2 cols3 O2 O3)
    as (b23 & -> & H23).
  destruct (results_equal_executed rows1 rows3 cols1 cols3 O1 O3)
    as (b13 & -> & H13).
  intros [= ->] [= ->]. f_equal. apply H13.
  destruct H12 as [[S12 ->] _]; [done|]. destruct H23 as [[S23 ->] _]; [done|].
  split; [by apply (same_rows_trans rows1 rows2 rows3)|done].
Qed.

(** Rows count with their multiplicity: two orderable results with
    different numbers of rows are never judged equivalent, whatever the
    rows are. *)
Theorem results_equal_counts_rows (rows1 rows2 : list row)
    (cols1 cols2 : list string) :
  orderable rows1 = true -> orderable rows2 = true ->
  length rows1 <> length rows2 ->
  results_equal (true, Some rows1, Some cols1, None)
                (true, Some rows2, Some cols2, None) = Return false.
Proof.
  intros O1 O2 Hlen.
  destruct (results_equal_executed rows1 rows2 cols1 cols2 O1 O2)
    as (b & -> & Hb).
  f_equal. destruct b; [|done]. destruct Hb as [[Hs _] _]; [done|].
  by destruct Hlen; apply same_rows_length.
Qed.

(** A result of two rows that [<] cannot order makes the comparator
    raise the exception of [<], whatever the other result holds:
    [sorted] runs on the first result before anything is compared. *)
Theorem results_equal_unorderable_pair (a b : row)
    (cols : option (list string)) (r2 : execution) (e : exn) :
  tuple_lt b a = Raise e -> success r2 = true ->
  results_equal (true, Some [a; b], cols, None) r2 = Raise e.
Proof.
  intros Hlt Hok. unfold results_equal.
  cbn [success results columns fst snd negb orb]. rewrite Hok.
  cbn [negb orb sorted_results sorted insert_sorted py_bind]. by rewrite Hlt.
Qed.

Lemma results_equal_symmetric_witness :
  orderable [[VInt 1]; [VReal (RFin false 3 (-1))]] = true
  /\ results_equal
       (true, Some [[VInt 1]; [VReal (RFin false 3 (-1))]], Some ["n"], None)
       (true, Some [[VReal (RFin false 3 (-1))]; [VInt 1]], Some ["n"], None)
     = results_equal
         (true, Some [[VReal (RFin false 3 (-1))]; [VInt 1]], Some ["n"], None)
         (true, Some [[VInt 1]; [VReal (RFin false 3 (-1))]], Some ["n"], None).
Proof.
  split; [reflexivity|]. by apply results_equal_symmetric.
Defined.

Lemma results_equal_transitive_witness :
  orderable [[VInt 2]; [VInt 1]] = true
  /\ results_equal (true, Some [[VInt 2]; [VInt 1]], Some ["n"], None)
       (true, Some [[VReal (RFin false 1 0)]; [VReal (RFin false 1 1)]],
        Some ["n"], None)
     = Return true.
Proof.
  split; [reflexivity|].
  by apply (results_equal_transitive [[VInt 2]; [VInt 1]]
              [[VInt 1]; [VInt 2]]
              [[VReal (RFin false 1 0)]; [VReal (RFin false 1 1)]]
              ["n"] ["n"] ["n"]).
Defined.

Lemma results_equal_counts_rows_witness :
  length [[VInt 1]] <> length [[VInt 1]; [VInt 1]]
  /\ results_equal (true, Some [[VInt 1]], Some ["n"], None)
       (true, Some [[VInt 1]; [VInt 1]], Some ["n"], None)
     = Return false.
Proof.
  split; [done|]. by apply results_equal_counts_rows.
Defined.

Lemma results_equal_unorderable_pair_witness :
  tuple_lt [VInt 7; VText "b"] [VInt 7; VNone]
  = Raise (unorderable (VText "b") VNone)
  /\ results_equal
       (true, Some [[VInt 7; VNone]; [VInt 7; VText "b"]],
        Some ["id"; "name"], None)
       (true, Some [], Some [], None)
     = Raise (unorderable (VText "b") VNone).
Proof.
  split; [reflexivity|]. by apply results_equal_unorderable_pair.
Defined.

Lemma shuffled_rows_equivalent_witness :
  [[VInt 3]; [VInt 1]; [VInt 2]] ≡ₚ [[VInt 1]; [VInt 2]; [VInt 3]]
  /\ orderable [[VInt 3]; [VInt 1]; [VInt 2]] = true
  /\ results_equal
       (true, Some [[VInt 3]; [VInt 1]; [VInt 2]], Some ["id"], None)
       (true, Some [[VInt 1]; [VInt 2]; [VInt 3]], Some ["id"], None)
     = Return true.
Proof.
  assert (Hp : [[VInt 3]; [VInt 1]; [VInt 2]]
               ≡ₚ [[VInt 1]; [VInt 2]; [VInt 3]])
    by apply (Permutation_cons_append [[VInt 1]; [VInt 2]] [VInt 3]).
  split; [exact Hp|]. split; [reflexivity|].
  by apply shuffled_rows_equivalent.
Defined.

Lemma other_columns_differ_witness :
  ["id"; "name"] <> ["name"; "id"]
  /\ results_equal
       (true, Some [[VInt 1; VText "a"]], Some ["id"; "name"], None)
       (true, Some [[VText "a"; VInt 1]], Some ["name"; "id"], None)
     = Return false.
Proof.
  split; [done|]. by apply other_columns_differ.
Defined.

(** ** What can abort an attempt *)

Section Raises.
Context {World : Type} `{Env World}.

(** [only_raises E m]: whatever [m] raises is in [E]. *)
Definition only_raises {A} (E : exn -> Prop) (m : @M World A) : Prop :=
  forall s e, (m s).1 = Raise e -> E e.

(** [yields V m]: whatever [m] returns is in [V]. *)
Definition yields {A} (V : A -> Prop) (m : @M World A) : Prop :=
  forall s a, (m s).1 = Return a -> V a.

Lemma only_raises_ret {A} (E : exn -> Prop) (a : A) :
  only_raises E (@ret World A a).
Proof. by intros s e. Qed.

Lemma only_raises_print (E : exn -> Prop) (ev : event) :
  only_raises E (@print World ev).
Proof. by intros s e. Qed.

Lemma only_raises_get {A} (E : exn -> Prop) (f : machine World -> A) :
  only_raises E (get f).
Proof. by intros s e. Qed.

Lemma only_raises_bind {A B} (E : exn -> Prop) (V : A -> Prop)
    (m : @M World A) (k : A -> @M World B) :
  only_raises E m -> yields V m -> (forall a, V a -> only_raises E (k a)) ->
  only_raises E (bind m k).
Proof.
  intros Hm HV Hk s e. unfold bind.
  specialize (Hm s). specialize (HV s).
  destruct (m s) as [[a|e'] s1]; simpl in *.
  - apply Hk. by apply HV.
  - intros [= ->]. by apply Hm.
Qed.

Lemma only_raises_then {A B} (E : exn -> Prop)
    (m : @M World A) (k : A -> @M World B) :
  only_raises E m -> (forall a, only_raises E (k a)) ->
  only_raises E (bind m k).
Proof.
  intros Hm Hk. apply (only_raises_bind E (fun _ => True)); [done|done|auto].
Qed.

Lemma only_raises_swallow {A} (E : exn -> Prop) (m : @M World A) (a : A) :
  only_raises E (try_except m (fun _ => ret a)).
Proof.
  intros s e. unfold try_except. by destruct (m s) as [[a'|e'] s1].
Qed.

Lemma only_raises_if {A} (E : exn -> Prop) (b : bool) (m1 m2 : @M World A) :
  only_raises E m1 -> only_raises E m2 -> only_raises E (if b then m1 else m2).
Proof. by destruct b. Qed.

Lemma only_raises_input (E : exn -> Prop) :
  (forall w e, (input w).1 = Raise e -> E e) -> only_raises E (lift input).
Proof.
  intros HE s e. unfold lift. specialize (HE (world s) e).
  destruct (input (world s)) as [r w]. simpl in *. auto.
Qed.


Lemma yields_execute_query (query : string) :
  yields well_formed (execute_query query).
Proof.
  intros s a. rewrite execute_query_executed. simpl. intros [= <-].
  apply executed_well_formed.
Qed.

(** The exceptions of [input]. *)
Definition from_input (e : exn) : Prop := exists w, (input w).1 = Raise e.

End Raises.

(** ** Exercises with missing keys *)

(** Whether the dict has no value at [key], for the keys the engine
    reads. *)
Definition lacks (query_data : entry) (key : string) : bool :=
  (String.eqb key "id" && negb (bool_decide (is_Some (id_item query_data))))
  || (String.eqb key "question"
      && negb (bool_decide (is_Some (question_item query_data))))
  || (String.eqb key "solution"
      && negb (bool_decide (is_Some (solution_item query_data))))
  || (String.eqb key "concepts"
      && negb (bool_decide (is_Some (concepts_item query_data)))).

Lemma lacks_of_exercise (e : exercise) (key : string) :
  lacks (of_exercise e) key = false.
Proof.
  unfold lacks, of_exercise. simpl. by rewrite !andb_false_r.
Qed.

Section Keys.
Context {World : Type} `{Env World}.

(** The [KeyError] of one of [keys] that the dict lacks. *)
Definition missing (keys : list string) (query_data : entry) (e : exn)
    : Prop :=
  exists key, key ∈ keys /\ lacks query_data key = true /\ e = KeyError key.

Lemma missing_weaken (keys1 keys2 : list string) query_data (e : exn) :
  keys1 ⊆ keys2 -> missing keys1 query_data e -> missing keys2 query_data e.
Proof. intros Hsub (key & Hin & Hl & ->). exists key. auto. Qed.


Lemma missing_question (keys : list string) query_data :
  "question" ∈ keys -> question_item query_data = None ->
  missing keys query_data (KeyError "question").
Proof. intros Hin E. exists "question". unfold lacks. by rewrite E. Qed.

Lemma missing_solution (keys : list string) query_data :
  "solution" ∈ keys -> solution_item query_data = None ->
  missing keys query_data (KeyError "solution").
Proof.
  intros Hin E. exists "solution". unfold lacks. by rewrite E.
Qed.


Lemma missing_of_exercise (keys : list string) (qd : exercise) (e : exn) :
  ~ missing keys (of_exercise qd) e.
Proof. intros (key & _ & Hl & _). by rewrite lacks_of_exercise in Hl. Qed.

(** [get_ai_feedback] on a dict.  Without a client nothing is read and
    the fixed notice is returned.  With a client it raises exactly when
    [question] or [solution] is missing, the [KeyError] of the first of
    them that is, before the advisor is called and with the state as it
    was; otherwise it returns the first content block of the answer, or
    [Error getting AI feedback: ] followed by the text of the exception
    when the call raises or answers nothing.  What the advisor raises
    never leaves it. *)
Theorem get_ai_feedback_outcome (query_data : entry) (user_query : string)
    (is_correct : bool) (s : machine World) :
  match Dict.get_ai_feedback query_data user_query is_correct s with
  | (Return text, s') =>
      exists w,
        s' = set_world s w
        /\ if client s then
             exists question solution,
               question_item query_data = Some question
               /\ solution_item query_data = Some solution
               /\ match messages_create model 500
                          (feedback_prompt (read question solution [])
                             user_query is_correct) (world s)
                  with
                  | (Return (first :: _), w') => text = first /\ w = w'
                  | (Return [], w') =>
                      text = "Error getting AI feedback: list index out of range"
                      /\ w = w'
                  | (Raise e, w') =>
                      text = "Error getting AI feedback: " +:+ exn_str e
                      /\ w = w'
                  end
           else
             text = "AI feedback is not available. Please set ANTHROPIC_API_KEY environment variable."
             /\ w = world s
  | (Raise e, s') =>
      s' = s /\ client s = true
      /\ (question_item query_data = None /\ e = KeyError "question"
          \/ is_Some (question_item query_data)
             /\ solution_item query_data = None /\ e = KeyError "solution")
  end.
Proof.
  cbv [Dict.get_ai_feedback bind get try_except ask lift of_py ret item].
  destruct s as [w c q d o]. simpl. destruct c; simpl; [|by eexists].
  destruct (question_item query_data) as [question|]; simpl; [|by auto].
  destruct (solution_item query_data) as [solution|]; simpl.
  2: { split; [done|]. split; [done|]. right. by split; [eexists|]. }
  destruct (messages_create model 500 _ w) as [[[|first rest]|e] w'] eqn:E;
    simpl; eexists; (split; [reflexivity|]); exists question, solution;
    rewrite E; by repeat split.
Qed.

Lemma get_ai_feedback_raises (query_data : entry) (user_query : string)
    (is_correct : bool) :
  only_raises (missing ["question"; "solution"] query_data)
    (Dict.get_ai_feedback query_data user_query is_correct).
Proof.
  intros s e.
  cbv [Dict.get_ai_feedback bind get try_except ask lift of_py ret item].
  destruct (client s); simpl; [|done].
  destruct (question_item query_data) as [question|] eqn:Eq; simpl.
  2: { intros [= <-]. apply missing_question; [repeat constructor|done]. }
  destruct (solution_item query_data) as [solution|] eqn:Es; simpl.
  2: { intros [= <-]. apply missing_solution; [repeat constructor|done]. }
  destruct (messages_create model 500 _ (world s)) as [[content|e'] w];
    simpl; [|done].
  unfold index. by destruct (content !! 0).
Qed.


Lemma print_hint_raises (E : exn -> Prop) (query_data : entry) :
  only_raises E (@Dict.print_hint World query_data).
Proof.
  intros s e. unfold Dict.print_hint.
  destruct (hint_item query_data) as [h|]; [|done].
  by destruct (String.eqb h EmptyString).
Qed.

Lemma solution_raises (query_data : entry) :
  only_raises (missing ["solution"] query_data)
    (@of_py World _ (item "solution" (solution_item query_data))).
Proof.
  intros s e. unfold of_py, item.
  destruct (solution_item query_data) eqn:Es; simpl; [done|].
  intros [= <-]. apply missing_solution; [repeat constructor|done].
Qed.

Lemma print_solution_raises (query_data : entry) :
  only_raises (missing ["solution"] query_data)
    (@Dict.print_solution World query_data).
Proof.
  unfold Dict.print_solution.
  apply only_raises_then; [apply solution_raises|intros sol].
  apply only_raises_print.
Qed.

Lemma only_raises_weaken {A} (E1 E2 : exn -> Prop) (m : @M World A) :
  (forall e, E1 e -> E2 e) -> only_raises E1 m -> only_raises E2 m.
Proof. intros HE Hm s e He. apply HE. by apply (Hm s). Qed.

(** An attempt whose query does not execute is never aborted by the
    scorer or by the advisor, and the missing solution of line 308 is
    swallowed with them: if [failed_attempt] raises, the exception is
    one that [input] raised, or the [KeyError] of a [question] or
    [solution] the exercise lacks, read where the solution is shown
    (line 324) or the prompt of the advisor is built (line 327). *)
Theorem failed_attempt_escapes (query_data : entry) (user_query : string)
    (error : option string) (s : machine World) (e : exn) :
  (Dict.failed_attempt query_data user_query error s).1 = Raise e ->
  from_input e \/ missing ["question"; "solution"] query_data e.
Proof.
  revert s e.
  change (only_raises
            (fun e => from_input e
                      \/ missing ["question"; "solution"] query_data e)
            (Dict.failed_attempt query_data user_query error)).
  unfold Dict.failed_attempt.
  apply only_raises_then; [apply only_raises_print|intros _].
  apply only_raises_then; [apply only_raises_swallow|intros _].
  apply only_raises_then; [apply print_hint_raises|intros _].
  apply only_raises_then; [apply only_raises_print|intros _].
  apply only_raises_then;
    [apply only_raises_input; intros w e He; left; unfold from_input; eauto
    |intros choice].
  apply only_raises_if.
  { apply only_raises_then; [|intros _; apply only_raises_ret].
    apply (only_raises_weaken (missing ["solution"] query_data));
      [|apply print_solution_raises].
    intros e He. right. revert He. apply missing_weaken.
    intros key ->%list_elem_of_singleton. repeat constructor. }
  apply only_raises_if; [|apply only_raises_ret].
  apply only_raises_then;
    [apply (only_raises_weaken (missing ["question"; "solution"] query_data));
       [by right|apply get_ai_feedback_raises]
    |intros feedback].
  apply only_raises_then; [apply only_raises_print|intros _].
  apply only_raises_then;
    [apply only_raises_input; intros w e He; left; unfold from_input; eauto
    |intros retry].
  apply only_raises_if; apply only_raises_ret.
Qed.

End Keys.

Lemma failed_attempt_escapes_witness :
  let d := Entry (Some "bgen1") (Some "Count the orders.") None None None in
  (Dict.failed_attempt d "SELCT" (Some "syntax error")
     (Script.tutor0 false (Script.world0 ["2"]))).1
  = Raise (KeyError "solution")
  /\ (Dict.failed_attempt d "SELCT" (Some "syntax error")
        (Script.tutor0 false (Script.world0 ["1"]))).1
     = Return Continue
  /\ (from_input (KeyError "solution")
      \/ missing ["question"; "solution"] d (KeyError "solution")).
Proof.
  cbv zeta. split; [reflexivity|]. split; [reflexivity|].
  apply (failed_attempt_escapes
           (Entry (Some "bgen1") (Some "Count the orders.") None None None)
           "SELCT" (Some "syntax error")
           (Script.tutor0 false (Script.world0 ["2"]))).
  reflexivity.
Defined.

(** ** The methods on records are the methods on complete dicts *)

Section Complete.
Context {World : Type} `{Env World}.

Lemma bind_ext {A B} (m1 m2 : @M World A) (k1 k2 : A -> @M World B)
    (s : machine World) :
  (forall s, m1 s = m2 s) -> (forall a s', k1 a s' = k2 a s') ->
  bind m1 k1 s = bind m2 k2 s.
Proof.
  intros Hm Hk. unfold bind. rewrite Hm.
  destruct (m2 s) as [[a|e] s']; [apply Hk|done].
Qed.

Lemma get_ai_feedback_complete (qd : exercise) (q : string) (b : bool) :
  Dict.get_ai_feedback (of_exercise qd) q b = get_ai_feedback qd q b.
Proof. reflexivity. Qed.

Lemma get_progressive_hint_complete (qd : exercise) (q : string)
    (score : float) (attempt : nat) (s : machine World) :
  Dict.get_progressive_hint (of_exercise qd) q score attempt s
  = get_progressive_hint qd q score attempt s.
Proof.
  unfold Dict.get_progressive_hint, get_progressive_hint, bind, get, basic_hint.
  destruct (client s); [reflexivity|]. simpl.
  by destruct (float_lt f0_8 score), (float_lt f0_6 score),
    (float_lt f0_4 score).
Qed.

Lemma failed_attempt_complete (qd : exercise) (q : string)
    (error : option string) :
  Dict.failed_attempt (of_exercise qd) q error = failed_attempt qd q error.
Proof. reflexivity. Qed.

Lemma correct_attempt_complete level (qd : exercise) (attempt : nat)
    (r : execution) :
  @Dict.correct_attempt World level (of_exercise qd) attempt r
  = correct_attempt level qd attempt r.
Proof. reflexivity. Qed.

Lemma bind_item {A B} (key : string) (a : A) (k : A -> @M World B)
    (s : machine World) :
  bind (of_py (item key (Some a))) k s = k a s.
Proof. reflexivity. Qed.

Ltac same_step :=
  first [ reflexivity
        | rewrite bind_item; cbv beta
        | progress (cbn [of_exercise solution_item]); rewrite bind_item;
          cbv beta
        | apply bind_ext; [intros ?; reflexivity|intros ? ?]
        | apply bind_ext;
            [intros ?; apply get_progressive_hint_complete|intros ? ?] ].

Lemma incorrect_attempt_complete (qd : exercise) (q : string) (attempt : nat)
    (r : execution) (s : machine World) :
  Dict.incorrect_attempt (of_exercise qd) q attempt r s
  = incorrect_attempt qd q attempt r s.
Proof.
  unfold Dict.incorrect_attempt, incorrect_attempt.
  do 11 same_step.
  destruct (attempt <? max_attempts)%nat; repeat same_step.
Qed.

(** On an exercise that has its keys, an attempt on the dict is the
    attempt on the record. *)
Lemma attempt_body_complete level (qd : exercise) (attempt : nat)
    (s : machine World) :
  Dict.attempt_body level (of_exercise qd) attempt s
  = attempt_body level qd attempt s.
Proof.
  unfold Dict.attempt_body, attempt_body.
  repeat (apply bind_ext; [intros ?; reflexivity|intros ? ?]).
  destruct (negb (success a1)); [reflexivity|].
  cbn [of_exercise solution_item]. rewrite bind_item. cbv beta.
  apply bind_ext; [intros ?; reflexivity|intros is_correct s1].
  destruct is_correct; [reflexivity|apply incorrect_attempt_complete].
Qed.

End Complete.

(** ** What aborts an attempt *)






Section Aborts.
Context {World : Type} `{Env World}.












End Aborts.



(** ** A correct attempt *)

Section Correct.
Context {World : Type} `{Env World}.

Lemma display_results_emits (r : execution) (s : machine World) :
  well_formed r ->
  exists new, display_results (results r) (columns r) s = (Return tt, emit s new).
Proof.
  intros [(rows & cols & ->) | (msg & ->)]; unfold display_results; simpl.
  2: { exists [EvNoRows]. reflexivity. }
  destruct rows as [|r rows].
  { exists [EvNoRows]. reflexivity. }
  rewrite (bind_eq (print (EvHeader cols)) _ s (emit s [EvHeader cols]) tt
             eq_refl).
  rewrite (bind_eq _ _ _ _ _ (print_rows_emits _ _)). rewrite emit_emit.
  destruct (10 <? _)%nat.
  - eexists. unfold print, emit.
    cbn [world client queries completed_exercises stdout].
    rewrite <- app_assoc. reflexivity.
  - eexists. reflexivity.
Qed.

Lemma print_eq (e : event) (s : machine World) :
  print e s = (Return tt, emit s [e]).
Proof. done. Qed.

Lemma print_emit (e : event) (s : machine World) (l : list event) :
  print e (emit s l) = (Return tt, emit s (l ++ [e])).
Proof.
  unfold print, emit. cbn [world client queries completed_exercises stdout].
  by rewrite <- app_assoc.
Qed.

Definition with_completed (s : machine World)
    (d : gmap string (gset string)) : machine World :=
  Machine (world s) (client s) (queries s) d (stdout s).

Lemma mark_completed_eq (level exercise_id : string) (s : machine World)
    (done : gset string) :
  completed_exercises s !! level = Some done ->
  mark_completed level exercise_id s
  = (Return tt,
     with_completed s
       (<[level := {[exercise_id]} ∪ done]> (completed_exercises s))).
Proof. intros E. unfold mark_completed. by rewrite E. Qed.

Lemma getitem_eq {A} (f : machine World -> gmap string A) (level : string)
    (s : machine World) (a : A) :
  f s !! level = Some a ->
  bind (get f) (fun d => of_py (getitem d level)) s = (Return a, s).
Proof. intros E. unfold bind, get, of_py, getitem. by rewrite E. Qed.

(** The tutor's tables and the client stay as they are. *)
Definition same_tutor : relation (machine World) :=
  fun s s' => client s' = client s /\ queries s' = queries s
              /\ completed_exercises s' = completed_exercises s.

#[global] Instance same_tutor_frame : Frame same_tutor (fun _ => True).
Proof.
  split; unfold same_tutor; simpl; try done.
  intros s1 s2 s3 (? & ? & ?) (? & ? & ?). repeat split; congruence.
Qed.

(** An attempt judged correct, at a level the tutor has tables for, ends
    the loop: it adds the id of the exercise to the completion set of
    that level, leaving the sets of the other levels and the exercises
    as they were, and prints the progress with the new count. *)
Theorem correct_attempt_completes (level : string) (query_data : exercise)
    (attempt : nat) (s : machine World) (done : gset string)
    (exercises : list exercise) :
  judged_correct query_data attempt s = true ->
  completed_exercises s !! level = Some done ->
  queries s !! level = Some exercises ->
  exists s',
    attempt_body level query_data attempt s = (Return Break, s')
    /\ completed_exercises s'
       = <[level := {[ex_id query_data]} ∪ done]> (completed_exercises s)
    /\ queries s' = queries s
    /\ EvProgress (size ({[ex_id query_data]} ∪ done)) (length exercises)
       ∈ stdout s'.
Proof.
  unfold judged_correct, attempt_body. intros Hok Hdone Hexs.
  change (print (EvPrompt attempt) s) with (Return tt, emit s [EvPrompt attempt])
    in Hok.
  rewrite (bind_eq (print (EvPrompt attempt)) _ s _ tt eq_refl).
  set (s0 := emit s [EvPrompt attempt]) in *. cbn [snd] in Hok.
  pose proof (respects_lift same_tutor (fun _ => True) input s0) as K1.
  destruct (lift input s0) as [[line|e] s1] eqn:E1; [|done].
  rewrite (bind_eq _ _ _ _ _ E1). cbv zeta.
  pose proof (respects_execute_query same_tutor (fun _ => True)
                (strip line) s1) as K2.
  pose proof (yields_execute_query (strip line) s1) as W2.
  destruct (execute_query (strip line) s1) as [[r|e] s2] eqn:E2; [|done].
  rewrite (bind_eq _ _ _ _ _ E2).
  destruct (success r) eqn:Hs; [|done]. cbn [negb andb] in *.
  pose proof (respects_compare_results same_tutor (fun _ => True)
                (strip line) (solution query_data) s2) as K3.
  destruct (compare_results (strip line) (solution query_data) s2)
    as [[[|]|e] s3] eqn:E3; try done.
  rewrite (bind_eq _ _ _ _ _ E3).
  cbn [fst snd] in *. specialize (W2 r eq_refl).
  destruct K1 as (_ & Q1 & C1), K2 as (_ & Q2 & C2), K3 as (_ & Q3 & C3).
  assert (Hc3 : completed_exercises s3 = completed_exercises s)
    by (rewrite C3, C2, C1; done).
  assert (Hq3 : queries s3 = queries s) by (rewrite Q3, Q2, Q1; done).
  clear E1 E2 E3 Q1 Q2 Q3 C1 C2 C3 Hok.
  unfold correct_attempt.
  rewrite (bind_eq (print EvCorrect) _ s3 (emit s3 [EvCorrect]) tt eq_refl).
  set (m := if (1 <? attempt)%nat then print (EvSolvedIn attempt) else ret tt).
  assert (exists l, m (emit s3 [EvCorrect]) = (Return tt, emit s3 l))
    as [l El].
  { unfold m. destruct (1 <? attempt)%nat.
    - exists [EvCorrect; EvSolvedIn attempt]. apply print_emit.
    - by exists [EvCorrect]. }
  rewrite (bind_eq _ _ _ _ _ El). clear m El.
  assert (Hst : completed_exercises (emit s3 l) !! level = Some done)
    by (cbn [emit completed_exercises]; by rewrite Hc3).
  rewrite (bind_eq _ _ _ _ _ (mark_completed_eq level _ _ done Hst)).
  set (st := with_completed _ _).
  assert (Hq : queries st !! level = Some exercises)
    by (cbn [st with_completed emit queries]; by rewrite Hq3).
  rewrite (bind_eq _ _ _ _ _ (getitem_eq queries level st exercises Hq)).
  assert (Hd : completed_exercises st !! level
               = Some ({[ex_id query_data]} ∪ done))
    by (cbn [st with_completed completed_exercises]; apply lookup_insert_eq).
  rewrite (bind_eq _ _ _ _ _ (getitem_eq completed_exercises level st _ Hd)).
  rewrite (bind_eq _ _ _ _ _ (print_eq _ st)).
  rewrite (bind_eq _ _ _ _ _ (print_emit _ _ _)).
  destruct (display_results_emits r
              (emit st [EvProgress (size ({[ex_id query_data]} ∪ done))
                          (length exercises); EvYourResults]) W2)
    as [new Enew].
  rewrite (bind_eq _ _ _ _ _ Enew).
  eexists. split; [reflexivity|].
  cbn [emit st with_completed completed_exercises queries stdout].
  rewrite Hc3, Hq3. split; [done|]. split; [done|].
  rewrite !elem_of_app. left. right. left.
Qed.

End Correct.

Lemma correct_attempt_completes_witness :
  let s := Script.tutor0 false
             (Script.world0 ["  SELECT id FROM users ORDER BY id DESC;  "]) in
  judged_correct Script.beginner 1 s = true
  /\ exists s',
       attempt_body "beginner" Script.beginner 1 s = (Return Break, s')
       /\ completed_exercises s'
          = <["beginner" := {["b1"]} ∪ ∅]> (completed_exercises s)
       /\ queries s' = queries s
       /\ EvProgress (size ({["b1"]} ∪ (∅ : gset string))) 1 ∈ stdout s'.
Proof.
  split; [reflexivity|].
  apply (correct_attempt_completes "beginner" Script.beginner 1
           (Script.tutor0 false
              (Script.world0
                 ["  SELECT id FROM users ORDER BY id DESC;  "]))
           ∅ [Script.beginner]); reflexivity.
Defined.

(** ** Prompts and the solution in the output of a session *)

Definition is_prompt (e : event) : bool :=
  match e with EvPrompt _ => true | _ => false end.

Definition is_solution (e : event) : bool :=
  match e with EvSolution _ => true | _ => false end.

(** The prompts among the events of [l], in their order. *)
Definition prompts (l : list event) : list event := List.filter is_prompt l.

(** How many times [l] shows a solution. *)
Definition solutions (l : list event) : nat :=
  length (List.filter is_solution l).

Lemma prompts_app (l1 l2 : list event) :
  prompts (l1 ++ l2) = prompts l1 ++ prompts l2.
Proof. apply List.filter_app. Qed.

Lemma solutions_app (l1 l2 : list event) :
  solutions (l1 ++ l2) = solutions l1 + solutions l2.
Proof. unfold solutions. by rewrite List.filter_app, length_app. Qed.

Lemma prompts_none (l : list event) :
  Forall (fun e => is_prompt e = false) l -> prompts l = [].
Proof.
  induction 1 as [|e l He _ IH]; [done|]. unfold prompts in *. simpl.
  by rewrite He.
Qed.

Lemma solutions_none (l : list event) :
  Forall (fun e => is_solution e = false) l -> solutions l = 0.
Proof.
  induction 1 as [|e l He _ IH]; [done|]. unfold solutions in *. simpl.
  by rewrite He.
Qed.

Section Output.
Context {World : Type} `{Env World}.

(** [only_prints P m]: [m] appends events of [P] to the output. *)
Definition only_prints {A} (P : event -> bool) (m : @M World A) : Prop :=
  respects (appended (fun e => P e = true)) m.

Section OnlyPrints.
Context (P : event -> bool).

Let R : relation (machine World) := appended (fun e => P e = true).

Lemma only_prints_event (e : event) : P e = true -> only_prints P (print e).
Proof. intros He. by apply (respects_print R (fun e => P e = true)). Qed.

Lemma only_prints_bind {A B} (m : @M World A) (k : A -> @M World B) :
  only_prints P m -> (forall a, only_prints P (k a)) -> only_prints P (bind m k).
Proof. apply (respects_bind R (fun e => P e = true)). Qed.

Lemma only_prints_mark_completed (level exercise_id : string) :
  only_prints P (mark_completed level exercise_id).
Proof.
  intros s. unfold mark_completed.
  destruct (completed_exercises s !! level); exists []; simpl;
    by rewrite app_nil_r.
Qed.

Lemma only_prints_rows (rows : list row) :
  (forall r, P (EvRow r) = true) -> only_prints P (print_rows rows).
Proof.
  intros HP. induction rows as [|r rows IH]; simpl.
  - apply (respects_ret R (fun e => P e = true)).
  - apply only_prints_bind; [by apply only_prints_event|done].
Qed.

(** The events of [display_results] and [print_hint] are in [P]. *)
Hypothesis display_events :
  forall e, is_prompt e = false -> is_solution e = false -> P e = true.

Lemma only_prints_display rs cs : only_prints P (display_results rs cs).
Proof.
  unfold display_results.
  destruct rs as [[|r l]|]; try by apply only_prints_event, display_events.
  destruct cs; [|apply (respects_raise R (fun e => P e = true))].
  apply only_prints_bind; [by apply only_prints_event, display_events|intros _].
  apply only_prints_bind;
    [apply only_prints_rows; intros; by apply display_events|intros _].
  apply respects_if; [by apply only_prints_event, display_events|].
  apply (respects_ret R (fun e => P e = true)).
Qed.

Lemma only_prints_hint qd : only_prints P (print_hint qd).
Proof.
  unfold print_hint.
  destruct (hint qd); [|apply (respects_ret R (fun e => P e = true))].
  apply respects_if; [apply (respects_ret R (fun e => P e = true))|].
  by apply only_prints_event, display_events.
Qed.

End OnlyPrints.
End Output.

Ltac prints_step P HP :=
  first
    [ apply only_prints_event; (reflexivity || (apply HP; reflexivity))
    | apply (only_prints_display P HP) | apply (only_prints_hint P HP)
    | apply only_prints_mark_completed
    | apply (respects_execute_query _ (fun e => P e = true))
    | apply (respects_compare_results _ (fun e => P e = true))
    | apply (respects_calculate_query_similarity _ (fun e => P e = true))
    | apply (respects_get_ai_feedback _ (fun e => P e = true))
    | apply (respects_get_progressive_hint _ (fun e => P e = true))
    | apply (respects_lift _ (fun e => P e = true))
    | apply (respects_get _ (fun e => P e = true))
    | apply (respects_of_py _ (fun e => P e = true))
    | apply (respects_ret _ (fun e => P e = true))
    | apply (respects_try_except _ (fun e => P e = true)); [|intros ?]
    | apply respects_if
    | apply only_prints_bind; [|intros ?] ].

Section Prompts.
Context {World : Type} `{Env World}.

Definition not_prompt (e : event) : bool := negb (is_prompt e).

Lemma not_prompt_display (e : event) :
  is_prompt e = false -> is_solution e = false -> not_prompt e = true.
Proof. unfold not_prompt. by intros ->. Qed.

(** After its prompt an attempt prints no other prompt. *)
Lemma attempt_body_prompt level qd (attempt : nat) (s : machine World) :
  exists rest,
    stdout (attempt_body level qd attempt s).2
    = stdout s ++ EvPrompt attempt :: rest
    /\ prompts rest = [].
Proof.
  unfold attempt_body. unfold bind at 1.
  change (print (EvPrompt attempt) s) with (Return tt, emit s [EvPrompt attempt]).
  cbv iota beta.
  match goal with
  | |- context [stdout (?m (emit s _)).2] =>
      assert (Hm : only_prints not_prompt m)
  end.
  { unfold correct_attempt, incorrect_attempt, failed_attempt.
    repeat prints_step not_prompt not_prompt_display. }
  destruct (Hm (emit s [EvPrompt attempt])) as (rest & -> & Hrest).
  exists rest. simpl. rewrite <- app_assoc. split; [done|].
  apply prompts_none. eapply Forall_impl; [exact Hrest|].
  intros e. unfold not_prompt. by destruct (is_prompt e).
Qed.

Lemma attempt_loop_prompts (fuel : nat) level qd (attempt : nat)
    (s : machine World) :
  exists new k,
    stdout (attempt_loop fuel level qd attempt s).2 = stdout s ++ new
    /\ prompts new = map EvPrompt (seq (S attempt) k)
    /\ attempt + k <= Nat.max attempt max_attempts
    /\ forall n, (attempt_loop fuel level qd attempt s).1 = Return (Some n) ->
                 n = attempt + k.
Proof.
  revert attempt s. induction fuel as [|fuel IH]; intros attempt s; simpl.
  { exists [], 0. rewrite app_nil_r. repeat split; [lia|done]. }
  destruct (Nat.ltb_spec attempt max_attempts) as [Hlt|Hge].
  - unfold bind.
    destruct (attempt_body_prompt level qd (S attempt) s) as (rest & E1 & P1).
    destruct (attempt_body level qd (S attempt) s) as [[[|]|e] s1]; simpl in *.
    + destruct (IH (S attempt) s1) as (new & k & E2 & P2 & Hk & Hn).
      exists ((EvPrompt (S attempt) :: rest) ++ new), (S k).
      rewrite E2, E1, <- app_assoc. split; [done|].
      rewrite prompts_app. change (prompts (EvPrompt (S attempt) :: rest))
        with (EvPrompt (S attempt) :: prompts rest).
      rewrite P1, P2. split; [done|]. split; [lia|].
      intros n En. rewrite (Hn n En). lia.
    + exists (EvPrompt (S attempt) :: rest), 1. split; [done|].
      change (prompts (EvPrompt (S attempt) :: rest))
        with (EvPrompt (S attempt) :: prompts rest).
      rewrite P1. split; [done|]. split; [lia|]. intros n [= <-]. lia.
    + exists (EvPrompt (S attempt) :: rest), 1. split; [done|].
      change (prompts (EvPrompt (S attempt) :: rest))
        with (EvPrompt (S attempt) :: prompts rest).
      rewrite P1. split; [done|]. split; [lia|]. done.
  - exists [], 0. rewrite app_nil_r. split; [done|]. split; [done|].
    split; [lia|]. intros n [= <-]. lia.
Qed.

(** Every attempt takes one slot, whether its query runs or not: the
    prompts of a session are numbered 1, 2, ... in order without a gap
    or a repeat, there are at most [max_attempts] of them, and the
    counter the loop is left with is their number. *)
Theorem prompts_count_attempts (level : string) (query_data : exercise)
    (s : machine World) :
  exists new k,
    stdout (practice_attempts level query_data s).2 = stdout s ++ new
    /\ prompts new = map EvPrompt (seq 1 k)
    /\ k <= max_attempts
    /\ (practice_attempts level query_data s).1 <> Return None
    /\ forall n, (practice_attempts level query_data s).1 = Return (Some n) ->
                 n = k.
Proof.
  destruct (attempt_loop_prompts (S max_attempts) level query_data 0 s)
    as (new & k & E & P & Hk & Hn).
  exists new, k. split; [done|]. split; [done|]. split; [simpl in Hk; lia|].
  split; [|done].
  apply attempt_loop_leaves; unfold max_attempts; lia.
Qed.

End Prompts.

Section Reveal.
Context {World : Type} `{Env World}.

Definition not_solution (e : event) : bool := negb (is_solution e).

Lemma not_solution_display (e : event) :
  is_prompt e = false -> is_solution e = false -> not_solution e = true.
Proof. unfold not_solution. by intros _ ->. Qed.

Lemma only_prints_no_solution {A} (m : @M World A) (s : machine World) :
  only_prints not_solution m ->
  exists new, stdout (m s).2 = stdout s ++ new /\ solutions new = 0.
Proof.
  intros Hm. destruct (Hm s) as (new & E & Hnew). exists new. split; [done|].
  apply solutions_none. eapply Forall_impl; [exact Hnew|].
  intros e. unfold not_solution. by destruct (is_solution e).
Qed.

(** [closes m]: [m] shows no solution and does not ask for the loop to
    go on. *)
Definition closes (m : @M World control) : Prop :=
  only_prints not_solution m /\ forall s, (m s).1 <> Return Continue.

(** [reveals_once m]: [m] shows the solution at most once, and not at
    all when it asks for the loop to go on. *)
Definition reveals_once (m : @M World control) : Prop :=
  forall s, exists new,
    stdout (m s).2 = stdout s ++ new
    /\ solutions new <= 1
    /\ ((m s).1 = Return Continue -> solutions new = 0).

Lemma closes_ret : closes (ret Break).
Proof.
  split; [apply (respects_ret _ (fun e => not_solution e = true))|done].
Qed.

Lemma closes_bind {A} (m : @M World A) (k : A -> @M World control) :
  only_prints not_solution m -> (forall a, closes (k a)) -> closes (bind m k).
Proof.
  intros Hm Hk. split.
  - apply only_prints_bind; [done|]. intros a. apply Hk.
  - intros s. unfold bind. destruct (m s) as [[a|e] s1]; [apply Hk|done].
Qed.

Lemma reveals_once_ret (c : control) : reveals_once (ret c).
Proof. intros s. exists []. rewrite app_nil_r. repeat split; auto. Qed.

Lemma reveals_once_if (b : bool) (m1 m2 : @M World control) :
  reveals_once m1 -> reveals_once m2 -> reveals_once (if b then m1 else m2).
Proof. by destruct b. Qed.

Lemma reveals_once_bind {A} (m : @M World A) (k : A -> @M World control) :
  only_prints not_solution m -> (forall a, reveals_once (k a)) ->
  reveals_once (bind m k).
Proof.
  intros Hm Hk s. unfold bind.
  destruct (only_prints_no_solution m s Hm) as (n1 & E1 & S1).
  destruct (m s) as [[a|e] s1]; simpl in *.
  - destruct (Hk a s1) as (n2 & E2 & S2 & C2). exists (n1 ++ n2).
    rewrite E2, E1, app_assoc, solutions_app, S1. auto.
  - exists n1. rewrite S1. split; [done|]. split; [lia|done].
Qed.

Lemma reveals_once_solution (sol : string) (k : unit -> @M World control) :
  closes (k tt) -> reveals_once (bind (print (EvSolution sol)) k).
Proof.
  intros [Hk Hc] s. rewrite (bind_eq _ _ _ _ _ (print_eq _ s)).
  destruct (only_prints_no_solution (k tt) (emit s [EvSolution sol]) Hk)
    as (n2 & E2 & S2).
  exists (EvSolution sol :: n2). rewrite E2.
  cbn [emit stdout]. rewrite <- app_assoc.
  split; [done|].
  change (solutions (EvSolution sol :: n2)) with (S (solutions n2)).
  rewrite S2. split; [lia|]. intros Hcont. by destruct (Hc _ Hcont).
Qed.

Ltac quiet := repeat prints_step not_solution not_solution_display.

Ltac reveal_step :=
  first
    [ apply reveals_once_ret
    | apply reveals_once_solution;
        repeat first [ apply closes_ret
                     | apply closes_bind; [quiet|intros ?] ]
    | apply reveals_once_if
    | apply reveals_once_bind; [quiet|intros ?] ].

Lemma reveals_once_attempt_body level qd (attempt : nat) :
  reveals_once (attempt_body level qd attempt).
Proof.
  unfold attempt_body, failed_attempt, correct_attempt, incorrect_attempt.
  repeat reveal_step.
Qed.

(** A session shows the reference solution at most once, and never on
    an attempt after which the loop goes on to the next one. *)
Theorem solution_shown_once (fuel : nat) (level : string)
    (query_data : exercise) (attempt : nat) (s : machine World) :
  (exists new,
     stdout (attempt_loop fuel level query_data attempt s).2 = stdout s ++ new
     /\ solutions new <= 1)
  /\ exists new,
       stdout (attempt_body level query_data attempt s).2 = stdout s ++ new
       /\ solutions new <= 1
       /\ match (attempt_body level query_data attempt s).1 with
          | Return Continue => solutions new = 0
          | _ => True
          end.
Proof.
  split.
  - revert attempt s. induction fuel as [|fuel IH]; intros attempt s; simpl.
    { exists []. rewrite app_nil_r. split; [done|]. unfold solutions. simpl. lia. }
    destruct (attempt <? max_attempts)%nat.
    + unfold bind.
      destruct (reveals_once_attempt_body level query_data (S attempt) s)
        as (n1 & E1 & S1 & C1).
      destruct (attempt_body level query_data (S attempt) s)
        as [[[|]|e] s1]; simpl in *.
      * destruct (IH (S attempt) s1) as (n2 & E2 & S2). exists (n1 ++ n2).
        rewrite E2, E1, app_assoc, solutions_app, (C1 eq_refl). auto.
      * by exists n1.
      * by exists n1.
    + exists []. rewrite app_nil_r. split; [done|]. unfold solutions. simpl. lia.
  - destruct (reveals_once_attempt_body level query_data attempt s)
      as (n1 & E1 & S1 & C1).
    exists n1. split; [done|]. split; [done|].
    destruct (attempt_body level query_data attempt s).1 as [[|]|e]; auto.
Qed.

End Reveal.

(** ** The tiers in the order of the scores *)

Lemma SFcompare_defined (x y z : spec_float) (c c' : comparison) :
  SFcompare x y = Some c -> SFcompare y z = Some c' ->
  exists c'', SFcompare x z = Some c''.
Proof.
  destruct x as [?|?| |? ? ?], y as [?|?| |? ? ?]; simpl; try done;
    destruct z as [?|?| |? ? ?]; simpl; try done; eauto.
Qed.

Lemma float_lt_le_trans (c x y : float) :
  float_lt c x = true -> float_le x y = true -> float_lt c y = true.
Proof.
  unfold float_le, float_lt, SFleb, SFltb.
  destruct (SFcompare c x) as [c1|] eqn:E1; [|done].
  destruct (SFcompare x y) as [c2|] eqn:E2; [|done].
  destruct (SFcompare_defined c x y c1 c2 E1 E2) as [c3 E3]. rewrite E3.
  apply SFcompare_key in E1, E2, E3.
  intros H1 H2. destruct c1; try done. symmetry in E1. apply lex3_lt in E1.
  assert (lex3 (float_key c) (float_key y) = Lt) as Hlt; [|by rewrite E3, Hlt].
  apply lex3_lt. destruct c2; try done.
  - symmetry in E2. unfold lex3 in E2.
    destruct (Z.compare_spec (float_key x).1.1 (float_key y).1.1),
      (Z.compare_spec (float_key x).1.2 (float_key y).1.2),
      (Z.compare_spec (float_key x).2 (float_key y).2); try done; lia.
  - symmetry in E2. apply lex3_lt in E2. lia.
Qed.

Lemma hints_apart (query_data : exercise) :
  near_miss_hint <> on_track_hint /\ near_miss_hint <> partial_hint
  /\ on_track_hint <> partial_hint
  /\ near_miss_hint <> off_track_hint query_data
  /\ on_track_hint <> off_track_hint query_data
  /\ partial_hint <> off_track_hint query_data.
Proof. repeat split; discriminate. Qed.

(** The tiers follow the scores: of two scores, the higher never gets
    the lower tier.  A score at least as high as one that gets the
    near-miss hint gets it too; as one that gets the on-track hint, gets
    that or the near-miss hint; as one that gets the partial hint, does
    not get the off-track hint. *)
Theorem basic_hint_monotone (query_data : exercise) (s1 s2 : float) :
  float_le s1 s2 = true ->
  (basic_hint query_data s1 = near_miss_hint ->
   basic_hint query_data s2 = near_miss_hint)
  /\ (basic_hint query_data s1 = on_track_hint ->
      basic_hint query_data s2 = on_track_hint
      \/ basic_hint query_data s2 = near_miss_hint)
  /\ (basic_hint query_data s1 = partial_hint ->
      basic_hint query_data s2 <> off_track_hint query_data)
  /\ (basic_hint query_data s2 = off_track_hint query_data ->
      basic_hint query_data s1 = off_track_hint query_data).
Proof.
  intros Hle.
  pose proof (fun c H => float_lt_le_trans c s1 s2 H Hle) as Hup.
  destruct (hints_apart query_data) as (N1 & N2 & N3 & N4 & N5 & N6).
  unfold basic_hint.
  destruct (float_lt f0_8 s1) eqn:A8; [rewrite (Hup f0_8 A8)|];
    [repeat split; intros; congruence|].
  destruct (float_lt f0_6 s1) eqn:A6; [rewrite (Hup f0_6 A6)|].
  { destruct (float_lt f0_8 s2); repeat split; intros; auto; congruence. }
  destruct (float_lt f0_4 s1) eqn:A4; [rewrite (Hup f0_4 A4)|].
  { destruct (float_lt f0_8 s2), (float_lt f0_6 s2); repeat split; intros;
      auto; congruence. }
  destruct (float_lt f0_8 s2), (float_lt f0_6 s2), (float_lt f0_4 s2);
    repeat split; intros; auto; congruence.
Qed.

Lemma basic_hint_monotone_witness :
  float_le f0_6 f1_0 = true
  /\ basic_hint Script.beginner f0_6 = partial_hint
  /\ basic_hint Script.beginner f1_0 <> off_track_hint Script.beginner.
Proof.
  split; [reflexivity|]. split; [reflexivity|].
  apply (basic_hint_monotone Script.beginner f0_6 f1_0); reflexivity.
Defined.

(** ** Marking *)

Section Marking.
Context {World : Type} `{Env World}.

(** Marking at a level the tutor has a set for returns, puts the id in
    the set of that level, keeps what was there, and leaves the other
    levels, the exercises and the output as they were; at any other
    level it raises [KeyError] and changes nothing. *)
Theorem mark_completed_lookup (level exercise_id : string)
    (s : machine World) :
  match completed_exercises s !! level with
  | Some marked =>
      exists s',
        mark_completed level exercise_id s = (Return tt, s')
        /\ completed_exercises s' !! level = Some ({[exercise_id]} ∪ marked)
        /\ exercise_id ∈ completed_exercises s' !!! level
        /\ marked ⊆ completed_exercises s' !!! level
        /\ (forall other, other <> level ->
              completed_exercises s' !! other = completed_exercises s !! other)
        /\ queries s' = queries s /\ stdout s' = stdout s
        /\ world s' = world s
  | None => mark_completed level exercise_id s = (Raise (KeyError level), s)
  end.
Proof.
  unfold mark_completed.
  destruct (completed_exercises s !! level) as [marked|] eqn:E; [|done].
  eexists. split; [reflexivity|]. cbn [completed_exercises queries stdout world].
  rewrite lookup_total_insert_eq, lookup_insert_eq.
  split; [done|]. split; [by apply elem_of_union_l, elem_of_singleton|].
  split; [apply union_subseteq_r|]. split; [|done].
  intros other Hother. by apply lookup_insert_ne.
Qed.

End Marking.

Lemma mark_completed_lookup_witness :
  let s := Script.tutor0 false (Script.world0 []) in
  completed_exercises (mark_completed "beginner" "b1" s).2 !! "advanced"
  = completed_exercises s !! "advanced"
  /\ mark_completed "expert" "x1" s = (Raise (KeyError "expert"), s).
Proof.
  split.
  - pose proof (mark_completed_lookup "beginner" "b1"
                  (Script.tutor0 false (Script.world0 []))) as T.
    change (completed_exercises (Script.tutor0 false (Script.world0 []))
              !! "beginner") with (Some (∅ : gset string)) in T.
    destruct T as (s' & E & _ & _ & _ & Hother & _).
    cbv zeta. rewrite E. apply Hother. discriminate.
  - apply (mark_completed_lookup "expert" "x1"
             (Script.tutor0 false (Script.world0 []))).
Defined.

(** * The choice of the exercise *)

(** ** Cutting the object out of the answer *)

Fixpoint occurs (c : ascii) (s : string) : bool :=
  match s with
  | EmptyString => false
  | String d s' => Ascii.eqb d c || occurs c s'
  end.

Lemma from_brace_app (pre t : string) :
  occurs "{" pre = false ->
  from_brace (pre +:+ String "{" t) = Some (String "{" t).
Proof.
  induction pre as [|c pre IH]; simpl; [done|].
  intros [Hc Hpre]%orb_false_iff. rewrite Hc. by apply IH.
Qed.

Lemma from_brace_inv (s t : string) :
  from_brace s = Some t ->
  exists pre t', s = pre +:+ String "{" t' /\ t = String "{" t'
                 /\ occurs "{" pre = false.
Proof.
  induction s as [|c s IH]; simpl; [done|].
  destruct (Ascii.eqb c "{") eqn:Ec.
  - intros [= <-]. apply Ascii.eqb_eq in Ec as ->. by exists EmptyString, s.
  - intros (pre & t' & -> & -> & Hpre)%IH. exists (String c pre), t'.
    simpl. by rewrite Ec, Hpre.
Qed.

Lemma upto_brace_none (s : string) :
  occurs "}" s = false -> upto_brace s = None.
Proof.
  induction s as [|c s IH]; simpl; [done|].
  intros [Hc Hs]%orb_false_iff. by rewrite (IH Hs), Hc.
Qed.

Lemma upto_brace_app (body post : string) :
  occurs "}" post = false ->
  upto_brace (body +:+ String "}" post) = Some (body +:+ "}").
Proof.
  intros Hpost. induction body as [|c body IH]; simpl.
  - by rewrite (upto_brace_none post Hpost).
  - by rewrite IH.
Qed.

Lemma upto_brace_inv (s p : string) :
  upto_brace s = Some p ->
  exists body post, s = body +:+ String "}" post /\ p = body +:+ "}"
                    /\ occurs "}" post = false.
Proof.
  revert p. induction s as [|c s IH]; simpl; [done|]. intros p.
  destruct (upto_brace s) as [p'|] eqn:E.
  - intros [= <-]. destruct (IH p' eq_refl) as (body & post & -> & -> & Hpost).
    by exists (String c body), post.
  - destruct (Ascii.eqb c "}") eqn:Ec; [|done].
    intros [= <-]. apply Ascii.eqb_eq in Ec as ->.
    exists EmptyString, s. repeat split.
    clear IH. induction s as [|d s IH]; simpl in *; [done|].
    destruct (upto_brace s); [done|].
    destruct (Ascii.eqb d "}"); [done|]. by apply IH.
Qed.

(** The object is cut out of the text around it: [json_match] finds [m]
    exactly when the text is some [pre], an opening brace, a body, a
    closing brace and some [post], with no opening brace in [pre] and no
    closing brace in [post], and [m] is the part from brace to brace. *)
Theorem json_match_cuts (s m : string) :
  json_match s = Some m <->
  exists pre body post,
    s = pre +:+ "{" +:+ body +:+ "}" +:+ post
    /\ occurs "{" pre = false /\ occurs "}" post = false
    /\ m = "{" +:+ body +:+ "}".
Proof.
  unfold json_match. split.
  - destruct (from_brace s) as [t|] eqn:E; [|done].
    destruct (from_brace_inv s t E) as (pre & t' & -> & -> & Hpre).
    intros (body & post & Eb & -> & Hpost)%upto_brace_inv.
    destruct body as [|c body]; simpl in Eb; [done|].
    injection Eb as <- ->. by exists pre, body, post.
  - intros (pre & body & post & -> & Hpre & Hpost & ->).
    change ("{" +:+ body +:+ "}" +:+ post)
      with (String "{" (body +:+ String "}" post)).
    rewrite (from_brace_app pre _ Hpre).
    by apply (upto_brace_app (String "{" body) post).
Qed.

(** ** The tables offered to the advisor *)

(** The names handed to the advisor are the first columns of the rows,
    in the order of the rows, without those of SQLite's own tables; the
    listing returns exactly when every row starts with a text. *)
Theorem table_names_lists (rows : list row) (names : list string) :
  table_names rows = Return names <->
  exists texts,
    Forall2 (fun r t => r !! 0%nat = Some (VText t)) rows texts
    /\ names = filter (fun t => String.prefix "sqlite_" t = false) texts.
Proof.
  revert names. induction rows as [|r rows IH]; intros names; simpl.
  - split.
    + intros [= <-]. exists []. by split; [constructor|].
    + intros (texts & F & ->). by inversion F.
  - unfold tuple_index. split.
    + destruct (r !! 0%nat) as [[| | |s|]|] eqn:E; simpl; try done.
      destruct (table_names rows) as [names'|] eqn:E'; simpl; [|done].
      destruct (proj1 (IH names') eq_refl) as (texts & F & ->).
      intros [= <-]. exists (s :: texts). split; [by constructor|].
      rewrite filter_cons.
      destruct (String.prefix "sqlite_" s) eqn:Ep;
        destruct (decide _); congruence.
    + intros (texts & F & ->). inversion F as [|? t ? texts' Hr F']; subst.
      rewrite Hr. simpl.
      rewrite (proj2 (IH _) (ex_intro _ texts' (conj F' eq_refl))). simpl.
      rewrite filter_cons.
      destruct (String.prefix "sqlite_" t) eqn:Ep;
        destruct (decide _); congruence.
Qed.

(** ** The shelf of a level *)

Section Shelves.
Context {World : Type} `{Env World} `{Library World}.

(** Only the outside world moves. *)
Definition only_world : relation (machine World) :=
  fun t t' => t' = set_world t (world t').

#[global] Instance only_world_frame : Frame only_world (fun _ => False).
Proof.
  split; unfold only_world; simpl.
  - by intros [].
  - intros s1 s2 s3 E1 E2. rewrite E2, E1. reflexivity.
  - done.
  - done.
Qed.

Lemma choice_moves {A} (seq : list A) : respects only_world (choice seq).
Proof.
  unfold choice. destruct seq as [|a seq].
  - apply (respects_raise only_world (fun _ => False)).
  - apply (respects_bind only_world (fun _ => False));
      [apply (respects_lift only_world (fun _ => False))|intros i].
    apply (respects_of_py only_world (fun _ => False)).
Qed.

Lemma list_tables_moves : respects only_world list_tables.
Proof.
  unfold list_tables.
  apply (respects_bind only_world (fun _ => False));
    [apply (respects_lift only_world (fun _ => False))|intros _].
  apply (respects_bind only_world (fun _ => False));
    [apply (respects_lift only_world (fun _ => False))|intros rows].
  apply (respects_of_py only_world (fun _ => False)).
Qed.

Lemma exercises_of_eq (level : string) (t : machine World)
    (entries : list exercise) :
  queries t !! level = Some entries ->
  exercises_of level t = (Return entries, t).
Proof. intros E. unfold exercises_of, bind, get, of_py, getitem. by rewrite E. Qed.

Lemma completed_of_eq (level : string) (t : machine World)
    (marked : gset string) :
  completed_exercises t !! level = Some marked ->
  completed_of level t = (Return marked, t).
Proof. intros E. unfold completed_of, bind, get, of_py, getitem. by rewrite E. Qed.

(** [random.choice] on a sequence that is not empty returns one of its
    items. *)
Lemma choice_returns {A} (seq : list A) (t : machine World) :
  seq <> [] ->
  exists a w, choice seq t = (Return a, set_world t w) /\ a ∈ seq.
Proof.
  intros Hseq. destruct seq as [|x seq]; [done|].
  unfold choice, bind, lift, of_py, index.
  pose proof (randbelow_lt (length (x :: seq)) (world t)) as Hlt.
  destruct (randbelow (length (x :: seq)) (world t)) as [i w]. simpl in Hlt.
  destruct (lookup_lt_is_Some_2 (x :: seq) i) as [a Ea]; [apply Hlt; lia|].
  rewrite Ea. exists a, w. split; [reflexivity|].
  by apply list_elem_of_lookup_2 in Ea.
Qed.

Definition empty_sequence : exn :=
  IndexError "Cannot choose from an empty sequence".

Lemma filter_nil_all (marked : gset string) (entries : list exercise) :
  filter (fun q => ex_id q ∉ marked) entries = [] ->
  Forall (fun q => ex_id q ∈ marked) entries.
Proof.
  induction entries as [|q entries IH]; [by constructor|].
  rewrite filter_cons. destruct (decide (ex_id q ∉ marked)) as [Hq|Hq]; [done|].
  intros E. constructor; [|by apply IH].
  by destruct (decide (ex_id q ∈ marked)).
Qed.

(** Lines 66-72 on a level with its completion set: an empty level makes
    [random.choice] raise; otherwise an exercise of the level is
    returned, and a completed one only when all of them are. *)
Lemma pick_chooses (level : string) (t : machine World)
    (entries : list exercise) (marked : gset string) :
  queries t !! level = Some entries ->
  completed_exercises t !! level = Some marked ->
  match entries with
  | [] => pick level t = (Raise empty_sequence, t)
  | _ =>
      exists q w,
        pick level t = (Return q, set_world t w) /\ q ∈ entries
        /\ (ex_id q ∈ marked -> Forall (fun q' => ex_id q' ∈ marked) entries)
  end.
Proof.
  intros Hq Hc. unfold pick.
  rewrite (bind_eq _ _ _ _ _ (exercises_of_eq level t entries Hq)).
  destruct entries as [|q0 entries].
  - unfold bind at 1, ret at 1.
    by rewrite (bind_eq _ _ _ _ _ (exercises_of_eq level t [] Hq)).
  - unfold bind at 1.
    rewrite (bind_eq _ _ _ _ _ (completed_of_eq level t marked Hc)).
    unfold ret at 1.
    destruct (filter (fun q => ex_id q ∉ marked) (q0 :: entries))
      as [|u uncompleted] eqn:Ef.
    + rewrite (bind_eq _ _ _ _ _ (exercises_of_eq level t _ Hq)).
      destruct (choice_returns (q0 :: entries) t) as (q & w & E & Hin); [done|].
      exists q, w. split; [exact E|]. split; [exact Hin|].
      intros _. by apply filter_nil_all.
    + destruct (choice_returns (u :: uncompleted) t) as (q & w & E & Hin);
        [done|].
      exists q, w. split; [exact E|]. rewrite <- Ef in Hin.
      apply list_elem_of_filter in Hin as [Hnot Hin]. split; [exact Hin|].
      intros Hm. by destruct Hnot.
Qed.

Lemma append_exercise_eq (level : string) (e : exercise) (t : machine World)
    (entries : list exercise) :
  queries t !! level = Some entries ->
  append_exercise level e t
  = (Return tt,
     Machine (world t) (client t) (<[level := entries ++ [e]]> (queries t))
             (completed_exercises t) (stdout t)).
Proof. intros E. unfold append_exercise. by rewrite E. Qed.

(** What the listing of the tables raises (lines 88-89, outside the
    [try]). *)
Definition from_tables (e : exn) : Prop :=
  exists t : machine World, (list_tables t).1 = Raise e.

End Shelves.

(** ** The generator *)

Section Generator.
Context {World : Type} `{Env World} `{Library World}.

(** The id of a generated exercise: the first character of the level,
    [gen] and the counter. *)
Definition generated_id (level : string) (counter : nat) (new_id : string)
    : Prop :=
  exists c, first_char level = Return c
            /\ new_id = String c ("gen" +:+ pretty counter).

(** The body of the [try]: it hands over an exercise with a fresh number
    or raises, and a failure after the decoding has used a number up. *)
Lemma generate_runs (level prompt : string) (s : selector World) :
  match Selection.generate level prompt s with
  | (Return (Some e), s') =>
      only_world (tutor s) (tutor s')
      /\ generated_exercise_counter s' = S (generated_exercise_counter s)
      /\ notices s' = notices s ++ [NewExercise (question e)]
      /\ generated_id level (generated_exercise_counter s') (ex_id e)
  | (Return None, _) => False
  | (Raise _, s') =>
      only_world (tutor s) (tutor s')
      /\ notices s' = notices s
      /\ (generated_exercise_counter s' = generated_exercise_counter s
          \/ generated_exercise_counter s' = S (generated_exercise_counter s))
  end.
Proof.
  cbv [Selection.generate Selection.bind Selection.engine Selection.of_py
       Selection.count Selection.get Selection.print Selection.ret].
  pose proof (respects_ask only_world (fun _ => False) 500%N prompt (tutor s))
    as Hask.
  destruct (ask 500 prompt (tutor s)) as [[text|e] t1]; simpl in *; [|by auto].
  destruct (json_loads _) as [d|e]; [|by auto].
  destruct (first_char level) as [c|e] eqn:Ec; simpl; [|by auto].
  destruct d as [|t| |q sol cs h]; simpl; auto.
  repeat split; [exact Hask|]. by exists c.
Qed.

(** [generate_new_exercise] on every outcome. *)
Lemma generate_new_exercise_runs (level : string) (s : selector World) :
  match Selection.generate_new_exercise level s with
  | (Return (Some e), s') =>
      client (tutor s) = true
      /\ only_world (tutor s) (tutor s')
      /\ generated_exercise_counter s' = S (generated_exercise_counter s)
      /\ notices s' = notices s ++ [NewExercise (question e)]
      /\ generated_id level (generated_exercise_counter s') (ex_id e)
  | (Return None, s') =>
      only_world (tutor s) (tutor s')
      /\ (exists n, notices s' = notices s ++ [n]
                    /\ (n = CannotGenerate \/ exists error, n = GenerationError error))
      /\ (generated_exercise_counter s' = generated_exercise_counter s
          \/ generated_exercise_counter s' = S (generated_exercise_counter s))
  | (Raise e, s') =>
      client (tutor s) = true
      /\ only_world (tutor s) (tutor s')
      /\ notices s' = notices s
      /\ generated_exercise_counter s' = generated_exercise_counter s
      /\ (e = KeyError level /\ queries (tutor s) !! level = None
          \/ from_tables e)
  end.
Proof.
  cbv [Selection.generate_new_exercise Selection.bind Selection.get
       Selection.engine Selection.print Selection.ret Selection.try_except].
  destruct (client (tutor s)) eqn:Ecl; simpl.
  2: { split; [apply (frame_refl (R := only_world))|].
       split; [|by left]. exists CannotGenerate. by split; [|left]. }
  unfold exercises_of, bind, get, of_py, getitem.
  destruct (queries (tutor s) !! level) as [entries|] eqn:Eq; simpl.
  2: { split; [done|]. split; [apply (frame_refl (R := only_world))|].
       repeat split. by left. }
  pose proof (list_tables_moves (tutor s)) as Ht.
  destruct (list_tables (tutor s)) as [[tables|e] t1] eqn:Et; simpl in *.
  2: { repeat split; [exact Ht|]. right. exists (tutor s). by rewrite Et. }
  match goal with
  | |- context [Selection.generate level ?p ?s1] =>
      pose proof (generate_runs level p s1) as G;
      destruct (Selection.generate level p s1) as [[[e|]|e] s2]
  end; simpl in *.
  - destruct G as (Hw & Hc & Hn & Hid). repeat split; try done.
    by apply (frame_trans (R := only_world)) with t1.
  - done.
  - destruct G as (Hw & Hn & Hc). split.
    + by apply (frame_trans (R := only_world)) with t1.
    + split; [|exact Hc]. exists (GenerationError (exn_str e)).
      rewrite Hn. split; [done|]. right. by eexists.
Qed.

End Generator.

(** ** The choice *)

Section Choice.
Context {World : Type} `{Env World} `{Library World}.

Lemma only_world_fields (t t' : machine World) :
  only_world t t' ->
  client t' = client t /\ queries t' = queries t
  /\ completed_exercises t' = completed_exercises t /\ stdout t' = stdout t.
Proof. intros ->. done. Qed.

Lemma engine_pick (level : string) (s : selector World)
    (entries : list exercise) (marked : gset string) :
  queries (tutor s) !! level = Some entries ->
  completed_exercises (tutor s) !! level = Some marked ->
  match entries with
  | [] =>
      Selection.engine (pick level) s
      = (Raise empty_sequence,
         Selector (tutor s) (generated_exercise_counter s) (notices s))
  | _ =>
      exists q w,
        Selection.engine (pick level) s
        = (Return q,
           Selector (set_world (tutor s) w) (generated_exercise_counter s)
                    (notices s))
        /\ q ∈ entries
        /\ (ex_id q ∈ marked -> Forall (fun q' => ex_id q' ∈ marked) entries)
  end.
Proof.
  intros Hq Hc. pose proof (pick_chooses level (tutor s) entries marked Hq Hc) as P.
  unfold Selection.engine. destruct entries as [|q0 entries].
  - by rewrite P.
  - destruct P as (q & w & -> & Hin & Hall). by exists q, w.
Qed.

(** What [get_query_by_level] returns is an exercise of the level: one
    that was there, and then a completed one only when every exercise of
    the level is completed, or one just generated, and then it has been
    appended to the level, every exercise of the level was counted as
    completed and a client is configured.  The completion sets are never
    touched. *)
Theorem get_query_by_level_returns (level : string) (s : selector World) :
  match Selection.get_query_by_level level s with
  | (Return q, s') =>
      exists entries marked,
        queries (tutor s) !! level = Some entries
        /\ completed_exercises (tutor s) !! level = Some marked
        /\ completed_exercises (tutor s') = completed_exercises (tutor s)
        /\ ((queries (tutor s') = queries (tutor s) /\ q ∈ entries
             /\ (ex_id q ∈ marked ->
                 Forall (fun q' => ex_id q' ∈ marked) entries))
            \/ (length entries <= size marked /\ client (tutor s) = true
                /\ queries (tutor s')
                   = <[level := entries ++ [q]]> (queries (tutor s))
                /\ generated_exercise_counter s'
                   = S (generated_exercise_counter s)
                /\ generated_id level (generated_exercise_counter s') (ex_id q)))
  | (Raise _, _) => True
  end.
Proof.
  cbv [Selection.get_query_by_level Selection.bind Selection.get
       Selection.raise Selection.print Selection.ret].
  destruct (queries (tutor s) !! level) as [entries|] eqn:Eq; [|done].
  unfold Selection.engine at 1.
  destruct (completed_exercises (tutor s) !! level) as [marked|] eqn:Ec.
  2: { unfold completed_of, bind, get, of_py, getitem. by rewrite Ec. }
  rewrite (completed_of_eq level (tutor s) marked Ec).
  cbn [tutor generated_exercise_counter notices].
  destruct ((length entries <=? size marked)%nat && client (tutor s)) eqn:Econd.
  - apply andb_true_iff in Econd as [Hle%Nat.leb_le Hcl].
    match goal with
    | |- context [Selection.generate_new_exercise level ?s1] =>
        pose proof (generate_new_exercise_runs level s1) as G;
        destruct (Selection.generate_new_exercise level s1) as [[[e|]|e] s2]
    end; simpl in G; [| |done].
    + destruct G as (_ & Hw & Hc & _ & Hid).
      apply only_world_fields in Hw as (_ & Hq2 & Hc2 & _).
      unfold Selection.engine.
      rewrite (append_exercise_eq level e (tutor s2) entries)
        by (by rewrite Hq2).
      exists entries, marked. split; [done|]. split; [done|].
      split; [exact Hc2|]. right. simpl. by rewrite Hq2.
    + destruct G as (Hw & _ & _).
      apply only_world_fields in Hw as (_ & Hq2 & Hc2 & _).
      pose proof (engine_pick level s2 entries marked) as P.
      rewrite Hq2, Hc2 in P. specialize (P Eq Ec).
      destruct entries as [|q0 entries]; [by rewrite P|].
      destruct P as (q & w & -> & Hin & Hall).
      exists (q0 :: entries), marked. split; [done|]. split; [done|].
      split; [exact Hc2|]. left. by split; [exact Hq2|].
  - pose proof (engine_pick level (Selector (tutor s)
                  (generated_exercise_counter s) (notices s)) entries marked
                  Eq Ec) as P.
    destruct entries as [|q0 entries]; [by rewrite P|].
    destruct P as (q & w & -> & Hin & Hall).
    exists (q0 :: entries), marked. by repeat split; try left.
Qed.

(** An exception that leaves [get_query_by_level] is the [ValueError] of
    an unknown level, the [KeyError] of a level without a completion
    set, the [IndexError] of [random.choice] on a level without
    exercises, or was raised by the listing of the tables while an
    exercise was being generated.  What the advisor or the decoder
    raises never leaves it, and neither the exercises nor the completion
    sets have changed. *)
Theorem get_query_by_level_raises (level : string) (s : selector World) :
  match Selection.get_query_by_level level s with
  | (Raise e, s') =>
      queries (tutor s') = queries (tutor s)
      /\ completed_exercises (tutor s') = completed_exercises (tutor s)
      /\ match queries (tutor s) !! level with
         | None => exn_class e = "ValueError" /\ s' = s
         | Some entries =>
             match completed_exercises (tutor s) !! level with
             | None => e = KeyError level /\ tutor s' = tutor s
             | Some marked =>
                 e = empty_sequence /\ entries = []
                 \/ from_tables e /\ length entries <= size marked
                    /\ client (tutor s) = true
             end
         end
  | (Return _, _) => True
  end.
Proof.
  cbv [Selection.get_query_by_level Selection.bind Selection.get
       Selection.raise Selection.print Selection.ret].
  destruct (queries (tutor s) !! level) as [entries|] eqn:Eq; [|done].
  unfold Selection.engine at 1.
  destruct (completed_exercises (tutor s) !! level) as [marked|] eqn:Ec.
  2: { unfold completed_of, bind, get, of_py, getitem. by rewrite Ec. }
  rewrite (completed_of_eq level (tutor s) marked Ec).
  cbn [tutor generated_exercise_counter notices].
  destruct ((length entries <=? size marked)%nat && client (tutor s)) eqn:Econd.
  - apply andb_true_iff in Econd as [Hle%Nat.leb_le Hcl].
    match goal with
    | |- context [Selection.generate_new_exercise level ?s1] =>
        pose proof (generate_new_exercise_runs level s1) as G;
        destruct (Selection.generate_new_exercise level s1) as [[[e|]|e] s2]
    end; simpl in G.
    + destruct G as (_ & Hw & _).
      apply only_world_fields in Hw as (_ & Hq2 & Hc2 & _).
      unfold Selection.engine.
      by rewrite (append_exercise_eq level e (tutor s2) entries)
        by (by rewrite Hq2).
    + destruct G as (Hw & _ & _).
      apply only_world_fields in Hw as (_ & Hq2 & Hc2 & _).
      pose proof (engine_pick level s2 entries marked) as P.
      rewrite Hq2, Hc2 in P. specialize (P Eq Ec).
      destruct entries as [|q0 entries].
      * rewrite P. simpl. split; [exact Hq2|]. split; [exact Hc2|]. by left.
      * by destruct P as (q & w & -> & _).
    + destruct G as (_ & Hw & _ & _ & [[-> Hnone]|Hfrom]).
      * simpl in Hnone. congruence.
      * apply only_world_fields in Hw as (_ & Hq2 & Hc2 & _).
        split; [exact Hq2|]. split; [exact Hc2|]. by right.
  - pose proof (engine_pick level (Selector (tutor s)
                  (generated_exercise_counter s) (notices s)) entries marked
                  Eq Ec) as P.
    destruct entries as [|q0 entries].
    + rewrite P. simpl. split; [done|]. split; [done|]. by left.
    + by destruct P as (q & w & -> & _).
Qed.

(** While a level has an exercise that is not completed, or no client is
    configured, nothing is generated: [get_query_by_level] returns an
    exercise of the level, an uncompleted one whenever there is one,
    prints nothing, and leaves the tutor and the counter as they were. *)
Theorem get_query_by_level_picks (level : string) (s : selector World)
    (entries : list exercise) (marked : gset string) :
  queries (tutor s) !! level = Some entries ->
  entries <> [] ->
  completed_exercises (tutor s) !! level = Some marked ->
  size marked < length entries \/ client (tutor s) = false ->
  exists q w,
    Selection.get_query_by_level level s
    = (Return q,
       Selector (set_world (tutor s) w) (generated_exercise_counter s)
                (notices s))
    /\ q ∈ entries
    /\ (ex_id q ∈ marked -> Forall (fun q' => ex_id q' ∈ marked) entries).
Proof.
  intros Eq Hne Ec Hcond.
  cbv [Selection.get_query_by_level Selection.bind Selection.get
       Selection.raise Selection.print Selection.ret].
  rewrite Eq. unfold Selection.engine at 1.
  rewrite (completed_of_eq level (tutor s) marked Ec).
  cbn [tutor generated_exercise_counter notices].
  replace ((length entries <=? size marked)%nat && client (tutor s))
    with false.
  2: { destruct Hcond as [Hlt| ->]; [|by rewrite andb_false_r].
       by apply Nat.leb_gt in Hlt as ->. }
  pose proof (engine_pick level (Selector (tutor s)
                (generated_exercise_counter s) (notices s)) entries marked
                Eq Ec) as P.
  destruct entries as [|q0 entries]; [done|]. exact P.
Qed.

(** Two exercises generated in one run never share an id, at whatever
    levels and whatever happened in between, as long as the counter was
    not set back. *)
Theorem generated_ids_distinct (level1 level2 : string)
    (s1 s1' s2 s2' : selector World) (e1 e2 : exercise) :
  Selection.generate_new_exercise level1 s1 = (Return (Some e1), s1') ->
  generated_exercise_counter s1' <= generated_exercise_counter s2 ->
  Selection.generate_new_exercise level2 s2 = (Return (Some e2), s2') ->
  ex_id e1 <> ex_id e2.
Proof.
  intros E1 Hle E2.
  pose proof (generate_new_exercise_runs level1 s1) as G1. rewrite E1 in G1.
  pose proof (generate_new_exercise_runs level2 s2) as G2. rewrite E2 in G2.
  destruct G1 as (_ & _ & _ & _ & c1 & _ & ->).
  destruct G2 as (_ & _ & Hc2 & _ & c2 & _ & ->).
  intros [= _ Hp]. simpl in Hp. apply pretty_nat_inj in Hp. lia.
Qed.

End Choice.

Section Outcome.
Context {World : Type} `{Env World} `{Library World}.

(** The prompt of line 91 for a level, as the generator builds it. *)
Definition prompt_of (level : string) (entries : list exercise)
    (tables : list string) : string :=
  generation_prompt level tables
    (join newline (map example_text (take 3 entries))).

Lemma generate_new_exercise_eq (level : string) (s : selector World)
    (entries : list exercise) (tables : list string) (t1 : machine World) :
  client (tutor s) = true ->
  queries (tutor s) !! level = Some entries ->
  list_tables (tutor s) = (Return tables, t1) ->
  Selection.generate_new_exercise level s
  = Selection.try_except
      (Selection.generate level (prompt_of level entries tables))
      (fun e => Selection.bind (Selection.print (GenerationError (exn_str e)))
                  (fun _ => Selection.ret None))
      (Selector t1 (generated_exercise_counter s) (notices s)).
Proof.
  intros Hcl Hq Ht.
  cbv [Selection.generate_new_exercise Selection.bind Selection.get
       Selection.engine].
  rewrite Hcl. cbn [negb].
  rewrite (exercises_of_eq level (tutor s) entries Hq).
  cbn [tutor generated_exercise_counter notices]. rewrite Ht. reflexivity.
Qed.

(** Once the tables are listed, nothing the advisor or the decoder does
    makes [generate_new_exercise] raise: a failure is answered by [None]
    after one line that reports it, and the exercises and the completion
    sets are as before.  When it is the advisor that raises, the line
    carries the text of its exception and no number has been used. *)
Theorem generation_failures_contained (level : string) (s : selector World)
    (entries : list exercise) (tables : list string) (t1 : machine World) :
  client (tutor s) = true ->
  queries (tutor s) !! level = Some entries ->
  list_tables (tutor s) = (Return tables, t1) ->
  exists new_exercise s',
    Selection.generate_new_exercise level s = (Return new_exercise, s')
    /\ queries (tutor s') = queries (tutor s)
    /\ completed_exercises (tutor s') = completed_exercises (tutor s)
    /\ (new_exercise = None ->
        exists error, notices s' = notices s ++ [GenerationError error])
    /\ (forall e w,
          messages_create model 500 (prompt_of level entries tables) (world t1)
          = (Raise e, w) ->
          new_exercise = None
          /\ s' = Selector (set_world t1 w) (generated_exercise_counter s)
                           (notices s ++ [GenerationError (exn_str e)])).
Proof.
  intros Hcl Hq Ht.
  rewrite (generate_new_exercise_eq level s entries tables t1 Hcl Hq Ht).
  pose proof (list_tables_moves (tutor s)) as Hw. rewrite Ht in Hw.
  apply only_world_fields in Hw as (_ & Hq1 & Hc1 & _). simpl in Hq1, Hc1.
  unfold Selection.try_except.
  pose proof (generate_runs level (prompt_of level entries tables)
                (Selector t1 (generated_exercise_counter s) (notices s))) as G.
  assert (Hadv : forall e w,
            messages_create model 500 (prompt_of level entries tables) (world t1)
            = (Raise e, w) ->
            Selection.generate level (prompt_of level entries tables)
              (Selector t1 (generated_exercise_counter s) (notices s))
            = (Raise e, Selector (set_world t1 w) (generated_exercise_counter s)
                                 (notices s))).
  { intros e w E.
    cbv [Selection.generate Selection.bind Selection.engine ask bind lift].
    simpl. by rewrite E. }
  destruct (Selection.generate level (prompt_of level entries tables)
              (Selector t1 (generated_exercise_counter s) (notices s)))
    as [[[e|]|e] s2]; simpl in G; [| done |].
  - destruct G as (Hw & _). apply only_world_fields in Hw as (_ & Hq2 & Hc2 & _).
    simpl in Hq2, Hc2. eexists _, _. split; [reflexivity|].
    split; [congruence|]. split; [congruence|]. split; [done|].
    intros e' w E. by specialize (Hadv e' w E).
  - destruct G as (Hw & Hn & _).
    apply only_world_fields in Hw as (_ & Hq2 & Hc2 & _). simpl in Hq2, Hc2, Hn.
    eexists _, _. split; [reflexivity|]. simpl.
    split; [congruence|]. split; [congruence|].
    split; [intros _; exists (exn_str e); by rewrite Hn|].
    intros e' w E. specialize (Hadv e' w E). injection Hadv as -> ->.
    done.
Qed.

(** The exercise handed over is the one the advisor wrote: the text of
    the answer is stripped, the object is cut out of it and decoded, and
    its question, solution, concepts and hint come back under an id made
    of the first character of the level, [gen] and the next number. *)
Theorem generated_exercise_is_decoded (level : string) (s : selector World)
    (entries : list exercise) (tables : list string) (t1 : machine World)
    (text : string) (more : list string) (w : World) (c : ascii)
    (q sol : string) (cs : list string) (h : option string) :
  client (tutor s) = true ->
  queries (tutor s) !! level = Some entries ->
  list_tables (tutor s) = (Return tables, t1) ->
  messages_create model 500 (prompt_of level entries tables) (world t1)
  = (Return (text :: more), w) ->
  json_loads (default (strip text) (json_match (strip text)))
  = Return (Object q sol cs h) ->
  first_char level = Return c ->
  Selection.generate_new_exercise level s
  = (Return (Some (Exercise
               (String c ("gen" +:+ pretty (S (generated_exercise_counter s))))
               q sol cs h)),
     Selector (set_world t1 w) (S (generated_exercise_counter s))
              (notices s ++ [NewExercise q])).
Proof.
  intros Hcl Hq Ht Hask Hjson Hc.
  rewrite (generate_new_exercise_eq level s entries tables t1 Hcl Hq Ht).
  cbv [Selection.try_except Selection.generate Selection.bind Selection.engine
       Selection.of_py Selection.count Selection.get Selection.print
       Selection.ret ask bind lift of_py index].
  simpl. rewrite Hask. simpl.
  destruct (json_match (strip text)) as [cut|]; simpl in Hjson;
    rewrite Hjson, Hc; reflexivity.
Qed.

End Outcome.

Lemma generation_failures_contained_witness :
  let s := Desk.selector0 (Desk.tutor1 (Desk.unreachable [])) in
  list_tables (tutor s)
  = (Return ["orders"; "users"], (list_tables (tutor s)).2)
  /\ exists s',
       Selection.generate_new_exercise "beginner" s = (Return None, s')
       /\ queries (tutor s') = queries (tutor s)
       /\ generated_exercise_counter s' = 0%nat
       /\ notices s' = [GenerationError "Connection error."].
Proof.
  cbv zeta.
  assert (Ht : list_tables (tutor (Desk.selector0
                                     (Desk.tutor1 (Desk.unreachable []))))
               = (Return ["orders"; "users"],
                  (list_tables (Desk.tutor1 (Desk.unreachable []))).2))
    by (vm_compute; reflexivity).
  split; [exact Ht|].
  destruct (generation_failures_contained "beginner"
              (Desk.selector0 (Desk.tutor1 (Desk.unreachable [])))
              [Script.beginner] ["orders"; "users"]
              (list_tables (Desk.tutor1 (Desk.unreachable []))).2
              eq_refl eq_refl Ht)
    as (new_exercise & s' & E & Hq & _ & _ & Hadv).
  destruct (Hadv (Exn "APIConnectionError" "Connection error.")
              (world (list_tables (Desk.tutor1 (Desk.unreachable []))).2))
    as [-> ->]; [vm_compute; reflexivity|].
  exists (Selector
            (set_world (list_tables (Desk.tutor1 (Desk.unreachable []))).2
               (world (list_tables (Desk.tutor1 (Desk.unreachable []))).2))
            0 [GenerationError "Connection error."]).
  split; [exact E|]. split; [exact Hq|]. split; reflexivity.
Defined.

Lemma generated_exercise_is_decoded_witness :
  let s := Desk.selector0 (Desk.tutor1 (Desk.helpful [])) in
  json_match ("Here is the exercise: " +:+ Desk.answer +:+ " Good luck!")
  = Some Desk.answer
  /\ (Selection.generate_new_exercise "beginner" s).1
     = Return (Some (Exercise "bgen1" "Count the orders."
                       "SELECT COUNT(*) FROM orders;" ["COUNT"] None))
  /\ generated_exercise_counter (Selection.generate_new_exercise "beginner" s).2
     = 1%nat
  /\ notices (Selection.generate_new_exercise "beginner" s).2
     = [NewExercise "Count the orders."].
Proof.
  cbv zeta. split; [vm_compute; reflexivity|].
  assert (Ht : list_tables (tutor (Desk.selector0
                                     (Desk.tutor1 (Desk.helpful []))))
               = (Return ["orders"; "users"],
                  (list_tables (Desk.tutor1 (Desk.helpful []))).2))
    by (vm_compute; reflexivity).
  rewrite (generated_exercise_is_decoded "beginner"
             (Desk.selector0 (Desk.tutor1 (Desk.helpful [])))
             [Script.beginner] ["orders"; "users"]
             (list_tables (Desk.tutor1 (Desk.helpful []))).2
             ("Here is the exercise: " +:+ Desk.answer +:+ " Good luck!") []
             (world (list_tables (Desk.tutor1 (Desk.helpful []))).2)
             "b"%char "Count the orders." "SELECT COUNT(*) FROM orders;"
             ["COUNT"] None eq_refl eq_refl Ht);
    [|vm_compute; reflexivity..].
  split; [reflexivity|]. split; reflexivity.
Defined.

Lemma get_query_by_level_picks_witness :
  let s := Desk.selector0 (Script.tutor0 false (Script.world0 [])) in
  queries (tutor s) !! "beginner" = Some [Script.beginner]
  /\ completed_exercises (tutor s) !! "beginner" = Some ∅
  /\ exists q w,
       Selection.get_query_by_level "beginner" s
       = (Return q, Selector (set_world (tutor s) w) 0 [])
       /\ q ∈ [Script.beginner].
Proof.
  cbv zeta. split; [reflexivity|]. split; [reflexivity|].
  destruct (get_query_by_level_picks "beginner"
              (Desk.selector0 (Script.tutor0 false (Script.world0 [])))
              [Script.beginner] ∅ eq_refl) as (q & w & E & Hin & _).
  - discriminate.
  - reflexivity.
  - right. reflexivity.
  - exists q, w. split; [exact E|exact Hin].
Defined.

Lemma generated_ids_distinct_witness :
  let s1 := Desk.selector0 (Desk.tutor1 (Desk.helpful [])) in
  let r1 := Selection.generate_new_exercise "beginner" s1 in
  let r2 := Selection.generate_new_exercise "beginner" r1.2 in
  exists e1 e2,
    r1.1 = Return (Some e1) /\ r2.1 = Return (Some e2)
    /\ ex_id e1 = "bgen1" /\ ex_id e2 = "bgen2" /\ ex_id e1 <> ex_id e2.
Proof.
  cbv zeta.
  exists (Exercise "bgen1" "Count the orders." "SELECT COUNT(*) FROM orders;"
            ["COUNT"] None),
         (Exercise "bgen2" "Count the orders." "SELECT COUNT(*) FROM orders;"
            ["COUNT"] None).
  split; [vm_compute; reflexivity|]. split; [vm_compute; reflexivity|].
  split; [reflexivity|]. split; [reflexivity|].
  apply (generated_ids_distinct "beginner" "beginner"
           (Desk.selector0 (Desk.tutor1 (Desk.helpful [])))
           (Selection.generate_new_exercise "beginner"
              (Desk.selector0 (Desk.tutor1 (Desk.helpful [])))).2
           (Selection.generate_new_exercise "beginner"
              (Desk.selector0 (Desk.tutor1 (Desk.helpful [])))).2
           (Selection.generate_new_exercise "beginner"
              (Selection.generate_new_exercise "beginner"
                 (Desk.selector0 (Desk.tutor1 (Desk.helpful [])))).2).2).
  - vm_compute. reflexivity.
  - apply le_n.
  - vm_compute. reflexivity.
Defined.
